(** * Kawasaki backup client: the protocol engine of [kawasaki_backup_client.py]

    A shallow embedding of [KawasakiBackupClient.run] and its helpers.
    Bytes are [Byte.byte]; Python [int]s are [Z]; Python [str]s are lists
    of code points; [float] seconds are rationals.  The socket, the clock
    and the cancelling thread form the environment, kept in a [world]
    record that every operation threads; every observable effect of the
    engine is appended to the world's [trace].  The standard library is the
    one of CPython 3.10 or later on Linux: [socket.timeout] is
    [TimeoutError], and a number of seconds is kept as a count of
    nanoseconds. *)

From Stdlib Require Import Strings.Byte Strings.String.
From Stdlib Require Import List ZArith NArith QArith Lia Bool Arith Sorted.
Import ListNotations.

Local Open Scope Z_scope.
Local Open Scope list_scope.

(** ** Bytes *)

Definition bytes := list byte.

(** A [bytes] literal, written as its ASCII text. *)
Definition lit (s : string) : bytes := list_byte_of_string s.

Definition blen (b : bytes) : Z := Z.of_nat (length b).

(** [b.startswith(p)] *)
Fixpoint starts_with (p b : bytes) : bool :=
  match p, b with
  | [], _ => true
  | _ :: _, [] => false
  | x :: p', y :: b' => Byte.eqb x y && starts_with p' b'
  end.

(** Python's [p in b]. *)
Fixpoint contains (p b : bytes) : bool :=
  starts_with p b ||
  match b with
  | [] => false
  | _ :: t => contains p t
  end.

(** [b.endswith(p)] for a one-byte [p]. *)
Fixpoint ends_with_byte (c : byte) (b : bytes) : bool :=
  match b with
  | [] => false
  | [x] => Byte.eqb x c
  | _ :: t => ends_with_byte c t
  end.

(** ** Protocol constants *)

Definition START_HEADER : bytes := [x05; x02; x42].
Definition SECOND_HEADER : bytes := [x02; x42; x20; x20; x20; x20; x30; x17].
Definition ACK_BYTE : bytes := [x06].
Definition EOT_MARKER : bytes := [x05; x02; x45; x17].
Definition BUSY_TEXT : bytes := lit "SAVE/LOAD in progress".
Definition DEFAULT_PROGRESS_INTERVAL : Z := 10 * 1024.

Definition CR : byte := x0d.
Definition LF : byte := x0a.
Definition ESC : byte := x17.
Definition REC_MARKER : bytes := [x05; x02; x44].

(** The class [\r\n]; [^\r\n] is its negation. *)
Definition is_newline (c : byte) : bool := Byte.eqb c CR || Byte.eqb c LF.

(** ** Regular expressions, as far as the client writes them *)

(** The classes [[^...]] and [\d]. *)
Inductive charset :=
| NoneOf (cs : list byte)
| Digit.

Definition is_digit (c : byte) : bool :=
  let n := Byte.to_N c in ((48 <=? n) && (n <=? 57))%N.

Definition in_charset (s : charset) (c : byte) : bool :=
  match s with
  | NoneOf cs => negb (existsb (Byte.eqb c) cs)
  | Digit => is_digit c
  end.

(** A pattern is a sequence of: a literal byte, one byte of a class, an
    optional literal byte [(?:c)?], a greedy repetition of a class [s*]. *)
Inductive atom :=
| Chr (c : byte)
| Any (s : charset)
| Opt (c : byte)
| Star (s : charset).

Definition regex := list atom.

Definition consumed (c : byte) (m : option (bytes * bytes)) : option (bytes * bytes) :=
  match m with
  | Some (text, rest) => Some (c :: text, rest)
  | None => None
  end.

(** One byte accepted by [ok], then [k] on what follows. *)
Definition eat (ok : byte -> bool) (k : bytes -> option (bytes * bytes)) (b : bytes)
    : option (bytes * bytes) :=
  match b with
  | c :: t => if ok c then consumed c (k t) else None
  | [] => None
  end.

Definition or_else (m : option (bytes * bytes)) (k : option (bytes * bytes))
    : option (bytes * bytes) :=
  match m with
  | Some r => Some r
  | None => k
  end.

(** [r] anchored at the head of [b], with the backtracking order of
    Python's [re]: an optional byte is taken first and left out when the
    rest fails; a star takes as many bytes as it can and gives them back one
    by one.  The result is the matched text and the rest of [b]. *)
Fixpoint re_match (r : regex) : bytes -> option (bytes * bytes) :=
  match r with
  | [] => fun b => Some ([], b)
  | Chr c :: r' => eat (Byte.eqb c) (re_match r')
  | Any s :: r' => eat (in_charset s) (re_match r')
  | Opt c :: r' => fun b => or_else (eat (Byte.eqb c) (re_match r') b) (re_match r' b)
  | Star s :: r' =>
      fix star (b : bytes) : option (bytes * bytes) :=
        or_else
          match b with
          | c :: t => if in_charset s c then consumed c (star t) else None
          | [] => None
          end
          (re_match r' b)
  end.

(** [r.search(b)]: the leftmost match.  The result is [m.group(0)] and
    [b[m.end():]]. *)
Fixpoint re_search (r : regex) (b : bytes) : option (bytes * bytes) :=
  match re_match r b with
  | Some m => Some m
  | None =>
      match b with
      | [] => None
      | _ :: t => re_search r t
      end
  end.

(** The pattern that matches the bytes of [p], as [re.escape(p)] does. *)
Definition literal (p : bytes) : regex := map Chr p.

(** DATA_REC_REGEX = (?:\x17)?\x05\x02D[^\r\n]*\r *)
Definition DATA_REC_REGEX : regex :=
  [Opt x17; Chr x05; Chr x02; Chr x44; Star (NoneOf [CR; LF]); Chr CR].

(** [DATA_REC_REGEX.search(b)] *)
Definition data_rec_search (b : bytes) : option (bytes * bytes) :=
  re_search DATA_REC_REGEX b.

(** Lines 225-227: the payload of a matched record. *)
Definition payload_of (rec : bytes) : bytes :=
  let payload := if starts_with [ESC] rec then skipn 4 rec else skipn 3 rec in
  if ends_with_byte CR payload then removelast payload ++ [CR; LF] else payload.

(** ** Python strings and their UTF-8 encoding *)

(** A [str] is its sequence of code points. *)
Definition pystr := list N.

(** A [str] literal, written as its ASCII text. *)
Definition text (s : string) : pystr := map Byte.to_N (list_byte_of_string s).

Definition CRLF : string := String (Ascii.ascii_of_nat 13) (String (Ascii.ascii_of_nat 10) EmptyString).

Definition byte_of (n : N) : byte :=
  match Byte.of_N n with
  | Some b => b
  | None => x00
  end.

(** [c.encode()] for one code point; surrogates raise [UnicodeEncodeError]. *)
Definition encode_char (c : N) : option bytes :=
  (if c <? 0x80 then Some [byte_of c]
   else if c <? 0x800 then
     Some [byte_of (0xC0 + c / 64); byte_of (0x80 + c mod 64)]
   else if c <? 0x10000 then
     if (0xD800 <=? c) && (c <=? 0xDFFF) then None
     else Some [byte_of (0xE0 + c / 4096); byte_of (0x80 + (c / 64) mod 64);
                byte_of (0x80 + c mod 64)]
   else if c <? 0x110000 then
     Some [byte_of (0xF0 + c / 262144); byte_of (0x80 + (c / 4096) mod 64);
           byte_of (0x80 + (c / 64) mod 64); byte_of (0x80 + c mod 64)]
   else None)%N.

(** [s.encode()] *)
Fixpoint encode (s : pystr) : option bytes :=
  match s with
  | [] => Some []
  | c :: t =>
      match encode_char c, encode t with
      | Some b, Some r => Some (b ++ r)
      | _, _ => None
      end
  end.

(** The class [A-Za-z0-9_.-] of line 136. *)
Definition safe_char (c : N) : bool :=
  ((65 <=? c) && (c <=? 90) || (97 <=? c) && (c <=? 122) ||
   (48 <=? c) && (c <=? 57) || (c =? 95) || (c =? 46) || (c =? 45))%N.

(** [re.sub(r'[^A-Za-z0-9_.-]', '_', name)] *)
Definition sanitize (name : pystr) : pystr :=
  map (fun c => if safe_char c then c else 95%N) name.

(** ** Configuration, failures and observable events *)

Record config := {
  ip : pystr;
  base_name : pystr;
  port : Z;
  username : pystr;
  full : bool;
  progress_interval : Z;
  socket_timeout : Q;
  recv_timeout : Q;
  connect_retries : Z;
  retry_delay : Q
}.

(** The exceptions that travel through [run]. *)
Inductive failure :=
| SocketTimeout                    (* socket.timeout, that is TimeoutError *)
| TransportError (errno : Z)       (* any other OSError of the socket *)
| NotConnected                     (* OSError of a socket that is not connected *)
| BackupInProgress                 (* Exception("Another backup in progress; aborting.") *)
| CancelledByUser                  (* Exception("Backup cancelled by user.") *)
| UnicodeEncodeError
| ValueError                       (* of a negative number of seconds *)
| OverflowError.                   (* of a number of seconds the timer cannot hold *)

(** The texts handed to [_emit_status]. *)
Inductive status_msg :=
| StConnecting (host : pystr) (prt : Z) (attempt : Z)
| StRetrying (delay : Q)
| StConnected
| StSendingLogin
| StWaitingAux
| StIssuingSave (cmd : bytes)          (* the status shows [cmd] stripped *)
| StWaitingHeader
| StBusy
| StHandshake
| StReceiving
| StComplete.

(** What the engine does to the outside, in the order it does it.  The four
    [_emit_*] helpers swallow whatever a handler raises, and do nothing when
    no handler is registered; the trace records the emission itself. *)
Inductive event :=
| EvStatus (m : status_msg)
| EvProgress (n : Z)
| EvError (e : failure)
| EvComplete (out_path debug_path : pystr)
| EvSetTimeout (t : Q)
| EvConnect (host : pystr) (prt : Z)
| EvSend (data : bytes)
| EvSleep (d : Q)
| EvOpen (path : pystr)
| EvWrite (payload : bytes)         (* out_file.write *)
| EvDebug (chunk : bytes)           (* dbg.write *)
| EvCloseFiles
| EvShutdown
| EvClose.

(** What one [sock.recv] meets. *)
Inductive recv_event :=
| RecvData (chunk : bytes)
| RecvTimeout
| RecvError (errno : Z).

(** The environment of a session.
    - [connect_failures]: the errors the coming [sock.connect] calls raise,
      whatever their cause (an address that cannot be used, a refusal, a
      timeout); once the list is used up, connecting succeeds.
    - [incoming]: what the coming [sock.recv] calls meet; once the list is
      used up the peer has closed and every read is a zero-length read.
    - [cancel_in]: [Some k] when the other thread sets the cancellation flag
      so that the (k+1)-th poll from now is the first to see it; [None]
      when it never does.
    - [clock]: the [strftime] text of [datetime.now()].
    File operations return normally; [sendall] does so on a connected
    socket. *)
Record world := {
  connect_failures : list failure;
  connected : bool;
  incoming : list recv_event;
  cancel_in : option nat;
  clock : pystr;
  trace : list event
}.

Definition set_trace (t : list event) (w : world) : world :=
  {| connect_failures := connect_failures w; connected := connected w;
     incoming := incoming w; cancel_in := cancel_in w; clock := clock w;
     trace := t |}.

Definition set_incoming (i : list recv_event) (w : world) : world :=
  {| connect_failures := connect_failures w; connected := connected w;
     incoming := i; cancel_in := cancel_in w; clock := clock w;
     trace := trace w |}.

Definition set_connected (c : bool) (w : world) : world :=
  {| connect_failures := connect_failures w; connected := c;
     incoming := incoming w; cancel_in := cancel_in w; clock := clock w;
     trace := trace w |}.

Definition set_connect_failures (l : list failure) (w : world) : world :=
  {| connect_failures := l; connected := connected w;
     incoming := incoming w; cancel_in := cancel_in w; clock := clock w;
     trace := trace w |}.

Definition set_cancel_in (c : option nat) (w : world) : world :=
  {| connect_failures := connect_failures w; connected := connected w;
     incoming := incoming w; cancel_in := c; clock := clock w;
     trace := trace w |}.

(** ** The monad of the engine: state, exceptions, and loops that may not end *)

Inductive outcome (A : Type) :=
| Ret (a : A)
| Raise (e : failure)
| OutOfFuel.

Arguments Ret {A} a.
Arguments Raise {A} e.
Arguments OutOfFuel {A}.

Definition M (A : Type) := world -> outcome A * world.

Definition ret {A} (a : A) : M A := fun w => (Ret a, w).
Definition raise {A} (e : failure) : M A := fun w => (Raise e, w).
Definition out_of_fuel {A} : M A := fun w => (OutOfFuel, w).

Definition bind {A B} (m : M A) (k : A -> M B) : M B :=
  fun w =>
    match m w with
    | (Ret a, w') => k a w'
    | (Raise e, w') => (Raise e, w')
    | (OutOfFuel, w') => (OutOfFuel, w')
    end.

Notation "x <- m ;; k" := (bind m (fun x => k))
  (at level 61, m at next level, right associativity).
Notation "m ;; k" := (bind m (fun _ => k))
  (at level 61, right associativity).

(** [try: m except Exception as e: h e] *)
Definition try_except {A} (m : M A) (h : failure -> M A) : M A :=
  fun w =>
    match m w with
    | (Raise e, w') => h e w'
    | r => r
    end.

(** [try: m finally: f], for an [f] that raises nothing. *)
Definition finally {A} (m : M A) (f : M unit) : M A :=
  fun w =>
    match m w with
    | (OutOfFuel, w') => (OutOfFuel, w')
    | (r, w') => (r, snd (f w'))
    end.

Definition emit (e : event) : M unit :=
  fun w => (Ret tt, set_trace (trace w ++ [e]) w).

Definition _emit_status (m : status_msg) : M unit := emit (EvStatus m).
Definition _emit_progress (n : Z) : M unit := emit (EvProgress n).
Definition _emit_error (e : failure) : M unit := emit (EvError e).
Definition _emit_complete (o d : pystr) : M unit := emit (EvComplete o d).

(** The timer of [sock.settimeout] and [time.sleep].  Both turn their
    argument into a count of nanoseconds, rounded away from zero, in a
    signed 64-bit integer, and raise [OverflowError] when the count does not
    fit; then they raise [ValueError] when it is negative. *)
Definition NS_PER_SECOND : Z := 10 ^ 9.
Definition NS_MIN : Z := - 2 ^ 63.
Definition NS_MAX : Z := 2 ^ 63 - 1.

Definition fits_timer (t : Q) : bool :=
  Qle_bool (inject_Z NS_MIN) (t * inject_Z NS_PER_SECOND) &&
  Qle_bool (t * inject_Z NS_PER_SECOND) (inject_Z NS_MAX).

Definition check_seconds (t : Q) : M unit :=
  if fits_timer t then
    if Qle_bool 0 t then ret tt else raise ValueError
  else raise OverflowError.

(** A number of seconds that the timer accepts. *)
Definition valid_seconds (t : Q) : bool := fits_timer t && Qle_bool 0 t.

(** The failures of the timer. *)
Definition timer_error (e : failure) : Prop := e = ValueError \/ e = OverflowError.

(** [time.sleep(d)] *)
Definition sleep (d : Q) : M unit := check_seconds d ;; emit (EvSleep d).

(** [sock.settimeout(t)] *)
Definition settimeout (t : Q) : M unit := check_seconds t ;; emit (EvSetTimeout t).

(** [datetime.datetime.now().strftime('%Y%m%d_%H%M%S')] *)
Definition now : M pystr := fun w => (Ret (clock w), w).

(** [s.encode()] as a step of the engine. *)
Definition encode_str (s : pystr) : M bytes :=
  match encode s with
  | Some b => ret b
  | None => raise UnicodeEncodeError
  end.

(** [sock.connect((ip, port))] *)
Definition connect (host : pystr) (prt : Z) : M unit :=
  fun w =>
    let w1 := set_trace (trace w ++ [EvConnect host prt]) w in
    match connect_failures w with
    | [] => (Ret tt, set_connected true w1)
    | e :: l => (Raise e, set_connect_failures l w1)
    end.

(** [sock.sendall(data)] *)
Definition sendall (data : bytes) : M unit :=
  fun w =>
    if connected w then (Ret tt, set_trace (trace w ++ [EvSend data]) w)
    else (Raise NotConnected, w).

(** [errno.ETIMEDOUT] *)
Definition ETIMEDOUT : Z := 110.

(** The exception of an error of the socket: an [OSError] with the number
    [ETIMEDOUT] is a [TimeoutError], which is what [socket.timeout] names. *)
Definition os_error (errno : Z) : failure :=
  if errno =? ETIMEDOUT then SocketTimeout else TransportError errno.

(** [sock.recv(n)]: at most [n] bytes of what has arrived; what is left of
    an arrival stays for the next read. *)
Definition recv (n : nat) : M bytes :=
  fun w =>
    if connected w then
      match incoming w with
      | [] => (Ret [], w)
      | RecvTimeout :: l => (Raise SocketTimeout, set_incoming l w)
      | RecvError e :: l => (Raise (os_error e), set_incoming l w)
      | RecvData c :: l =>
          if (length c <=? n)%nat then (Ret c, set_incoming l w)
          else (Ret (firstn n c), set_incoming (RecvData (skipn n c) :: l) w)
      end
    else (Raise NotConnected, w).

(** Reading [self._cancel_requested]. *)
Definition cancel_requested : M bool :=
  fun w =>
    match cancel_in w with
    | None => (Ret false, w)
    | Some O => (Ret true, w)
    | Some (S k) => (Ret false, set_cancel_in (Some k) w)
    end.

(** The truth value of a [bytes] object. *)
Definition truthy (b : bytes) : bool :=
  match b with
  | [] => false
  | _ :: _ => true
  end.

(** ** The handshake patterns *)

(** A compiled pattern is used through the truth value of [search] only;
    it is given by its alternatives. *)
Definition pattern := bytes -> bool.

Definition is_some {A} (o : option A) : bool :=
  match o with
  | Some _ => true
  | None => false
  end.

Definition compile (alternatives : list regex) : pattern :=
  fun b => existsb (fun r => is_some (re_search r b)) alternatives.

(** [re.compile(rb'login:')] *)
Definition LOGIN_PROMPT : pattern := compile [literal (lit "login:")].

(** [re.compile(rb'AUX\d')] *)
Definition AUX_PROMPT : pattern := compile [literal (lit "AUX") ++ [Any Digit]].

(** [SAVELOAD_IN_PROGRESS = re.compile(rb'SAVE/LOAD in progress')] *)
Definition SAVELOAD_IN_PROGRESS : pattern := compile [literal BUSY_TEXT].

(** Lines 185-187: the header text, escaped so that it is matched literally. *)
Definition header_text (safe_name ext : bytes) : bytes :=
  START_HEADER ++ safe_name ++ lit "." ++ ext ++ [x17].

(** Lines 188-189: busy text or header. *)
Definition combined (header : bytes) : pattern :=
  compile [literal BUSY_TEXT; literal header].

(** ** [_recv_until], [_send_and_wait], [_wait_for] *)

(** Lines 294-299. *)
Fixpoint recv_until_loop (fuel : nat) (pat : pattern) (buf : bytes) : M bytes :=
  if pat buf then ret buf
  else
    match fuel with
    | O => out_of_fuel
    | S f =>
        chunk <- recv 1024 ;;
        if truthy chunk then
          emit (EvDebug chunk) ;;
          recv_until_loop f pat (buf ++ chunk)
        else ret buf
    end.

Definition _recv_until (fuel : nat) (pat : pattern) (timeout : Q)
    (status : option status_msg) : M bytes :=
  match status with
  | Some s => _emit_status s
  | None => ret tt
  end ;;
  settimeout timeout ;;
  recv_until_loop fuel pat [].

Definition _send_and_wait (fuel : nat) (data : bytes) (prompt_pattern : pattern)
    (timeout : Q) (status : status_msg) : M bytes :=
  _emit_status status ;;
  sendall data ;;
  _recv_until fuel prompt_pattern timeout None.

Definition _wait_for (fuel : nat) (pat : pattern) (timeout : Q)
    (status : status_msg) : M bytes :=
  _emit_status status ;;
  _recv_until fuel pat timeout None.

(** ** The streaming loop, lines 206-235 *)

Record stream_state := {
  total_written : Z;
  last_report : Z;
  buffer : bytes
}.

Definition stream_start : stream_state :=
  {| total_written := 0; last_report := 0; buffer := [] |}.

(** Lines 230-232; the result is the new [last_report]. *)
Fixpoint progress_loop (fuel : nat) (interval total last : Z) : M Z :=
  if total >=? last + interval then
    match fuel with
    | O => out_of_fuel
    | S f =>
        let last := last + interval in
        _emit_progress last ;;
        progress_loop f interval total last
    end
  else ret last.

(** Lines 220-233.  [n] is the budget of the progress loop inside. *)
Fixpoint drain_loop (n fuel : nat) (interval : Z) (st : stream_state)
    : M stream_state :=
  match data_rec_search (buffer st) with
  | None => ret st
  | Some (rec, rest) =>
      match fuel with
      | O => out_of_fuel
      | S f =>
          let payload := payload_of rec in
          emit (EvWrite payload) ;;
          let total := total_written st + blen payload in
          last <- progress_loop n interval total (last_report st) ;;
          drain_loop n f interval
            {| total_written := total; last_report := last; buffer := rest |}
      end
  end.

(** [isinstance(e, socket.timeout)] *)
Definition is_timeout (e : failure) : bool :=
  match e with
  | SocketTimeout => true
  | TransportError errno => errno =? ETIMEDOUT
  | _ => false
  end.

(** Lines 212-218: one read; a [socket.timeout] gives the empty chunk. *)
Definition read_chunk : M bytes :=
  try_except (recv 4096)
    (fun e => if is_timeout e then ret [] else raise e).

(** Lines 209-235.  [n] is the budget of the loops inside. *)
Fixpoint stream_loop (n fuel : nat) (interval : Z) (st : stream_state)
    : M stream_state :=
  match fuel with
  | O => out_of_fuel
  | S f =>
      c <- cancel_requested ;;
      if c then raise CancelledByUser
      else
        chunk <- read_chunk ;;
        (if truthy chunk then emit (EvDebug chunk) else ret tt) ;;
        let st1 :=
          if truthy chunk then
            {| total_written := total_written st;
               last_report := last_report st;
               buffer := buffer st ++ chunk |}
          else st in
        st2 <- drain_loop n n interval st1 ;;
        if contains EOT_MARKER (buffer st2) then ret st2
        else stream_loop n f interval st2
  end.

(** ** [run] *)

(** [range(lo, hi)] *)
Definition py_range (lo hi : Z) : list Z :=
  map (fun i => lo + Z.of_nat i) (seq 0 (Z.to_nat (hi - lo))).

(** Lines 151-163, over the attempts still to make: a successful attempt
    leaves the loop, a failed one that is not the last goes on with the
    next attempt, the last failure is reported and raised again. *)
Fixpoint connect_loop (cfg : config) (attempts : list Z) : M unit :=
  match attempts with
  | [] => ret tt
  | attempt :: rest =>
      try_except
        (_emit_status (StConnecting (ip cfg) (port cfg) attempt) ;;
         connect (ip cfg) (port cfg))
        (fun e =>
           if attempt <? connect_retries cfg then
             _emit_status (StRetrying (retry_delay cfg)) ;;
             sleep (retry_delay cfg) ;;
             connect_loop cfg rest
           else
             _emit_error e ;;
             raise e)
  end.

(** Lines 136-143: what [run] computes before it touches the socket. *)
Record plan := {
  safe_name : pystr;
  ext : pystr;
  out_path : pystr;
  debug_path : pystr;
  cmd : bytes
}.

Definition save_text (is_full : bool) (name : pystr) : pystr :=
  text "SAVE" ++ (if is_full then text "/Full" else text "") ++ text " " ++
  name ++ text CRLF.

Definition prepare (cfg : config) : M plan :=
  let safe_name := sanitize (base_name cfg) in
  let ext := text "as" in
  let out_path := safe_name ++ text "." ++ ext in
  timestamp <- now ;;
  let debug_path :=
    text "debug_" ++ safe_name ++ text "_" ++ timestamp ++ text ".log" in
  cmd <- encode_str (save_text (full cfg) safe_name) ;;
  ret {| safe_name := safe_name; ext := ext; out_path := out_path;
         debug_path := debug_path; cmd := cmd |}.

(** Lines 146-163. *)
Definition connect_phase (cfg : config) : M unit :=
  settimeout (socket_timeout cfg) ;;
  connect_loop cfg (py_range 1 (connect_retries cfg + 1)).

(** Lines 169-194: login, AUX prompt, SAVE command and the wait for the
    header or the busy text; the result is the buffer of that last wait. *)
Definition wait_header (fuel : nat) (cfg : config) (p : plan) : M bytes :=
  login <- encode_str (username cfg ++ text CRLF) ;;
  _send_and_wait fuel login LOGIN_PROMPT (recv_timeout cfg) StSendingLogin ;;
  _wait_for fuel AUX_PROMPT (recv_timeout cfg) StWaitingAux ;;
  _emit_status (StIssuingSave (cmd p)) ;;
  sendall (cmd p) ;;
  name <- encode_str (safe_name p) ;;
  e <- encode_str (ext p) ;;
  _recv_until fuel (combined (header_text name e)) (recv_timeout cfg)
    (Some StWaitingHeader).

(** Lines 195-238: the busy check, the handshake, the streaming loop and
    the completion. *)
Definition after_header (fuel : nat) (cfg : config) (p : plan) (buf : bytes)
    : M (pystr * pystr) :=
  if SAVELOAD_IN_PROGRESS buf then
    _emit_status StBusy ;;
    raise BackupInProgress
  else
    _emit_status StHandshake ;;
    sendall ACK_BYTE ;;
    sleep (1 # 20)%Q ;;
    sendall SECOND_HEADER ;;
    _emit_status StReceiving ;;
    stream_loop fuel fuel (progress_interval cfg) stream_start ;;
    _emit_status StComplete ;;
    _emit_complete (out_path p) (debug_path p) ;;
    ret (out_path p, debug_path p).

(** Line 167: the [with] statement; both files are closed however the body
    ends. *)
Definition with_files {A} (out dbg : pystr) (body : M A) : M A :=
  emit (EvOpen out) ;;
  emit (EvOpen dbg) ;;
  finally body (emit EvCloseFiles).

(** Lines 166-238: the body of the [try]. *)
Definition session (fuel : nat) (cfg : config) (p : plan) : M (pystr * pystr) :=
  _emit_status StConnected ;;
  with_files (out_path p) (debug_path p)
    (buf <- wait_header fuel cfg p ;;
     after_header fuel cfg p buf).

(** Lines 242-247. *)
Definition cleanup : M unit :=
  emit EvShutdown ;;
  emit EvClose ;;
  fun w => (Ret tt, set_connected false w).

Definition run (fuel : nat) (cfg : config) : M (pystr * pystr) :=
  p <- prepare cfg ;;
  connect_phase cfg ;;
  finally
    (try_except (session fuel cfg p)
       (fun e => _emit_error e ;; raise e))
    cleanup.

(** ** What a trace leaves behind *)

(** The bytes written to the output artifact. *)
Fixpoint artifact (t : list event) : bytes :=
  match t with
  | [] => []
  | EvWrite payload :: t' => payload ++ artifact t'
  | _ :: t' => artifact t'
  end.

(** The values handed to the progress channel. *)
Fixpoint progress_of (t : list event) : list Z :=
  match t with
  | [] => []
  | EvProgress n :: t' => n :: progress_of t'
  | _ :: t' => progress_of t'
  end.

(** The bytes sent on the wire, one entry per [sendall]. *)
Fixpoint sent_of (t : list event) : list bytes :=
  match t with
  | [] => []
  | EvSend d :: t' => d :: sent_of t'
  | _ :: t' => sent_of t'
  end.

(** The status texts. *)
Fixpoint status_of (t : list event) : list status_msg :=
  match t with
  | [] => []
  | EvStatus m :: t' => m :: status_of t'
  | _ :: t' => status_of t'
  end.

(** The failures handed to the error channel. *)
Fixpoint errors_of (t : list event) : list failure :=
  match t with
  | [] => []
  | EvError e :: t' => e :: errors_of t'
  | _ :: t' => errors_of t'
  end.

(** A world whose peer delivers [events] and nothing else has happened. *)
Definition fresh (fails : list failure) (events : list recv_event) : world :=
  {| connect_failures := fails; connected := false; incoming := events;
     cancel_in := None; clock := text "20240101_000000"; trace := [] |}.

(** A connected world at the start of the streaming loop. *)
Definition streaming (events : list recv_event) : world :=
  {| connect_failures := []; connected := true; incoming := events;
     cancel_in := None; clock := text "20240101_000000"; trace := [] |}.

(** ** Well-formed transport streams *)

(** A record as the device frames it: an optional escape byte, the record
    marker, the payload bytes and a carriage return. *)
Record data_record := {
  escaped : bool;
  body : bytes
}.

Definition frame (r : data_record) : bytes :=
  (if escaped r then [ESC] else []) ++ REC_MARKER ++ body r ++ [CR].

(** A frame without its last byte. *)
Definition frame_head (r : data_record) : bytes :=
  (if escaped r then [ESC] else []) ++ REC_MARKER ++ body r.

(** The payload with its carriage return replaced by CRLF. *)
Definition decoded (r : data_record) : bytes := body r ++ [CR; LF].

(** The payload holds no newline byte. *)
Definition well_formed (r : data_record) : Prop :=
  forallb (fun c => negb (is_newline c)) (body r) = true.

(** The payload does not hold the end-of-transfer marker. *)
Definition eot_free (r : data_record) : Prop :=
  contains EOT_MARKER (body r) = false.

Definition transport_stream (rs : list data_record) : bytes :=
  concat (map frame rs) ++ EOT_MARKER.

Definition decoded_stream (rs : list data_record) : bytes :=
  concat (map decoded rs).

(** No byte of [b] is a carriage return. *)
Definition no_cr (b : bytes) : bool :=
  forallb (fun c => negb (Byte.eqb c CR)) b.

(** ** Deliveries *)

(** The bytes a list of read events carries. *)
Definition data_of (events : list recv_event) : bytes :=
  flat_map (fun e => match e with RecvData c => c | _ => [] end) events.

(** No read meets an error of the socket; reads may time out. *)
Definition quiet (events : list recv_event) : bool :=
  forallb (fun e => match e with RecvError _ => false | _ => true end) events.

Definition weight (events : list recv_event) : nat :=
  (length (data_of events) + length events)%nat.

(** The buffer after the read of an iteration. *)
Definition extended (st : stream_state) (chunk : bytes) : stream_state :=
  if truthy chunk then
    {| total_written := total_written st; last_report := last_report st;
       buffer := buffer st ++ chunk |}
  else st.

(** Budget that lets the loops inside one streaming iteration finish. *)
Definition inner_budget (st : stream_state) (rs : list data_record) : nat :=
  (Z.to_nat (total_written st - last_report st + blen (decoded_stream rs))
   + length rs + 1)%nat.

(** An error of the transport, as opposed to a timeout. *)
Definition io_error (e : failure) : Prop :=
  e = NotConnected \/ exists errno, e = TransportError errno.

(** ** Worlds along a run *)

Definition emitted (t : list event) (w : world) : world :=
  set_trace (trace w ++ t) w.

(** The world once [run] has announced the connection and opened its files. *)
Definition opened (p : plan) (w : world) : world :=
  emitted [EvStatus StConnected; EvOpen (out_path p); EvOpen (debug_path p)] w.

(** The world [run] leaves when the session raised [e] in world [w]. *)
Definition aborted (e : failure) (w : world) : world :=
  set_connected false (emitted [EvCloseFiles; EvError e; EvShutdown; EvClose] w).

(** The world [run] leaves when the session returned in world [w]. *)
Definition completed (w : world) : world :=
  set_connected false (emitted [EvCloseFiles; EvShutdown; EvClose] w).

(** The world after connection attempts: [fs] are the failures still to
    come, [c] says whether the socket is connected, [t] is what the
    attempts added to the trace. *)
Definition attempted (fs : list failure) (c : bool) (t : list event) (w : world)
    : world :=
  {| connect_failures := fs; connected := c; incoming := incoming w;
     cancel_in := cancel_in w; clock := clock w; trace := trace w ++ t |}.

(** ** Stretches of trace *)

Definition is_debug (e : event) : Prop :=
  match e with
  | EvDebug _ => True
  | _ => False
  end.

(** A stretch of trace that only copies bytes to the debug capture. *)
Definition debug_only (t : list event) : Prop := Forall is_debug t.

Definition login_events (cfg : config) (login : bytes) : list event :=
  [EvStatus StSendingLogin; EvSend login; EvSetTimeout (recv_timeout cfg)].

Definition aux_events (cfg : config) : list event :=
  [EvStatus StWaitingAux; EvSetTimeout (recv_timeout cfg)].

Definition save_events (cfg : config) (p : plan) : list event :=
  [EvStatus (StIssuingSave (cmd p)); EvSend (cmd p);
   EvStatus StWaitingHeader; EvSetTimeout (recv_timeout cfg)].

(** What [run] does between the header wait and the streaming loop. *)
Definition handshake_events : list event :=
  [EvStatus StHandshake; EvSend ACK_BYTE; EvSleep (1 # 20)%Q;
   EvSend SECOND_HEADER; EvStatus StReceiving].

(** The events of a connection attempt, and of one that fails and is
    followed by another. *)
Definition attempt_events (cfg : config) (attempt : Z) : list event :=
  [EvStatus (StConnecting (ip cfg) (port cfg) attempt);
   EvConnect (ip cfg) (port cfg)].

Definition failed_attempt_events (cfg : config) (attempt : Z) : list event :=
  attempt_events cfg attempt ++
  [EvStatus (StRetrying (retry_delay cfg)); EvSleep (retry_delay cfg)].

Definition is_retry_status (m : status_msg) : bool :=
  match m with
  | StRetrying _ => true
  | _ => false
  end.

Definition retry_statuses (t : list event) : nat :=
  length (filter is_retry_status (status_of t)).

Definition is_connect (e : event) : bool :=
  match e with
  | EvConnect _ _ => true
  | _ => false
  end.

Definition connects (t : list event) : nat := length (filter is_connect t).

(** ** Waits that go on *)







(** ** Progress notifications along a trace *)

Definition plen (t : list event) : Z := Z.of_nat (length (progress_of t)).

(** [progress_ok interval written count t]: along [t], started with
    [written] bytes written and [count] notifications emitted, every
    notification carries the next multiple of [interval] and does not exceed
    the bytes written when it is emitted. *)
Fixpoint progress_ok (interval written count : Z) (t : list event) : Prop :=
  match t with
  | [] => True
  | EvWrite p :: t' => progress_ok interval (written + blen p) count t'
  | EvProgress v :: t' =>
      v = interval * (count + 1) /\ v <= written /\
      progress_ok interval written (count + 1) t'
  | _ :: t' => progress_ok interval written count t'
  end.

(** ** Names that encode byte for byte *)

Definition ascii_only (s : pystr) : Prop := Forall (fun c => (c < 128)%N) s.

(** ** The record pattern read by hand

    These functions say directly what [DATA_REC_REGEX] matches; the proofs
    go through them. *)

(** [[^\r\n]*\r] anchored at the head of [b]: the star is greedy and takes
    the whole run of non-newline bytes; the byte that stops the run must be
    a carriage return.  Giving bytes back cannot help, as a byte of the run
    is never a carriage return.  The result is the run and what follows the
    carriage return. *)
Fixpoint match_run (b : bytes) : option (bytes * bytes) :=
  match b with
  | [] => None
  | c :: t =>
      if is_newline c then
        if Byte.eqb c CR then Some ([], t) else None
      else
        match match_run t with
        | Some (run, rest) => Some (c :: run, rest)
        | None => None
        end
  end.

(** [\x05\x02D[^\r\n]*\r] anchored at the head of [b]: the matched text and
    the rest. *)
Definition match_marked (b : bytes) : option (bytes * bytes) :=
  if starts_with REC_MARKER b then
    match match_run (skipn 3 b) with
    | Some (run, rest) => Some (REC_MARKER ++ run ++ [CR], rest)
    | None => None
    end
  else None.

(** The whole pattern anchored at the head of [b]: the optional escape byte
    is tried first, and the pattern without it when that fails. *)
Definition match_here (b : bytes) : option (bytes * bytes) :=
  match b with
  | c :: t =>
      if Byte.eqb c ESC then
        match match_marked t with
        | Some (m, rest) => Some (ESC :: m, rest)
        | None => match_marked b
        end
      else match_marked b
  | [] => match_marked b
  end.

(** The run with the carriage return that ends it. *)
Definition with_cr (m : option (bytes * bytes)) : option (bytes * bytes) :=
  match m with
  | Some (run, rest) => Some (run ++ [CR], rest)
  | None => None
  end.

(** The leftmost match of the whole pattern. *)
Fixpoint leftmost_record (b : bytes) : option (bytes * bytes) :=
  match match_here b with
  | Some r => Some r
  | None =>
      match b with
      | [] => None
      | _ :: t => leftmost_record t
      end
  end.

(** ** The inputs of the scenarios *)

Definition hello_record : bytes := REC_MARKER ++ lit "hello" ++ [CR].
Definition world_record : bytes := [x05; x02; x45] ++ lit "world" ++ [CR].

(** The scenario's stream, delivered in three reads. *)
Definition hello_world_events : list recv_event :=
  [RecvData hello_record; RecvData world_record; RecvData EOT_MARKER].

(** A record whose payload is the four bytes of the end-of-transfer marker. *)
Definition marker_record : data_record :=
  {| escaped := false; body := EOT_MARKER |}.

(** Its stream split after the seventh byte, before the carriage return. *)
Definition marker_split : list recv_event :=
  [RecvData (firstn 7 (transport_stream [marker_record]));
   RecvData (skipn 7 (transport_stream [marker_record]))].

Definition marker_whole : list recv_event :=
  [RecvData (transport_stream [marker_record])].

(** The command as the interface section words it: a CRLF after the verb. *)
Definition worded_command (is_full : bool) (name : bytes) : bytes :=
  (if is_full then lit "SAVE/Full" else lit "SAVE") ++ [CR; LF] ++
  lit " " ++ name ++ [CR; LF].

Definition sample_config : config :=
  {| ip := text "10.0.0.1"; base_name := text "my prog"; port := 23;
     username := text "as"; full := false;
     progress_interval := DEFAULT_PROGRESS_INTERVAL;
     socket_timeout := 5; recv_timeout := 10;
     connect_retries := 3; retry_delay := 1 |}.

(** [sample_config] with a negative delay between the attempts. *)
Definition negative_delay_config : config :=
  {| ip := text "10.0.0.1"; base_name := text "my prog"; port := 23;
     username := text "as"; full := false;
     progress_interval := DEFAULT_PROGRESS_INTERVAL;
     socket_timeout := 5; recv_timeout := 10;
     connect_retries := 3; retry_delay := -2 |}.


(** A device that answers every step of [sample_config]'s session. *)
Definition sample_session : list recv_event :=
  [RecvData (lit "login:"); RecvData (lit ">AUX1");
   RecvData (START_HEADER ++ lit "my_prog.as" ++ [x17]);
   RecvData hello_record; RecvTimeout; RecvData EOT_MARKER].

Definition sample_records : list data_record :=
  [{| escaped := false; body := lit "hello" |};
   {| escaped := true; body := lit "world" |}].

(** The stream of [sample_records] cut inside the first record, with a
    timeout between the two parts. *)
Definition sample_delivery : list recv_event :=
  [RecvData (firstn 5 (transport_stream sample_records)); RecvTimeout;
   RecvData (skipn 5 (transport_stream sample_records))].

(** A session in which the device reports a backup in progress. *)
Definition busy_session : list recv_event :=
  [RecvData (lit "login:"); RecvData (lit ">AUX1");
   RecvData (lit "SAVE/LOAD in progress")].


(** A session that falls silent while the header is awaited. *)
Definition silent_session : list recv_event :=
  [RecvData (lit "login:"); RecvData (lit ">AUX1"); RecvTimeout].


(** ** The constructor, the handlers and the cancellation request *)

(** Lines 50-88: the configuration of a client built with the defaults of
    [__init__], given its two required arguments. *)
Definition default_config (host name : pystr) : config :=
  {| ip := host; base_name := name; port := 23; username := text "as";
     full := false; progress_interval := DEFAULT_PROGRESS_INTERVAL;
     socket_timeout := 5; recv_timeout := 10;
     connect_retries := 1; retry_delay := 1 |}.




(** ** More of what a trace leaves behind *)

(** The bytes copied to the debug capture. *)
Fixpoint debug_of (t : list event) : bytes :=
  match t with
  | [] => []
  | EvDebug chunk :: t' => chunk ++ debug_of t'
  | _ :: t' => debug_of t'
  end.

(** The pairs of paths handed to the completion channel. *)
Fixpoint completions_of (t : list event) : list (pystr * pystr) :=
  match t with
  | [] => []
  | EvComplete o d :: t' => (o, d) :: completions_of t'
  | _ :: t' => completions_of t'
  end.

(** The events that carry data: debug copies, writes to the artifact and
    progress notifications.  The others are the control events. *)
Definition is_data_event (e : event) : bool :=
  match e with
  | EvDebug _ | EvWrite _ | EvProgress _ => true
  | _ => false
  end.

Definition control_of (t : list event) : list event :=
  filter (fun e => negb (is_data_event e)) t.

(** The events of the decoding: writes to the artifact and progress
    notifications. *)
Definition is_output_event (e : event) : bool :=
  match e with
  | EvWrite _ | EvProgress _ => true
  | _ => false
  end.

(** The events that touch the files or end the socket. *)
Definition is_file_or_close (e : event) : bool :=
  match e with
  | EvOpen _ | EvCloseFiles | EvShutdown | EvClose => true
  | _ => false
  end.

(** The events of the connection attempts. *)
Definition is_connect_event (e : event) : bool :=
  match e with
  | EvStatus _ | EvSetTimeout _ | EvConnect _ _ | EvSleep _ | EvError _ => true
  | _ => false
  end.

(** The events of the exchange with the device: statuses, timer settings,
    sends, sleeps and the data events. *)
Definition is_talk_event (e : event) : bool :=
  match e with
  | EvStatus _ | EvSetTimeout _ | EvSend _ | EvSleep _ => true
  | _ => is_data_event e
  end.

(** How the connection phase lets a failure [e] out, having added [t] to
    the trace: reported once, or, when it is the timer that refuses
    [socket_timeout] or [retry_delay], not reported at all. *)
Definition let_out (cfg : config) (e : failure) (t : list event) : Prop :=
  errors_of t = [e] \/
  (errors_of t = [] /\ timer_error e /\
   (valid_seconds (socket_timeout cfg) = false \/
    valid_seconds (retry_delay cfg) = false)).

(** Bytes without a newline byte: the body of a line of the output. *)
Definition line_body (l : bytes) : Prop :=
  forallb (fun c => negb (is_newline c)) l = true.

(** The control events of a session that runs to its end. *)
Definition session_events (cfg : config) (p : plan) (login : bytes) : list event :=
  [EvStatus StConnected; EvOpen (out_path p); EvOpen (debug_path p)] ++
  login_events cfg login ++ aux_events cfg ++ save_events cfg p ++
  handshake_events ++
  [EvStatus StComplete; EvComplete (out_path p) (debug_path p);
   EvCloseFiles; EvShutdown; EvClose].

(** ** Relations kept along a run *)

(** [m] takes every world to one that [R] relates to it, however [m] ends. *)
Definition keeps (R : world -> world -> Prop) {A} (m : M A) : Prop :=
  forall w r w', m w = (r, w') -> R w w'.

(** The debug capture holds what was taken from the transport: the bytes
    the transport held at [w] are those copied to the capture since, then
    those it still holds at [w']. *)
Definition captured (w w' : world) : Prop :=
  exists t, trace w' = trace w ++ t /\
            data_of (incoming w) = debug_of t ++ data_of (incoming w').

(** What was written to the artifact since [w] is a sequence of decoded
    records. *)
Definition lined (w w' : world) : Prop :=
  exists t rs, trace w' = trace w ++ t /\ Forall well_formed rs /\
               artifact t = decoded_stream rs.

(** A cancellation flag that is set stays set, and nothing is written to
    the artifact while it is. *)
Definition still_cancelled (w w' : world) : Prop :=
  cancel_in w = Some O ->
  cancel_in w' = Some O /\ exists t, trace w' = trace w ++ t /\ artifact t = [].

(** Since [w] only events of the exchange have happened. *)
Definition talks (w w' : world) : Prop :=
  exists t, trace w' = trace w ++ t /\ Forall (fun e => is_talk_event e = true) t.

(** ** Reads and polls of an interrupted transfer *)

(** A read that brings no more than one [recv(4096)] returns. *)
Definition small_read (e : recv_event) : Prop :=
  match e with
  | RecvData c => (length c <= 4096)%nat
  | _ => True
  end.

(** The polls the other thread still lets pass, after [k] more polls. *)
Definition polls_left (k : nat) (c : option nat) : option nat :=
  option_map (fun n => (n - k)%nat) c.

(** ** The inputs of the further scenarios *)


(** [sample_config] with a progress interval of zero. *)
Definition zero_interval_config : config :=
  {| ip := text "10.0.0.1"; base_name := text "my prog"; port := 23;
     username := text "as"; full := false;
     progress_interval := 0;
     socket_timeout := 5; recv_timeout := 10;
     connect_retries := 3; retry_delay := 1 |}.

(** A world in which [cancel] has been called. *)
Definition cancelled (w : world) : world := set_cancel_in (Some O) w.


(** A device that sends a first record in the read that brings the header. *)
Definition eager_session : list recv_event :=
  [RecvData (lit "login:"); RecvData (lit ">AUX1");
   RecvData (START_HEADER ++ lit "my_prog.as" ++ [x17] ++
             REC_MARKER ++ lit "first" ++ [CR]);
   RecvData (transport_stream sample_records)].

(** The stream of [sample_records] up to the middle of its second record,
    in two reads with a timeout between them. *)
Definition interrupted_delivery : list recv_event :=
  [RecvData (firstn 5 (transport_stream sample_records)); RecvTimeout;
   RecvData (firstn 8 (skipn 5 (transport_stream sample_records)))].

(** * Proofs *)

Ltac splits := repeat match goal with |- _ /\ _ => split end.

(** ** Bytes and markers *)

Lemma byte_eqb_refl (c : byte) : Byte.eqb c c = true.
Proof. apply Byte.byte_dec_lb; reflexivity. Qed.

Lemma byte_eqb_eq (c d : byte) : Byte.eqb c d = true <-> c = d.
Proof.
  split; [apply Byte.byte_dec_bl | apply Byte.byte_dec_lb].
Qed.

Lemma byte_eqb_sym (c d : byte) : Byte.eqb c d = Byte.eqb d c.
Proof.
  destruct (Byte.eqb c d) eqn:E.
  - apply byte_eqb_eq in E. subst. now rewrite byte_eqb_refl.
  - destruct (Byte.eqb d c) eqn:F; [|reflexivity].
    apply byte_eqb_eq in F. subst. now rewrite byte_eqb_refl in E.
Qed.

Lemma starts_with_app (p t : bytes) : starts_with p (p ++ t) = true.
Proof.
  induction p as [|c p IH]; simpl; [reflexivity|].
  now rewrite byte_eqb_refl.
Qed.

Lemma starts_with_length (p b : bytes) :
  starts_with p b = true -> (length p <= length b)%nat.
Proof.
  revert b; induction p as [|c p IH]; intros [|d b]; simpl; try lia; try discriminate.
  intros H; apply andb_true_iff in H as [_ H]; apply IH in H; lia.
Qed.

Lemma contains_length (p b : bytes) :
  contains p b = true -> (length p <= length b)%nat.
Proof.
  induction b as [|d b IH].
  - simpl. rewrite orb_false_r. apply starts_with_length.
  - cbn [contains]. intros H; apply orb_true_iff in H as [H|H].
    + now apply starts_with_length.
    + apply IH in H; simpl; lia.
Qed.

Lemma contains_app_r (p a : bytes) : contains p (a ++ p) = true.
Proof.
  induction a as [|d a IH].
  - simpl. destruct p; simpl; [reflexivity|].
    rewrite <- (app_nil_r p) at 2.
    now rewrite byte_eqb_refl, starts_with_app.
  - cbn [app contains]. rewrite IH. apply orb_true_r.
Qed.

Lemma starts_with_prefix (p a b : bytes) :
  starts_with p a = true -> starts_with p (a ++ b) = true.
Proof.
  revert a; induction p as [|c p IH]; intros [|d a]; simpl; auto; try discriminate.
  intros H; apply andb_true_iff in H as [-> H]; simpl; auto.
Qed.

Lemma contains_prefix (p a b : bytes) :
  contains p (a ++ b) = false -> contains p a = false.
Proof.
  induction a as [|d a IH]; cbn [app].
  - intros H. destruct (contains p []) eqn:E; [|reflexivity].
    cbn [contains] in E. rewrite orb_false_r in E.
    destruct p; [|discriminate]. destruct b; discriminate.
  - cbn [contains]. intros H; apply orb_false_iff in H as [H1 H2].
    apply orb_false_iff; split; [|auto].
    destruct (starts_with p (d :: a)) eqn:E; [|reflexivity].
    apply (starts_with_prefix _ _ b) in E. cbn [app] in E. congruence.
Qed.

Lemma no_cr_app (a b : bytes) : no_cr (a ++ b) = no_cr a && no_cr b.
Proof. apply forallb_app. Qed.

Lemma no_cr_skipn (k : nat) (b : bytes) : no_cr b = true -> no_cr (skipn k b) = true.
Proof.
  revert b; induction k as [|k IH]; intros [|c b]; simpl; auto.
  intros H; apply andb_true_iff in H as [_ H]; auto.
Qed.

Lemma no_cr_prefix (a b : bytes) : no_cr (a ++ b) = true -> no_cr a = true.
Proof. rewrite no_cr_app. intros H; now apply andb_true_iff in H. Qed.

Lemma ends_with_byte_snoc (c : byte) (b : bytes) : ends_with_byte c (b ++ [c]) = true.
Proof.
  induction b as [|d b IH]; cbn [app ends_with_byte].
  - apply byte_eqb_refl.
  - destruct (b ++ [c]) eqn:E; [now destruct b|exact IH].
Qed.

Lemma blen_app (a b : bytes) : blen (a ++ b) = blen a + blen b.
Proof. unfold blen. rewrite length_app. lia. Qed.

Lemma blen_nonneg (a : bytes) : 0 <= blen a.
Proof. unfold blen. lia. Qed.

(** A strict prefix of [a ++ [c]] is a prefix of [a]. *)
Lemma strict_prefix_snoc {A} (p l a : list A) (c : A) :
  a ++ [c] = p ++ l -> l <> [] -> exists l', a = p ++ l'.
Proof.
  intros H Hl. destruct (exists_last Hl) as (l' & d & ->).
  rewrite app_assoc in H. apply app_inj_tail in H as [H _]. now exists l'.
Qed.

(** ** The record pattern *)

Lemma match_run_body (run t : bytes) :
  forallb (fun c => negb (is_newline c)) run = true ->
  match_run (run ++ CR :: t) = Some (run, t).
Proof.
  induction run as [|c run IH]; intros H.
  - reflexivity.
  - cbn [forallb] in H. apply andb_true_iff in H as [Hc H].
    cbn [app match_run]. apply negb_true_iff in Hc. rewrite Hc.
    now rewrite IH.
Qed.

Lemma match_run_cr (b run rest : bytes) :
  match_run b = Some (run, rest) -> no_cr b = false.
Proof.
  revert run rest; induction b as [|c b IH]; intros run rest; [discriminate|].
  cbn [match_run no_cr forallb]. unfold is_newline.
  destruct (Byte.eqb c CR) eqn:E; [reflexivity|].
  cbn [orb negb andb]. destruct (Byte.eqb c LF); [discriminate|].
  destruct (match_run b) as [[r1 r2]|] eqn:Em; [|discriminate].
  intros _. apply (IH r1 r2 eq_refl).
Qed.

Lemma match_marked_cr (b : bytes) : no_cr b = true -> match_marked b = None.
Proof.
  intros H. unfold match_marked.
  destruct (starts_with REC_MARKER b); [|reflexivity].
  destruct (match_run (skipn 3 b)) as [[r1 r2]|] eqn:E; [|reflexivity].
  apply match_run_cr in E. rewrite no_cr_skipn in E; [discriminate|assumption].
Qed.

Lemma match_here_cr (b : bytes) : no_cr b = true -> match_here b = None.
Proof.
  intros H. unfold match_here.
  destruct b as [|c t]; [now apply match_marked_cr|].
  assert (Ht : no_cr t = true).
  { cbn [no_cr forallb] in H. now apply andb_true_iff in H as [_ H]. }
  rewrite (match_marked_cr t Ht), (match_marked_cr (c :: t) H).
  now destruct (Byte.eqb c ESC).
Qed.

Lemma leftmost_no_cr (b : bytes) : no_cr b = true -> leftmost_record b = None.
Proof.
  induction b as [|c b IH]; intros H.
  - reflexivity.
  - cbn [leftmost_record]. rewrite (match_here_cr _ H).
    apply IH. cbn [no_cr forallb] in H. now apply andb_true_iff in H as [_ H].
Qed.

Lemma match_marked_frame (run t : bytes) :
  forallb (fun c => negb (is_newline c)) run = true ->
  match_marked (REC_MARKER ++ run ++ CR :: t) = Some (REC_MARKER ++ run ++ [CR], t).
Proof.
  intros H. unfold match_marked. rewrite starts_with_app.
  cbn [REC_MARKER app skipn]. now rewrite (match_run_body _ _ H).
Qed.

Lemma frame_app (r : data_record) (t : bytes) :
  frame r ++ t =
  (if escaped r then [ESC] else []) ++ REC_MARKER ++ body r ++ CR :: t.
Proof. unfold frame. now rewrite <- !app_assoc. Qed.

Lemma leftmost_frame (r : data_record) (t : bytes) :
  well_formed r -> leftmost_record (frame r ++ t) = Some (frame r, t).
Proof.
  intros H. rewrite frame_app. unfold frame.
  destruct r as [[|] run]; cbn [escaped body] in *.
  - change ([ESC] ++ REC_MARKER ++ run ++ CR :: t)
      with (ESC :: REC_MARKER ++ run ++ CR :: t).
    destruct (REC_MARKER ++ run ++ CR :: t) eqn:E; [discriminate|].
    cbn [leftmost_record match_here].
    replace (Byte.eqb ESC ESC) with true by reflexivity.
    rewrite <- E, (match_marked_frame _ _ H). reflexivity.
  - cbn [app]. pose proof (match_marked_frame run t H) as Hm.
    cbn [REC_MARKER app] in Hm |- *.
    cbn [leftmost_record match_here].
    replace (Byte.eqb x05 ESC) with false by reflexivity.
    now rewrite Hm.
Qed.

(** ** The pattern as data and its reading by hand agree *)

Lemma newline_class (c : byte) :
  in_charset (NoneOf [CR; LF]) c = negb (is_newline c).
Proof. unfold in_charset, is_newline. cbn [existsb]. now rewrite orb_false_r. Qed.

Lemma star_then_cr (b : bytes) :
  re_match [Star (NoneOf [CR; LF]); Chr CR] b = with_cr (match_run b).
Proof.
  induction b as [|c t IH]; [reflexivity|].
  change (re_match [Star (NoneOf [CR; LF]); Chr CR] (c :: t))
    with (or_else
            (if in_charset (NoneOf [CR; LF]) c
             then consumed c (re_match [Star (NoneOf [CR; LF]); Chr CR] t)
             else None)
            (eat (Byte.eqb CR) (re_match []) (c :: t))).
  rewrite newline_class, IH. cbn [match_run eat re_match consumed].
  rewrite (byte_eqb_sym CR c).
  destruct (is_newline c) eqn:En; cbn [negb or_else].
  - destruct (Byte.eqb c CR) eqn:Ec; [|reflexivity].
    apply byte_eqb_eq in Ec. now subst.
  - assert (Ec : Byte.eqb c CR = false).
    { unfold is_newline in En. now apply orb_false_iff in En. }
    rewrite Ec. now destruct (match_run t) as [[run rest]|].
Qed.

Lemma marked_agrees (b : bytes) :
  re_match [Chr x05; Chr x02; Chr x44; Star (NoneOf [CR; LF]); Chr CR] b =
  match_marked b.
Proof.
  unfold match_marked.
  destruct b as [|c1 [|c2 [|c3 t]]]; cbn [re_match eat starts_with REC_MARKER];
    try reflexivity.
  - now destruct (Byte.eqb x05 c1).
  - destruct (Byte.eqb x05 c1); [|reflexivity]. now destruct (Byte.eqb x02 c2).
  - destruct (Byte.eqb x05 c1) eqn:E1; [|reflexivity].
    destruct (Byte.eqb x02 c2) eqn:E2; [|reflexivity].
    destruct (Byte.eqb x44 c3) eqn:E3; [|reflexivity].
    apply byte_eqb_eq in E1, E2, E3. subst c1 c2 c3.
    cbn [andb skipn].
    change ((fix star (b : bytes) : option (bytes * bytes) :=
               or_else
                 match b with
                 | [] => None
                 | c :: t0 =>
                     if in_charset (NoneOf [CR; LF]) c then consumed c (star t0) else None
                 end
                 (eat (Byte.eqb CR) (fun b0 : bytes => Some ([], b0)) b)) t)
      with (re_match [Star (NoneOf [CR; LF]); Chr CR] t).
    rewrite star_then_cr.
    now destruct (match_run t) as [[run rest]|].
Qed.

Lemma here_agrees (b : bytes) : re_match DATA_REC_REGEX b = match_here b.
Proof.
  unfold DATA_REC_REGEX.
  change (re_match
            [Opt x17; Chr x05; Chr x02; Chr x44; Star (NoneOf [CR; LF]); Chr CR] b)
    with (or_else
            (eat (Byte.eqb x17)
               (re_match [Chr x05; Chr x02; Chr x44; Star (NoneOf [CR; LF]); Chr CR]) b)
            (re_match [Chr x05; Chr x02; Chr x44; Star (NoneOf [CR; LF]); Chr CR] b)).
  unfold match_here, eat. destruct b as [|c t].
  - now rewrite marked_agrees.
  - rewrite !marked_agrees, (byte_eqb_sym c ESC). change ESC with x17.
    destruct (Byte.eqb x17 c) eqn:E; [|reflexivity].
    apply byte_eqb_eq in E. subst c.
    now destruct (match_marked t) as [[m rest]|].
Qed.

Lemma search_agrees (b : bytes) : data_rec_search b = leftmost_record b.
Proof.
  unfold data_rec_search.
  induction b as [|c t IH]; cbn [re_search leftmost_record]; rewrite here_agrees.
  - reflexivity.
  - now rewrite IH.
Qed.

Lemma search_no_cr (b : bytes) : no_cr b = true -> data_rec_search b = None.
Proof. rewrite search_agrees. apply leftmost_no_cr. Qed.

Lemma search_frame (r : data_record) (t : bytes) :
  well_formed r -> data_rec_search (frame r ++ t) = Some (frame r, t).
Proof. rewrite search_agrees. apply leftmost_frame. Qed.

Lemma payload_of_frame (r : data_record) : payload_of (frame r) = decoded r.
Proof.
  unfold frame, payload_of, decoded. destruct r as [[|] run]; cbn [escaped body].
  - cbn [app starts_with REC_MARKER skipn].
    replace (Byte.eqb ESC ESC) with true by reflexivity. cbn [andb].
    now rewrite ends_with_byte_snoc, removelast_last.
  - cbn [app starts_with REC_MARKER skipn].
    replace (Byte.eqb ESC x05) with false by reflexivity. cbn [andb].
    now rewrite ends_with_byte_snoc, removelast_last.
Qed.

(** ** Literal patterns *)

Lemma literal_match (p b : bytes) :
  re_match (literal p) b =
  if starts_with p b then Some (p, skipn (length p) b) else None.
Proof.
  revert b; induction p as [|x p IH]; intros b; [reflexivity|].
  cbn [literal map re_match]. fold (literal p).
  destruct b as [|y t]; [reflexivity|].
  cbn [eat starts_with length skipn]. rewrite IH.
  destruct (Byte.eqb x y) eqn:E; [|reflexivity].
  apply byte_eqb_eq in E. subst y. cbn [andb].
  now destruct (starts_with p t).
Qed.

Lemma literal_search (p b : bytes) :
  is_some (re_search (literal p) b) = contains p b.
Proof.
  induction b as [|y t IH]; cbn [re_search contains]; rewrite literal_match.
  - now destruct (starts_with p []).
  - destruct (starts_with p (y :: t)); [reflexivity|]. exact IH.
Qed.

Lemma compile_literal (p b : bytes) : compile [literal p] b = contains p b.
Proof. unfold compile. cbn [existsb]. now rewrite orb_false_r, literal_search. Qed.

Lemma combined_contains (header b : bytes) :
  combined header b = contains BUSY_TEXT b || contains header b.
Proof.
  unfold combined, compile. cbn [existsb].
  now rewrite orb_false_r, !literal_search.
Qed.

(** ** Worlds and traces *)

Lemma emitted_nil (w : world) : emitted [] w = w.
Proof. destruct w; unfold emitted, set_trace; simpl. now rewrite app_nil_r. Qed.

Lemma emitted_app (t1 t2 : list event) (w : world) :
  emitted t2 (emitted t1 w) = emitted (t1 ++ t2) w.
Proof. unfold emitted, set_trace; simpl. now rewrite app_assoc. Qed.

Lemma emit_emitted (e : event) (w : world) : emit e w = (Ret tt, emitted [e] w).
Proof. reflexivity. Qed.

Lemma set_incoming_emitted (l : list recv_event) (t : list event) (w : world) :
  set_incoming l (emitted t w) = emitted t (set_incoming l w).
Proof. reflexivity. Qed.

Lemma set_incoming_twice (l l' : list recv_event) (w : world) :
  set_incoming l (set_incoming l' w) = set_incoming l w.
Proof. reflexivity. Qed.

Lemma artifact_app (t1 t2 : list event) :
  artifact (t1 ++ t2) = artifact t1 ++ artifact t2.
Proof.
  induction t1 as [|e t1 IH]; [reflexivity|].
  destruct e; cbn [app artifact]; rewrite ?IH, ?app_assoc; reflexivity.
Qed.

Lemma progress_of_app (t1 t2 : list event) :
  progress_of (t1 ++ t2) = progress_of t1 ++ progress_of t2.
Proof.
  induction t1 as [|e t1 IH]; [reflexivity|].
  destruct e; cbn [app progress_of]; rewrite ?IH; reflexivity.
Qed.

Lemma sent_of_app (t1 t2 : list event) : sent_of (t1 ++ t2) = sent_of t1 ++ sent_of t2.
Proof.
  induction t1 as [|e t1 IH]; [reflexivity|].
  destruct e; cbn [app sent_of]; rewrite ?IH; reflexivity.
Qed.

Lemma errors_of_app (t1 t2 : list event) :
  errors_of (t1 ++ t2) = errors_of t1 ++ errors_of t2.
Proof.
  induction t1 as [|e t1 IH]; [reflexivity|].
  destruct e; cbn [app errors_of]; rewrite ?IH; reflexivity.
Qed.

Lemma debug_only_artifact (t : list event) : debug_only t -> artifact t = [].
Proof.
  induction 1 as [|e t He Ht IH]; [reflexivity|]. now destruct e.
Qed.

Lemma debug_only_sent (t : list event) : debug_only t -> sent_of t = [].
Proof.
  induction 1 as [|e t He Ht IH]; [reflexivity|]. now destruct e.
Qed.

Lemma debug_only_errors (t : list event) : debug_only t -> errors_of t = [].
Proof.
  induction 1 as [|e t He Ht IH]; [reflexivity|]. now destruct e.
Qed.

(** ** Steps of the engine *)

Lemma bind_ret {A B} (m : M A) (k : A -> M B) (w w1 : world) (a : A) :
  m w = (Ret a, w1) -> bind m k w = k a w1.
Proof. unfold bind. now intros ->. Qed.

Lemma bind_ret_inv {A B} (m : M A) (k : A -> M B) (w w' : world) (b : B) :
  bind m k w = (Ret b, w') ->
  exists a w1, m w = (Ret a, w1) /\ k a w1 = (Ret b, w').
Proof.
  unfold bind. destruct (m w) as [[a|e|] w1]; intros H; try discriminate.
  now exists a, w1.
Qed.

Lemma emit_ret_inv (e : event) (w w1 : world) (u : unit) :
  emit e w = (Ret u, w1) -> w1 = emitted [e] w.
Proof. rewrite emit_emitted. now intros [= _ <-]. Qed.

Lemma check_seconds_cases (t : Q) (w : world) :
  (valid_seconds t = true /\ check_seconds t w = (Ret tt, w)) \/
  (valid_seconds t = false /\
   exists e, timer_error e /\ check_seconds t w = (Raise e, w)).
Proof.
  unfold valid_seconds, check_seconds, timer_error.
  destruct (fits_timer t); [destruct (Qle_bool 0 t)|].
  - now left.
  - right. split; [reflexivity|]. exists ValueError. split; [now left|reflexivity].
  - right. split; [reflexivity|]. exists OverflowError. split; [now right|reflexivity].
Qed.

Lemma settimeout_cases (t : Q) (w : world) :
  (valid_seconds t = true /\ settimeout t w = (Ret tt, emitted [EvSetTimeout t] w)) \/
  (valid_seconds t = false /\
   exists e, timer_error e /\ settimeout t w = (Raise e, w)).
Proof.
  unfold settimeout, bind.
  destruct (check_seconds_cases t w) as [[Hv ->]|(Hv & e & He & ->)].
  - now left.
  - right. split; [exact Hv|]. now exists e.
Qed.

Lemma sleep_cases (d : Q) (w : world) :
  (valid_seconds d = true /\ sleep d w = (Ret tt, emitted [EvSleep d] w)) \/
  (valid_seconds d = false /\
   exists e, timer_error e /\ sleep d w = (Raise e, w)).
Proof.
  unfold sleep, bind.
  destruct (check_seconds_cases d w) as [[Hv ->]|(Hv & e & He & ->)].
  - now left.
  - right. split; [exact Hv|]. now exists e.
Qed.

Lemma settimeout_valid (t : Q) (w : world) :
  valid_seconds t = true -> settimeout t w = (Ret tt, emitted [EvSetTimeout t] w).
Proof.
  intros Hv. destruct (settimeout_cases t w) as [[_ H]|[Hn _]]; [exact H|congruence].
Qed.

Lemma sleep_valid (d : Q) (w : world) :
  valid_seconds d = true -> sleep d w = (Ret tt, emitted [EvSleep d] w).
Proof.
  intros Hv. destruct (sleep_cases d w) as [[_ H]|[Hn _]]; [exact H|congruence].
Qed.

Lemma settimeout_ret_inv (t : Q) (w w1 : world) (u : unit) :
  settimeout t w = (Ret u, w1) ->
  valid_seconds t = true /\ w1 = emitted [EvSetTimeout t] w.
Proof.
  destruct (settimeout_cases t w) as [[Hv ->]|(_ & e & _ & ->)]; [|discriminate].
  now intros [= _ <-].
Qed.

Lemma sleep_ret_inv (d : Q) (w w1 : world) (u : unit) :
  sleep d w = (Ret u, w1) ->
  valid_seconds d = true /\ w1 = emitted [EvSleep d] w.
Proof.
  destruct (sleep_cases d w) as [[Hv ->]|(_ & e & _ & ->)]; [|discriminate].
  now intros [= _ <-].
Qed.

(** The pause of the handshake is one the timer accepts. *)
Lemma sleep_pause (w : world) :
  sleep (1 # 20)%Q w = (Ret tt, emitted [EvSleep (1 # 20)%Q] w).
Proof. now apply sleep_valid. Qed.

Lemma os_error_cases (errno : Z) :
  (errno = ETIMEDOUT /\ os_error errno = SocketTimeout) \/
  (errno <> ETIMEDOUT /\ os_error errno = TransportError errno).
Proof.
  unfold os_error. destruct (errno =? ETIMEDOUT) eqn:E.
  - left. now apply Z.eqb_eq in E.
  - right. now apply Z.eqb_neq in E.
Qed.

Lemma encode_str_some (s : pystr) (b : bytes) (w : world) :
  encode s = Some b -> encode_str s w = (Ret b, w).
Proof. unfold encode_str. now intros ->. Qed.

Lemma encode_str_ret_inv (s : pystr) (w w1 : world) (b : bytes) :
  encode_str s w = (Ret b, w1) -> encode s = Some b /\ w1 = w.
Proof.
  unfold encode_str. destruct (encode s); [|discriminate].
  now intros [= <- <-].
Qed.

Lemma sendall_connected (data : bytes) (w : world) :
  connected w = true -> sendall data w = (Ret tt, emitted [EvSend data] w).
Proof. unfold sendall. now intros ->. Qed.

Lemma sendall_ret_inv (data : bytes) (w w1 : world) (u : unit) :
  sendall data w = (Ret u, w1) -> connected w = true /\ w1 = emitted [EvSend data] w.
Proof.
  unfold sendall. destruct (connected w); [|discriminate].
  now intros [= _ <-].
Qed.

Lemma recv_cases (n : nat) (w : world) :
  exists r w1, recv n w = (r, w1) /\ trace w1 = trace w /\
    connected w1 = connected w /\ r <> OutOfFuel.
Proof.
  unfold recv. destruct (connected w) eqn:Ec.
  - destruct (incoming w) as [|[c| |errno] l].
    + eexists; eexists; splits; try reflexivity; try discriminate; assumption.
    + destruct (length c <=? n)%nat;
        eexists; eexists; splits; try reflexivity; try discriminate; assumption.
    + eexists; eexists; splits; try reflexivity; try discriminate; assumption.
    + eexists; eexists; splits; try reflexivity; try discriminate; assumption.
  - eexists; eexists; splits; try reflexivity; try discriminate; assumption.
Qed.


(** An error of the socket numbered [ETIMEDOUT] is a timeout: the streaming
    loop takes it for an empty chunk, a wait of the handshake meets it as
    the timeout. *)
Lemma etimedout_is_a_timeout (n : nat) (w : world) (l : list recv_event) :
  connected w = true -> incoming w = RecvError ETIMEDOUT :: l ->
  recv n w = (Raise SocketTimeout, set_incoming l w) /\
  read_chunk w = (Ret [], set_incoming l w).
Proof.
  intros Hc Hi. unfold read_chunk, try_except, recv. now rewrite Hc, Hi.
Qed.

Lemma cancel_never (w : world) :
  cancel_in w = None -> cancel_requested w = (Ret false, w).
Proof. unfold cancel_requested. now intros ->. Qed.

Lemma cancel_requested_cases (w : world) :
  exists c w0, cancel_requested w = (Ret c, w0) /\ trace w0 = trace w /\
    connected w0 = connected w /\ incoming w0 = incoming w.
Proof.
  unfold cancel_requested. destruct (cancel_in w) as [[|k]|];
    eexists; eexists; splits; reflexivity.
Qed.

Lemma read_chunk_cases (w : world) :
  exists r w1, read_chunk w = (r, w1) /\ trace w1 = trace w /\
    r <> OutOfFuel /\ (forall e, r = Raise e -> io_error e).
Proof.
  unfold read_chunk, try_except, recv, io_error.
  destruct (connected w).
  - destruct (incoming w) as [|[c| |errno] l].
    + eexists; eexists; splits; try reflexivity; try discriminate.
    + destruct (length c <=? 4096)%nat;
        eexists; eexists; splits; try reflexivity; try discriminate.
    + eexists; eexists; splits; try reflexivity; try discriminate.
    + destruct (os_error_cases errno) as [[_ ->]|[He ->]]; cbn [is_timeout].
      * eexists; eexists; splits; try reflexivity; try discriminate.
      * apply Z.eqb_neq in He. rewrite He.
        eexists; eexists; splits; try reflexivity; try discriminate.
        intros e [= <-]. right. now exists errno.
  - eexists; eexists; splits; try reflexivity; try discriminate.
    intros e [= <-]. now left.
Qed.

(** ** Encoding of sanitized names *)

Lemma encode_ascii (s : pystr) : ascii_only s -> encode s = Some (map byte_of s).
Proof.
  induction 1 as [|c s Hc Hs IH]; [reflexivity|].
  cbn [encode map]. unfold encode_char.
  apply N.ltb_lt in Hc. change 0x80%N with 128%N. rewrite Hc, IH. reflexivity.
Qed.

Lemma safe_char_ascii (c : N) : safe_char c = true -> (c < 128)%N.
Proof.
  unfold safe_char. rewrite !orb_true_iff, !andb_true_iff, !N.leb_le, !N.eqb_eq. lia.
Qed.

Lemma sanitize_ascii (s : pystr) : ascii_only (sanitize s).
Proof.
  unfold sanitize, ascii_only. apply Forall_map, Forall_forall. intros c _.
  destruct (safe_char c) eqn:E; [now apply safe_char_ascii|reflexivity].
Qed.

Lemma sanitize_safe (s : pystr) : forallb safe_char (sanitize s) = true.
Proof.
  unfold sanitize. induction s as [|c s IH]; [reflexivity|].
  cbn [map forallb]. rewrite IH, andb_true_r.
  destruct (safe_char c) eqn:E; [exact E|reflexivity].
Qed.

Lemma text_ascii (s : string) :
  forallb (fun c => (c <? 128)%N) (text s) = true -> ascii_only (text s).
Proof.
  intros H. apply Forall_forall. intros c Hc.
  rewrite forallb_forall in H. now apply N.ltb_lt, H.
Qed.

Lemma ascii_only_app (a b : pystr) : ascii_only a -> ascii_only b -> ascii_only (a ++ b).
Proof. intros; now apply Forall_app. Qed.

Lemma save_text_ascii (is_full : bool) (name : pystr) :
  ascii_only name -> ascii_only (save_text is_full name).
Proof.
  intros H. unfold save_text. repeat apply ascii_only_app; try assumption;
    try (apply text_ascii; reflexivity).
  destruct is_full; apply text_ascii; reflexivity.
Qed.

Lemma encode_save_text (is_full : bool) (name : pystr) :
  ascii_only name ->
  encode (save_text is_full name) =
  Some (lit "SAVE" ++ (if is_full then lit "/Full" else []) ++ lit " " ++
        map byte_of name ++ [CR; LF]).
Proof.
  intros H. rewrite (encode_ascii _ (save_text_ascii is_full name H)).
  unfold save_text. rewrite !map_app. now destruct is_full.
Qed.

Lemma prepare_ok (cfg : config) (w : world) :
  exists p,
    prepare cfg w = (Ret p, w) /\
    safe_name p = sanitize (base_name cfg) /\
    ext p = text "as" /\
    out_path p = sanitize (base_name cfg) ++ text ".as" /\
    cmd p = lit "SAVE" ++ (if full cfg then lit "/Full" else []) ++ lit " " ++
            map byte_of (sanitize (base_name cfg)) ++ [CR; LF].
Proof.
  unfold prepare, now, bind, encode_str.
  rewrite (encode_save_text _ _ (sanitize_ascii _)).
  eexists. splits; reflexivity.
Qed.

Lemma prepare_world (cfg : config) (w wp : world) (p : plan) :
  prepare cfg w = (Ret p, wp) ->
  wp = w /\ safe_name p = sanitize (base_name cfg) /\ ext p = text "as" /\
  cmd p = lit "SAVE" ++ (if full cfg then lit "/Full" else []) ++ lit " " ++
          map byte_of (sanitize (base_name cfg)) ++ [CR; LF].
Proof.
  destruct (prepare_ok cfg w) as (p' & Hp & H1 & H2 & _ & H3).
  rewrite Hp. intros [= <- <-]. now splits.
Qed.

(** ** The connection attempts *)

Lemma py_range_empty (lo hi : Z) : hi <= lo -> py_range lo hi = [].
Proof.
  intros H. unfold py_range. replace (Z.to_nat (hi - lo)) with O by lia. reflexivity.
Qed.

Lemma py_range_cons (lo hi : Z) : lo < hi -> py_range lo hi = lo :: py_range (lo + 1) hi.
Proof.
  intros H. unfold py_range.
  replace (Z.to_nat (hi - lo)) with (S (Z.to_nat (hi - (lo + 1)))) by lia.
  cbn [seq map]. rewrite Z.add_0_r. f_equal.
  rewrite <- seq_shift, map_map. apply map_ext. intros i. lia.
Qed.


Lemma attempted_emitted (fs : list failure) (c : bool) (t1 t2 : list event)
    (w : world) :
  attempted fs c t2 (emitted t1 w) = attempted fs c (t1 ++ t2) w.
Proof. unfold attempted, emitted, set_trace; cbn. now rewrite app_assoc. Qed.

Lemma connect_ok (host : pystr) (prt : Z) (w : world) :
  connect_failures w = [] ->
  connect host prt w = (Ret tt, attempted [] true [EvConnect host prt] w).
Proof.
  intros H. unfold connect, attempted, set_connected, set_trace. rewrite H.
  reflexivity.
Qed.

Lemma connect_fails (host : pystr) (prt : Z) (w : world) (e : failure)
    (fs : list failure) :
  connect_failures w = e :: fs ->
  connect host prt w = (Raise e, attempted fs (connected w) [EvConnect host prt] w).
Proof.
  intros H. unfold connect, attempted, set_connect_failures, set_trace. rewrite H.
  reflexivity.
Qed.

Lemma connect_loop_succeeds (cfg : config) (fs : list failure) : forall lo w,
  fs = [] \/ valid_seconds (retry_delay cfg) = true ->
  connect_failures w = fs ->
  lo + Z.of_nat (length fs) <= connect_retries cfg ->
  connect_loop cfg (py_range lo (connect_retries cfg + 1)) w =
  (Ret tt,
   attempted [] true
     (flat_map (failed_attempt_events cfg) (py_range lo (lo + Z.of_nat (length fs))) ++
      attempt_events cfg (lo + Z.of_nat (length fs))) w).
Proof.
  induction fs as [|e fs IH]; intros lo w Hv Hfs Hlo; cbn [length] in *.
  - rewrite py_range_cons by lia. rewrite Z.add_0_r, (py_range_empty lo lo) by lia.
    cbn [connect_loop flat_map app]. unfold try_except, bind, _emit_status.
    rewrite emit_emitted, connect_ok by exact Hfs.
    now rewrite attempted_emitted.
  - destruct Hv as [Hv|Hv]; [discriminate|].
    rewrite py_range_cons by lia.
    cbn [connect_loop]. unfold try_except at 1, bind at 1, _emit_status at 1.
    rewrite emit_emitted, (connect_fails _ _ _ e fs) by exact Hfs.
    replace (lo <? connect_retries cfg) with true by (symmetry; apply Z.ltb_lt; lia).
    unfold bind at 1, _emit_status at 1. rewrite emit_emitted.
    erewrite bind_ret by (apply sleep_valid; exact Hv).
    rewrite (IH (lo + 1)); [|now right|reflexivity|lia].
    unfold attempted, emitted, set_trace.
    cbn [connect_failures connected incoming cancel_in clock trace].
    f_equal. f_equal.
    rewrite (py_range_cons lo) by lia.
    replace (lo + 1 + Z.of_nat (length fs)) with (lo + Z.of_nat (S (length fs))) by lia.
    cbn [flat_map]. unfold failed_attempt_events at 2, attempt_events at 2.
    rewrite <- !app_assoc. reflexivity.
Qed.

Lemma connect_loop_gives_up (cfg : config) (pre : list failure) :
  forall lo w e rest,
  pre = [] \/ valid_seconds (retry_delay cfg) = true ->
  connect_failures w = pre ++ e :: rest ->
  lo + Z.of_nat (length pre) = connect_retries cfg ->
  connect_loop cfg (py_range lo (connect_retries cfg + 1)) w =
  (Raise e,
   attempted rest (connected w)
     (flat_map (failed_attempt_events cfg) (py_range lo (connect_retries cfg)) ++
      attempt_events cfg (connect_retries cfg) ++ [EvError e]) w).
Proof.
  induction pre as [|e0 pre IH]; intros lo w e rest Hv Hfs Hlo; cbn [length app] in *.
  - rewrite py_range_cons by lia.
    rewrite (py_range_empty lo (connect_retries cfg)) by lia.
    cbn [connect_loop flat_map app]. unfold try_except, bind at 1, _emit_status.
    rewrite emit_emitted, (connect_fails _ _ _ e rest) by exact Hfs.
    replace (lo <? connect_retries cfg) with false by (symmetry; apply Z.ltb_ge; lia).
    unfold bind, _emit_error, raise. rewrite emit_emitted.
    replace (connect_retries cfg) with lo by lia.
    unfold emitted, attempted, set_trace; cbn. now rewrite <- !app_assoc.
  - destruct Hv as [Hv|Hv]; [discriminate|].
    rewrite py_range_cons by lia.
    cbn [connect_loop]. unfold try_except at 1, bind at 1, _emit_status at 1.
    rewrite emit_emitted, (connect_fails _ _ _ e0 (pre ++ e :: rest)) by exact Hfs.
    replace (lo <? connect_retries cfg) with true by (symmetry; apply Z.ltb_lt; lia).
    unfold bind at 1, _emit_status at 1. rewrite emit_emitted.
    erewrite bind_ret by (apply sleep_valid; exact Hv).
    rewrite (IH (lo + 1) _ e rest); [|now right|reflexivity|lia].
    unfold attempted, emitted, set_trace.
    cbn [connect_failures connected incoming cancel_in clock trace].
    f_equal. f_equal.
    rewrite (py_range_cons lo (connect_retries cfg)) by lia.
    cbn [flat_map]. unfold failed_attempt_events at 2, attempt_events at 2.
    rewrite <- !app_assoc. reflexivity.
Qed.



(** A connection phase that returns has reported no error and written
    nothing. *)
Lemma connect_loop_returns (cfg : config) (attempts : list Z) : forall w w',
  connect_loop cfg attempts w = (Ret tt, w') ->
  exists t, trace w' = trace w ++ t /\ artifact t = [] /\ errors_of t = [].
Proof.
  induction attempts as [|a attempts IH]; intros w w' Hrun; cbn [connect_loop] in Hrun.
  - inversion Hrun; subst. exists []. now rewrite app_nil_r.
  - unfold try_except at 1, bind at 1, _emit_status at 1 in Hrun.
    rewrite emit_emitted in Hrun.
    unfold connect in Hrun. cbn [emitted set_trace connect_failures trace] in Hrun.
    destruct (connect_failures w) as [|e fs].
    + inversion Hrun; subst. eexists. split; [cbn; now rewrite <- app_assoc|].
      split; reflexivity.
    + destruct (a <? connect_retries cfg).
      * unfold bind at 1, _emit_status at 1 in Hrun. rewrite emit_emitted in Hrun.
        unfold bind at 1 in Hrun.
        match type of Hrun with
        | context [sleep ?d ?x] =>
            destruct (sleep_cases d x) as [[_ Hs]|(_ & e' & _ & Hs)];
              rewrite Hs in Hrun; [|discriminate]
        end.
        apply IH in Hrun as (t & Ht & Ha & He).
        exists ([EvStatus (StConnecting (ip cfg) (port cfg) a);
                 EvConnect (ip cfg) (port cfg);
                 EvStatus (StRetrying (retry_delay cfg)); EvSleep (retry_delay cfg)] ++ t).
        splits.
        -- rewrite Ht. cbn. now rewrite <- !app_assoc.
        -- now rewrite artifact_app, Ha.
        -- now rewrite errors_of_app, He.
      * unfold bind, _emit_error, raise in Hrun. rewrite emit_emitted in Hrun.
        discriminate.
Qed.

Lemma connect_phase_returns (cfg : config) (w w' : world) :
  connect_phase cfg w = (Ret tt, w') ->
  exists t, trace w' = trace w ++ t /\ artifact t = [] /\ errors_of t = [].
Proof.
  unfold connect_phase. intros H.
  apply bind_ret_inv in H as (u & w1 & Hs & H).
  apply settimeout_ret_inv in Hs as [_ ->].
  apply connect_loop_returns in H as (t & Ht & Ha & He).
  exists (EvSetTimeout (socket_timeout cfg) :: t). splits; try assumption.
  rewrite Ht. cbn. now rewrite <- app_assoc.
Qed.

(** ** The waits of the handshake *)

Lemma recv_until_loop_trace (fuel : nat) : forall pat buf w r w',
  recv_until_loop fuel pat buf w = (r, w') ->
  exists d, trace w' = trace w ++ d /\ debug_only d /\ connected w' = connected w.
Proof.
  induction fuel as [|fuel IH]; intros pat buf w r w' Hrun;
    cbn [recv_until_loop] in Hrun; destruct (pat buf).
  - inversion Hrun; subst. exists []. rewrite app_nil_r. splits; auto. constructor.
  - inversion Hrun; subst. exists []. rewrite app_nil_r. splits; auto. constructor.
  - inversion Hrun; subst. exists []. rewrite app_nil_r. splits; auto. constructor.
  - destruct (recv_cases 1024 w) as (r1 & w1 & Hr & Ht & Hc & Hne).
    unfold bind at 1 in Hrun. rewrite Hr in Hrun.
    destruct r1 as [chunk|e|]; [| |congruence].
    + destruct (truthy chunk).
      * unfold bind at 1 in Hrun. rewrite emit_emitted in Hrun.
        apply IH in Hrun as (d & Hd & Hdo & Hco).
        exists (EvDebug chunk :: d). splits.
        -- rewrite Hd. cbn [emitted set_trace trace]. now rewrite Ht, <- app_assoc.
        -- constructor; [exact I|exact Hdo].
        -- rewrite Hco. cbn. exact Hc.
      * inversion Hrun; subst. exists []. rewrite app_nil_r. splits; auto. constructor.
    + inversion Hrun; subst. exists []. rewrite app_nil_r. splits; auto. constructor.
Qed.

Lemma recv_until_ret_inv (fuel : nat) (pat : pattern) (timeout : Q)
    (status : option status_msg) (w w1 : world) (buf : bytes) :
  _recv_until fuel pat timeout status w = (Ret buf, w1) ->
  exists d,
    trace w1 = trace w ++
      (match status with Some s => [EvStatus s] | None => [] end) ++
      [EvSetTimeout timeout] ++ d /\
    debug_only d /\ connected w1 = connected w.
Proof.
  unfold _recv_until. intros H.
  apply bind_ret_inv in H as (u1 & wa & Ha & H).
  apply bind_ret_inv in H as (u2 & wb & Hb & H).
  apply settimeout_ret_inv in Hb as [_ ->].
  apply recv_until_loop_trace in H as (d & Hd & Hdo & Hc).
  exists d. splits; auto.
  - rewrite Hd. cbn [emitted set_trace trace]. destruct status.
    + apply emit_ret_inv in Ha. subst wa. cbn [emitted set_trace trace].
      now rewrite <- !app_assoc.
    + inversion Ha; subst. now rewrite <- !app_assoc.
  - rewrite Hc. cbn. destruct status.
    + apply emit_ret_inv in Ha. now subst wa.
    + now inversion Ha.
Qed.

Lemma wait_header_trace (fuel : nat) (cfg : config) (p : plan) (w w' : world)
    (buf : bytes) :
  wait_header fuel cfg p w = (Ret buf, w') ->
  exists login d1 d2 d3,
    encode (username cfg ++ text CRLF) = Some login /\
    trace w' = trace w ++ login_events cfg login ++ d1 ++ aux_events cfg ++ d2 ++
               save_events cfg p ++ d3 /\
    debug_only d1 /\ debug_only d2 /\ debug_only d3 /\
    connected w = true /\ connected w' = true.
Proof.
  unfold wait_header, _send_and_wait, _wait_for, _emit_status. intros H.
  apply bind_ret_inv in H as (login & w1 & H1 & H).
  apply encode_str_ret_inv in H1 as [Hlogin ->].
  apply bind_ret_inv in H as (b1 & w2 & H2 & H).
  apply bind_ret_inv in H2 as (u & wa & Ha & H2). apply emit_ret_inv in Ha. subst wa.
  apply bind_ret_inv in H2 as (u' & wb & Hb & H2).
  apply sendall_ret_inv in Hb as [Hconn ->].
  apply recv_until_ret_inv in H2 as (d1 & Ht2 & Hd1 & Hc2).
  apply bind_ret_inv in H as (b2 & w3 & H3 & H).
  apply bind_ret_inv in H3 as (u3 & wc & Hc & H3). apply emit_ret_inv in Hc. subst wc.
  apply recv_until_ret_inv in H3 as (d2 & Ht3 & Hd2 & Hc3).
  apply bind_ret_inv in H as (u4 & wd & Hd & H). apply emit_ret_inv in Hd. subst wd.
  apply bind_ret_inv in H as (u5 & we & He & H).
  apply sendall_ret_inv in He as [Hconn3 ->].
  apply bind_ret_inv in H as (name & wf & Hf & H).
  apply encode_str_ret_inv in Hf as [Hname ->].
  apply bind_ret_inv in H as (e & wg & Hg & H).
  apply encode_str_ret_inv in Hg as [Hext ->].
  apply recv_until_ret_inv in H as (d3 & Ht4 & Hd3 & Hc4).
  exists login, d1, d2, d3. splits; auto.
  - rewrite Ht4. cbn [emitted set_trace trace]. rewrite Ht3.
    cbn [emitted set_trace trace]. rewrite Ht2.
    cbn [emitted set_trace trace]. unfold login_events, aux_events, save_events.
    cbn [app]. rewrite <- !app_assoc. cbn [app]. reflexivity.
  - rewrite Hc4. cbn. exact Hconn3.
Qed.





(** A wait whose first read brings the awaited text. *)
Lemma recv_until_answered (fuel : nat) (pat : pattern) (timeout : Q)
    (status : option status_msg) (w : world) (c : bytes) (l : list recv_event) :
  valid_seconds timeout = true ->
  connected w = true -> incoming w = RecvData c :: l ->
  (length c <= 1024)%nat -> pat [] = false -> pat c = true ->
  _recv_until (S fuel) pat timeout status w =
  (Ret c,
   emitted (match status with Some s => [EvStatus s] | None => [] end ++
            [EvSetTimeout timeout; EvDebug c]) (set_incoming l w)).
Proof.
  intros Hv Hc Hi Hlen Hp0 Hp.
  assert (Htr : truthy c = true) by (destruct c; [congruence|reflexivity]).
  assert (Hloop : forall t,
            recv_until_loop (S fuel) pat [] (emitted t w) =
            (Ret c, emitted (t ++ [EvDebug c]) (set_incoming l w))).
  { intros t. cbn [recv_until_loop]. rewrite Hp0.
    unfold bind at 1, recv. cbn [emitted set_trace connected incoming].
    rewrite Hc, Hi. apply Nat.leb_le in Hlen. rewrite Hlen, Htr.
    unfold bind at 1. rewrite emit_emitted.
    destruct fuel; cbn [recv_until_loop app]; rewrite Hp;
      unfold ret; now rewrite <- emitted_app. }
  unfold _recv_until, _emit_status. destruct status as [s|].
  - erewrite bind_ret by apply emit_emitted.
    erewrite bind_ret by (apply settimeout_valid; exact Hv).
    rewrite emitted_app, Hloop. cbn [app]. reflexivity.
  - unfold bind at 1, ret. erewrite bind_ret by (apply settimeout_valid; exact Hv).
    rewrite Hloop. reflexivity.
Qed.

Lemma combined_nothing (name e : bytes) : combined (header_text name e) [] = false.
Proof. rewrite combined_contains. reflexivity. Qed.



















Lemma login_absent_in_dots (k : nat) : LOGIN_PROMPT (repeat x2e k) = false.
Proof.
  unfold LOGIN_PROMPT. rewrite compile_literal.
  induction k as [|k IH]; [reflexivity|].
  cbn [repeat contains]. rewrite IH. reflexivity.
Qed.

(** A peer that sends one byte per read keeps a wait going through any
    number of reads: the timeout comes with the first read that brings
    nothing in time, however many reads came before. *)
Lemma timeout_after_any_number_of_reads (n : nat) : forall (k : nat) (w : world)
    (l : list recv_event),
  connected w = true ->
  incoming w = repeat (RecvData [x2e]) n ++ RecvTimeout :: l ->
  recv_until_loop (S n) LOGIN_PROMPT (repeat x2e k) w =
  (Raise SocketTimeout,
   emitted (repeat (EvDebug [x2e]) n) (set_incoming l w)).
Proof.
  induction n as [|n IH]; intros k w l Hc Hi.
  - cbn [repeat app] in Hi. cbn [recv_until_loop]. rewrite login_absent_in_dots.
    unfold bind, recv. rewrite Hc, Hi. cbn [repeat]. now rewrite emitted_nil.
  - cbn [repeat app] in Hi.
    change (recv_until_loop (S (S n)) LOGIN_PROMPT (repeat x2e k) w)
      with ((if LOGIN_PROMPT (repeat x2e k) then ret (repeat x2e k)
             else chunk <- recv 1024 ;;
                  if truthy chunk
                  then emit (EvDebug chunk) ;;
                       recv_until_loop (S n) LOGIN_PROMPT (repeat x2e k ++ chunk)
                  else ret (repeat x2e k)) w).
    rewrite login_absent_in_dots.
    unfold bind at 1, recv. rewrite Hc, Hi. cbn [length Nat.leb truthy].
    unfold bind at 1. rewrite emit_emitted.
    replace (repeat x2e k ++ [x2e]) with (repeat x2e (S k))
      by (now rewrite <- repeat_cons).
    rewrite (IH (S k) _ l); [|exact Hc|reflexivity].
    cbn [repeat]. unfold emitted, set_trace, set_incoming; cbn.
    now rewrite <- app_assoc.
Qed.

(** ** [run] seen from its session *)

Lemma session_opened (fuel : nat) (cfg : config) (p : plan) (w : world) :
  session fuel cfg p w =
  finally (buf <- wait_header fuel cfg p ;; after_header fuel cfg p buf)
          (emit EvCloseFiles) (opened p w).
Proof.
  unfold session, with_files, _emit_status, opened.
  unfold bind at 1. rewrite emit_emitted.
  unfold bind at 1. rewrite emit_emitted.
  unfold bind at 1. rewrite emit_emitted.
  now rewrite !emitted_app.
Qed.

Lemma run_session (fuel : nat) (cfg : config) (w wp w0 w1 : world) (p : plan)
    (r : outcome (pystr * pystr)) :
  prepare cfg w = (Ret p, wp) ->
  connect_phase cfg wp = (Ret tt, w0) ->
  (buf <- wait_header fuel cfg p ;; after_header fuel cfg p buf) (opened p w0) = (r, w1) ->
  run fuel cfg w =
  match r with
  | Ret a => (Ret a, completed w1)
  | Raise e => (Raise e, aborted e w1)
  | OutOfFuel => (OutOfFuel, w1)
  end.
Proof.
  intros Hp Hc Hs. unfold run.
  unfold bind at 1. rewrite Hp.
  unfold bind at 1. rewrite Hc.
  unfold finally at 1, try_except. rewrite session_opened.
  unfold finally at 1. rewrite Hs.
  destruct r as [a|e|].
  - rewrite emit_emitted. cbn [snd].
    unfold cleanup, bind. rewrite !emit_emitted. cbn [snd].
    unfold completed. now rewrite !emitted_app.
  - rewrite emit_emitted. cbn [snd].
    unfold bind, _emit_error, raise. rewrite !emit_emitted.
    unfold cleanup, bind. rewrite !emit_emitted. cbn [snd].
    unfold aborted. now rewrite !emitted_app.
  - reflexivity.
Qed.

(** ** Well-formed streams and their prefixes *)

Lemma transport_stream_cons (r : data_record) (rs : list data_record) :
  transport_stream (r :: rs) = frame r ++ transport_stream rs.
Proof. unfold transport_stream. cbn [map concat]. now rewrite app_assoc. Qed.

Lemma decoded_stream_cons (r : data_record) (rs : list data_record) :
  decoded_stream (r :: rs) = decoded r ++ decoded_stream rs.
Proof. reflexivity. Qed.

Lemma decoded_stream_app (a b : list data_record) :
  decoded_stream (a ++ b) = decoded_stream a ++ decoded_stream b.
Proof. unfold decoded_stream. now rewrite map_app, concat_app. Qed.

Lemma well_formed_no_cr (r : data_record) :
  well_formed r -> no_cr (body r) = true.
Proof.
  unfold well_formed, no_cr. intros H.
  rewrite forallb_forall in *. intros c Hc. specialize (H c Hc).
  unfold is_newline in H. now destruct (Byte.eqb c CR).
Qed.

Lemma frame_head_snoc (r : data_record) : frame r = frame_head r ++ [CR].
Proof. unfold frame, frame_head. now rewrite <- !app_assoc. Qed.

Lemma frame_head_no_cr (r : data_record) :
  well_formed r -> no_cr (frame_head r) = true.
Proof.
  intros H. unfold frame_head. rewrite !no_cr_app, (well_formed_no_cr _ H).
  now destruct (escaped r).
Qed.

Lemma frame_head_eot_free (r : data_record) :
  eot_free r -> contains EOT_MARKER (frame_head r) = false.
Proof.
  unfold eot_free, frame_head. intros H.
  destruct (escaped r); cbn [app REC_MARKER]; cbn [contains]; rewrite H;
    destruct (body r) as [|c1 [|c2 [|c3 l]]]; reflexivity.
Qed.

Lemma split_prefix (rs : list data_record) : forall p d,
  Forall well_formed rs -> Forall eot_free rs ->
  p ++ d = transport_stream rs ->
  exists rs1 rs2 q,
    rs = rs1 ++ rs2 /\ p = concat (map frame rs1) ++ q /\
    q ++ d = transport_stream rs2 /\ no_cr q = true /\
    (contains EOT_MARKER q = true -> rs2 = [] /\ d = []).
Proof.
  induction rs as [|r rs IH]; intros p d Hwf Hef Hpd.
  - exists [], [], p. cbn [app map concat]. splits; try assumption; try reflexivity.
    + apply (no_cr_prefix p d). now rewrite Hpd.
    + intros H. apply contains_length in H. apply (f_equal (@length byte)) in Hpd.
      rewrite length_app in Hpd. cbn in Hpd, H.
      split; [reflexivity|]. destruct d; [reflexivity|cbn in Hpd; lia].
  - inversion Hwf as [|? ? Hr Hrs]; inversion Hef as [|? ? Her Hers]; subst.
    rewrite transport_stream_cons in Hpd.
    apply app_eq_app in Hpd as [l [[Hp Hd]|[Hf Hd]]].
    + (* the frame is complete in [p] *)
      destruct (IH l d Hrs Hers (eq_sym Hd)) as (rs1 & rs2 & q & E1 & E2 & E3 & E4 & E5).
      exists (r :: rs1), rs2, q. subst. cbn [app map concat].
      rewrite <- app_assoc. splits; try assumption; reflexivity.
    + destruct l as [|c l].
      * rewrite app_nil_r in Hf. cbn [app] in Hd. subst p.
        destruct (IH [] d Hrs Hers Hd) as (rs1 & rs2 & q & E1 & E2 & E3 & E4 & E5).
        exists (r :: rs1), rs2, q. subst rs. cbn [app map concat].
        symmetry in E2. apply app_eq_nil in E2 as [E2 Eq].
        rewrite E2, Eq, !app_nil_r. rewrite Eq in E3, E5.
        splits; try assumption; reflexivity.
      * (* [p] stops inside the frame *)
        rewrite frame_head_snoc in Hf.
        destruct (strict_prefix_snoc p (c :: l) _ _ Hf) as (l' & Hh); [discriminate|].
        exists [], (r :: rs), p. cbn [app map concat].
        rewrite transport_stream_cons, frame_head_snoc, Hf, Hd, <- app_assoc.
        splits.
        -- reflexivity.
        -- reflexivity.
        -- reflexivity.
        -- apply (no_cr_prefix p l'). rewrite <- Hh. now apply frame_head_no_cr.
        -- pose proof (frame_head_eot_free r Her) as Hc. rewrite Hh in Hc.
           apply contains_prefix in Hc. congruence.
Qed.

Lemma frame_length (r : data_record) :
  (length (decoded r) + 1 <= length (frame r))%nat.
Proof.
  unfold decoded, frame. rewrite !length_app.
  destruct (escaped r); cbn [length REC_MARKER]; lia.
Qed.

Lemma frames_longer (rs : list data_record) :
  (length (decoded_stream rs) + length rs <= length (concat (map frame rs)))%nat.
Proof.
  induction rs as [|r rs IH]; [cbn; lia|].
  rewrite decoded_stream_cons. cbn [map concat length].
  rewrite !length_app. pose proof (frame_length r). lia.
Qed.

Lemma inner_budget_start (rs : list data_record) :
  (inner_budget stream_start rs <= length (transport_stream rs))%nat.
Proof.
  unfold inner_budget, transport_stream, blen. cbn [total_written last_report stream_start].
  rewrite length_app. cbn [length EOT_MARKER]. pose proof (frames_longer rs). lia.
Qed.

(** ** One read of the streaming loop *)

Lemma data_of_data (c : bytes) (l : list recv_event) :
  data_of (RecvData c :: l) = c ++ data_of l.
Proof. reflexivity. Qed.

Lemma data_of_timeout (l : list recv_event) : data_of (RecvTimeout :: l) = data_of l.
Proof. reflexivity. Qed.

Lemma weight_data (c : bytes) (l : list recv_event) :
  weight (RecvData c :: l) = (length c + weight l + 1)%nat.
Proof. unfold weight. rewrite data_of_data, length_app. cbn [length]. lia. Qed.

Lemma weight_timeout (l : list recv_event) :
  weight (RecvTimeout :: l) = (weight l + 1)%nat.
Proof. unfold weight. rewrite data_of_timeout. cbn [length]. lia. Qed.

Lemma read_chunk_quiet (w : world) (e : recv_event) (l : list recv_event) :
  connected w = true -> incoming w = e :: l -> quiet (e :: l) = true ->
  exists chunk l',
    read_chunk w = (Ret chunk, set_incoming l' w) /\
    chunk ++ data_of l' = data_of (e :: l) /\ quiet l' = true /\
    (weight l' < weight (e :: l))%nat.
Proof.
  intros Hc Hi Hq. unfold read_chunk, try_except, recv. rewrite Hc, Hi.
  destruct e as [c| |errno]; [| |discriminate].
  - destruct (length c <=? 4096)%nat eqn:E.
    + exists c, l. splits; try assumption; try reflexivity.
      rewrite weight_data. lia.
    + apply Nat.leb_gt in E.
      exists (firstn 4096 c), (RecvData (skipn 4096 c) :: l). splits.
      * reflexivity.
      * rewrite !data_of_data. now rewrite app_assoc, firstn_skipn.
      * exact Hq.
      * rewrite !weight_data, length_skipn. lia.
  - exists [], l. splits; try assumption; try reflexivity.
    rewrite weight_timeout. lia.
Qed.

Lemma extended_fields (st : stream_state) (chunk : bytes) :
  buffer (extended st chunk) = buffer st ++ chunk /\
  total_written (extended st chunk) = total_written st /\
  last_report (extended st chunk) = last_report st.
Proof.
  unfold extended. destruct chunk; cbn; rewrite ?app_nil_r; auto.
Qed.

Lemma debug_copy (chunk : bytes) (w : world) :
  exists t,
    (if truthy chunk then emit (EvDebug chunk) else ret tt) w = (Ret tt, emitted t w) /\
    artifact t = [] /\ progress_of t = [] /\
    (forall interval written count, progress_ok interval written count t).
Proof.
  destruct chunk; cbn [truthy].
  - exists []. now rewrite emitted_nil.
  - exists [EvDebug (b :: chunk)]. now rewrite emit_emitted.
Qed.

(** ** What the loops leave on the trace, whatever the progress interval *)

Section Notifications.

Variable interval : Z.

Lemma plen_app (t1 t2 : list event) : plen (t1 ++ t2) = plen t1 + plen t2.
Proof. unfold plen. rewrite progress_of_app, length_app. lia. Qed.

Lemma progress_ok_app (t1 t2 : list event) : forall written count,
  progress_ok interval written count (t1 ++ t2) <->
  progress_ok interval written count t1 /\
  progress_ok interval (written + blen (artifact t1)) (count + plen t1) t2.
Proof.
  induction t1 as [|e t1 IH]; intros written count.
  - cbn. rewrite !Z.add_0_r. tauto.
  - destruct e; cbn [app progress_ok artifact]; rewrite ?IH;
      try (unfold plen; cbn [progress_of]; fold (plen t1); tauto).
    + unfold plen; cbn [progress_of length]; fold (plen t1).
      replace (count + 1 + plen t1) with (count + Z.of_nat (S (length (progress_of t1))))
        by (unfold plen; lia).
      tauto.
    + rewrite blen_app, Z.add_assoc.
      unfold plen; cbn [progress_of]; fold (plen t1). tauto.
Qed.

(** What the progress loop leaves, however it ends. *)
Lemma progress_loop_inv (fuel : nat) : forall total last w r w' count,
  last = interval * count -> last <= total ->
  progress_loop fuel interval total last w = (r, w') ->
  exists t,
    w' = emitted t w /\ artifact t = [] /\
    progress_ok interval total count t /\
    (forall e, r <> Raise e) /\
    (forall last', r = Ret last' ->
       last' = interval * (count + plen t) /\ last' <= total < last' + interval).
Proof.
  induction fuel as [|fuel IH]; intros total last w r w' count Hc Hl Hrun;
    cbn [progress_loop] in Hrun; destruct (total >=? last + interval) eqn:E.
  - inversion Hrun; subst. exists []. rewrite emitted_nil. cbn.
    splits; auto; try discriminate.
  - inversion Hrun; subst. exists []. rewrite emitted_nil.
    assert (total < interval * count + interval)
      by (rewrite Z.geb_leb in E; apply Z.leb_gt in E; lia).
    cbn. splits; auto; try discriminate; intros last' [= <-]; rewrite Z.add_0_r; lia.
  - apply Z.geb_le in E. unfold bind, _emit_progress in Hrun.
    rewrite emit_emitted in Hrun.
    destruct (IH total (last + interval) _ r w' (count + 1)
                ltac:(lia) ltac:(lia) Hrun)
      as (t & Hw & Ha & Hok & Hne & Hret).
    exists (EvProgress (last + interval) :: t). rewrite Hw, emitted_app.
    splits; auto.
    + cbn [progress_ok]. splits; auto; lia.
    + intros last' Hr. destruct (Hret last' Hr) as [H1 H2].
      unfold plen in *; cbn [progress_of length]. split; [|lia].
      rewrite H1. f_equal. lia.
  - inversion Hrun; subst. exists []. rewrite emitted_nil.
    assert (total < interval * count + interval)
      by (rewrite Z.geb_leb in E; apply Z.leb_gt in E; lia).
    cbn. splits; auto; try discriminate; intros last' [= <-]; rewrite Z.add_0_r; lia.
Qed.

(** What the drain loop leaves, however it ends. *)
Lemma drain_loop_inv (n fuel : nat) : forall st w r w' count,
  last_report st = interval * count ->
  last_report st <= total_written st ->
  drain_loop n fuel interval st w = (r, w') ->
  exists t,
    w' = emitted t w /\
    progress_ok interval (total_written st) count t /\
    (forall e, r <> Raise e) /\
    (forall st', r = Ret st' ->
       total_written st' = total_written st + blen (artifact t) /\
       last_report st' = interval * (count + plen t) /\
       last_report st' <= total_written st' /\
       (total_written st < last_report st + interval ->
        total_written st' < last_report st' + interval) /\
       data_rec_search (buffer st') = None).
Proof.
  induction fuel as [|fuel IH]; intros st w r w' count Hc Hl Hrun;
    cbn [drain_loop] in Hrun;
    destruct (data_rec_search (buffer st)) as [[rec rest]|] eqn:Es.
  - inversion Hrun; subst. exists []. rewrite emitted_nil. cbn.
    splits; auto; discriminate.
  - inversion Hrun; subst. exists []. rewrite emitted_nil. cbn.
    splits; auto; try discriminate. intros st' [= <-].
    rewrite !Z.add_0_r. splits; auto.
  - unfold bind at 1 in Hrun. rewrite emit_emitted in Hrun.
    unfold bind at 1 in Hrun.
    pose proof (blen_nonneg (payload_of rec)) as Hp.
    destruct (progress_loop n interval (total_written st + blen (payload_of rec))
                (last_report st) (emitted [EvWrite (payload_of rec)] w))
      as [r1 w1] eqn:Ep.
    destruct (progress_loop_inv n (total_written st + blen (payload_of rec))
                (last_report st) _ r1 w1 count Hc ltac:(lia) Ep)
      as (t1 & Hw1 & Ha1 & Hok1 & Hne1 & Hret1).
    destruct r1 as [last'|e|].
    + destruct (Hret1 last' eq_refl) as [Hl1 Hb1].
      destruct (IH {| total_written := total_written st + blen (payload_of rec);
                      last_report := last'; buffer := rest |}
                  _ r w' (count + plen t1) Hl1 ltac:(cbn; lia) Hrun)
        as (t2 & Hw2 & Hok2 & Hne2 & Hret2).
      cbn [total_written last_report] in *.
      exists (EvWrite (payload_of rec) :: t1 ++ t2).
      rewrite Hw2, Hw1, !emitted_app. splits; auto.
      * cbn [app progress_ok]. apply progress_ok_app. split; [assumption|].
        now rewrite Ha1, Z.add_0_r.
      * intros st' Hr. destruct (Hret2 st' Hr) as (H1 & H2 & H3 & H4 & H5).
        cbn [app artifact]. rewrite blen_app, artifact_app, Ha1. cbn [app].
        unfold plen in *. cbn [app progress_of]. rewrite progress_of_app, length_app.
        splits; auto; lia.
    + exfalso. now apply (Hne1 e).
    + inversion Hrun; subst. exists (EvWrite (payload_of rec) :: t1).
      rewrite emitted_app. splits; auto; discriminate.
  - inversion Hrun; subst. exists []. rewrite emitted_nil. cbn.
    splits; auto; try discriminate. intros st' [= <-].
    rewrite !Z.add_0_r. splits; auto.
Qed.

Lemma stream_loop_inv (n fuel : nat) : forall st w r w' count,
  last_report st = interval * count ->
  last_report st <= total_written st ->
  stream_loop n fuel interval st w = (r, w') ->
  exists t,
    trace w' = trace w ++ t /\
    progress_ok interval (total_written st) count t /\
    (r <> OutOfFuel ->
     total_written st < last_report st + interval ->
     interval * (count + plen t) <= total_written st + blen (artifact t)
       < interval * (count + plen t + 1)) /\
    (forall st', r = Ret st' ->
       total_written st' = total_written st + blen (artifact t)).
Proof.
  induction fuel as [|fuel IH]; intros st w r w' count Hc Hl Hrun.
  - inversion Hrun; subst. exists []. rewrite app_nil_r. cbn.
    splits; auto; try discriminate. congruence.
  - cbn [stream_loop] in Hrun.
    destruct (cancel_requested_cases w) as (c & w0 & Hcr & Ht0 & _).
    unfold bind at 1 in Hrun. rewrite Hcr in Hrun.
    destruct c.
    { inversion Hrun; subst. exists []. rewrite app_nil_r, Ht0. cbn.
      unfold plen; cbn. rewrite !Z.add_0_r.
      splits; auto; try discriminate. intros _ Hu. lia. }
    destruct (read_chunk_cases w0) as (r1 & w1 & Hrc & Ht1 & Hne1 & _).
    unfold bind at 1 in Hrun. rewrite Hrc in Hrun.
    destruct r1 as [chunk|e|]; [| |congruence].
    2:{ inversion Hrun; subst. exists []. rewrite app_nil_r, Ht1, Ht0. cbn.
        unfold plen; cbn. rewrite !Z.add_0_r.
        splits; auto; try discriminate. intros _ Hu. lia. }
    destruct (debug_copy chunk w1) as (td & Hdbg & Had & Hpd & Hokd).
    unfold bind at 1 in Hrun. rewrite Hdbg in Hrun.
    fold (extended st chunk) in Hrun.
    destruct (extended_fields st chunk) as (Eb & Et & El).
    unfold bind at 1 in Hrun.
    destruct (drain_loop n n interval (extended st chunk) (emitted td w1))
      as [r2 w2] eqn:Ed.
    destruct (drain_loop_inv n n (extended st chunk) _ r2 w2 count
                ltac:(congruence) ltac:(lia) Ed)
      as (t2 & Hw2 & Hok2 & Hne2 & Hret2).
    rewrite Et in Hok2.
    assert (Hpl : plen td = 0) by (unfold plen; now rewrite Hpd).
    assert (Htr2 : trace w2 = trace w ++ td ++ t2).
    { rewrite Hw2. cbn [emitted set_trace trace]. rewrite Ht1, Ht0.
      now rewrite app_assoc. }
    assert (Hok : progress_ok interval (total_written st) count (td ++ t2)).
    { apply progress_ok_app. rewrite Had, Hpl. split; [apply Hokd|].
      unfold blen; cbn [length]. change (Z.of_nat 0) with 0. now rewrite !Z.add_0_r. }
    destruct r2 as [st2|e|]; [| exfalso; now apply (Hne2 e) |].
    + destruct (Hret2 st2 eq_refl) as (H1 & H2 & H3 & H4 & H5).
      rewrite Et, El in *.
      destruct (contains EOT_MARKER (buffer st2)) eqn:Ec.
      * inversion Hrun; subst. exists (td ++ t2). splits; auto.
        -- intros _ Hu. rewrite artifact_app, plen_app, Had, Hpl. cbn [app].
           specialize (H4 Hu). rewrite Z.add_0_l. lia.
        -- intros st' [= <-]. now rewrite artifact_app, Had.
      * destruct (IH st2 w2 r w' (count + plen t2) H2 H3 Hrun)
          as (t3 & Ht3 & Hok3 & Hfin3 & Hret3).
        exists ((td ++ t2) ++ t3). splits.
        -- rewrite Ht3, Htr2. now rewrite !app_assoc.
        -- apply progress_ok_app. split; [assumption|].
           rewrite artifact_app, plen_app, Had, Hpl. cbn [app].
           now rewrite Z.add_0_l, <- H1.
        -- intros Hr Hu. specialize (Hfin3 Hr (H4 Hu)).
           rewrite !artifact_app, !plen_app, !blen_app, Had, Hpl.
           change (blen []) with 0. lia.
        -- intros st' Hr. rewrite (Hret3 st' Hr), H1.
           rewrite !artifact_app, !blen_app, Had. change (blen []) with 0. lia.
    + inversion Hrun; subst. exists (td ++ t2). splits; auto; try discriminate.
      congruence.
Qed.

(** No notification exceeds the bytes written in the end. *)
Lemma progress_ok_bounded (t : list event) : forall written count,
  progress_ok interval written count t ->
  Forall (fun v => v <= written + blen (artifact t)) (progress_of t).
Proof.
  induction t as [|e t IH]; intros written count Hok; [constructor|].
  destruct e; cbn [progress_ok progress_of artifact] in *; try (now apply (IH _ count)).
  - destruct Hok as (Hv & Hle & Hok).
    constructor; [pose proof (blen_nonneg (artifact t)); lia | now apply (IH _ (count + 1))].
  - rewrite blen_app, Z.add_assoc. now apply (IH _ count).
Qed.

End Notifications.

(** ** The streaming loop with a positive progress interval *)

Section PositiveInterval.

Variable interval : Z.
Hypothesis interval_pos : 0 < interval.

Lemma progress_loop_done (fuel : nat) : forall total last w,
  last <= total ->
  (Z.to_nat (total - last) < fuel)%nat ->
  exists last' t,
    progress_loop fuel interval total last w = (Ret last', emitted t w) /\
    last <= last' <= total /\ total < last' + interval /\ artifact t = [].
Proof.
  induction fuel as [|fuel IH]; intros total last w Hl Hf; [lia|].
  cbn [progress_loop].
  destruct (total >=? last + interval) eqn:E.
  - apply Z.geb_le in E.
    unfold bind, _emit_progress. rewrite emit_emitted.
    destruct (IH total (last + interval) (emitted [EvProgress (last + interval)] w))
      as (last' & t & Hr & Hb & Hlt & Ha); try lia.
    exists last', (EvProgress (last + interval) :: t).
    rewrite Hr, emitted_app. repeat split; try lia. exact Ha.
  - exists last, []. rewrite emitted_nil.
    assert (total < last + interval) by (rewrite Z.geb_leb in E; apply Z.leb_gt in E; lia).
    repeat split; try lia.
Qed.

Lemma drain_frames (rs : list data_record) : forall n fuel st w q,
  Forall well_formed rs ->
  buffer st = concat (map frame rs) ++ q -> no_cr q = true ->
  last_report st <= total_written st ->
  (length rs < fuel)%nat ->
  (Z.to_nat (total_written st - last_report st + blen (decoded_stream rs)) < n)%nat ->
  exists st' t,
    drain_loop n fuel interval st w = (Ret st', emitted t w) /\
    buffer st' = q /\
    total_written st' = total_written st + blen (decoded_stream rs) /\
    last_report st <= last_report st' <= total_written st' /\
    artifact t = decoded_stream rs.
Proof.
  induction rs as [|r rs IH]; intros n fuel st w q Hwf Hb Hq Hl Hf Hn.
  - cbn [map concat app] in Hb. destruct fuel as [|fuel]; [lia|].
    cbn [drain_loop]. rewrite Hb, (search_no_cr _ Hq).
    exists st, []. rewrite emitted_nil. cbn. repeat split; try lia. assumption.
  - destruct fuel as [|fuel]; [cbn in Hf; lia|].
    inversion Hwf as [|? ? Hr Hrs]; subst.
    cbn [map concat] in Hb. rewrite <- app_assoc in Hb.
    cbn [drain_loop]. rewrite Hb, (search_frame _ _ Hr), payload_of_frame.
    unfold bind at 1. rewrite emit_emitted.
    rewrite decoded_stream_cons, blen_app in Hn.
    pose proof (blen_nonneg (decoded r)) as Hd0.
    pose proof (blen_nonneg (decoded_stream rs)) as Hd1.
    destruct (progress_loop_done n (total_written st + blen (decoded r))
                (last_report st) (emitted [EvWrite (decoded r)] w))
      as (last' & t1 & Hp & Hb1 & Hlt & Ha1); try lia.
    unfold bind at 1. rewrite Hp.
    destruct (IH n fuel
                {| total_written := total_written st + blen (decoded r);
                   last_report := last'; buffer := concat (map frame rs) ++ q |}
                (emitted t1 (emitted [EvWrite (decoded r)] w)) q)
      as (st' & t2 & Hd & Hbuf & Htot & Hlast & Ha2); cbn [buffer total_written last_report];
      try assumption; try reflexivity; try lia.
    { cbn in Hf. lia. }
    exists st', (EvWrite (decoded r) :: t1 ++ t2).
    rewrite Hd, !emitted_app. cbn [total_written last_report] in Htot, Hlast.
    repeat split; try assumption; try lia.
    + rewrite decoded_stream_cons, blen_app. lia.
    + cbn [app artifact]. rewrite artifact_app, Ha1, Ha2, decoded_stream_cons.
      reflexivity.
Qed.

Lemma stream_delivery (m : nat) : forall events rs st w n fuel,
  (weight events <= m)%nat ->
  connected w = true -> cancel_in w = None ->
  incoming w = events -> quiet events = true ->
  Forall well_formed rs -> Forall eot_free rs ->
  buffer st ++ data_of events = transport_stream rs ->
  contains EOT_MARKER (buffer st) = false ->
  last_report st <= total_written st ->
  (m < fuel)%nat -> (inner_budget st rs <= n)%nat ->
  exists st' w',
    stream_loop n fuel interval st w = (Ret st', w') /\
    artifact (trace w') = artifact (trace w) ++ decoded_stream rs /\
    total_written st' = total_written st + blen (decoded_stream rs) /\
    buffer st' = EOT_MARKER.
Proof.
  induction m as [|m IH];
    intros events rs st w n fuel Hm Hc Hk Hin Hq Hwf Hef Hs He Hl Hf Hn.
  - (* no event is left: the stream would be in the buffer already *)
    destruct events as [|e l]; [|rewrite ?weight_data in Hm; destruct e; cbn in Hm; lia].
    cbn [data_of flat_map] in Hs. rewrite app_nil_r in Hs.
    rewrite Hs in He. unfold transport_stream in He.
    rewrite contains_app_r in He. discriminate.
  - destruct events as [|e l].
    { cbn [data_of flat_map] in Hs. rewrite app_nil_r in Hs.
      rewrite Hs in He. unfold transport_stream in He.
      rewrite contains_app_r in He. discriminate. }
    destruct fuel as [|fuel]; [lia|].
    destruct (read_chunk_quiet w e l Hc Hin Hq) as (chunk & l' & Hr & Hd & Hq' & Hw).
    destruct (debug_copy chunk (set_incoming l' w)) as (t0 & Hdbg & Ha0 & _ & _).
    destruct (extended_fields st chunk) as (Eb & Et & El).
    rewrite <- Hd, app_assoc in Hs.
    destruct (split_prefix rs _ _ Hwf Hef Hs)
      as (rs1 & rs2 & q & Ers & Ep & Eq & Hq0 & Heot).
    assert (Hwf1 : Forall well_formed rs1 /\ Forall well_formed rs2)
      by (rewrite Ers in Hwf; now apply Forall_app in Hwf).
    assert (Hef2 : Forall eot_free rs2)
      by (rewrite Ers in Hef; now apply Forall_app in Hef).
    destruct Hwf1 as [Hwf1 Hwf2].
    pose proof (blen_nonneg (decoded_stream rs1)) as Hd1.
    pose proof (blen_nonneg (decoded_stream rs2)) as Hd2.
    assert (Hdec : blen (decoded_stream rs) =
                   blen (decoded_stream rs1) + blen (decoded_stream rs2))
      by (now rewrite Ers, decoded_stream_app, blen_app).
    assert (Hlen : (length rs = length rs1 + length rs2)%nat)
      by (now rewrite Ers, length_app).
    unfold inner_budget in Hn.
    destruct (drain_frames rs1 n n (extended st chunk)
                (emitted t0 (set_incoming l' w)) q)
      as (st2 & t & Hdr & Hb2 & Ht2 & Hl2 & Ha); try assumption; try lia.
    { now rewrite Eb. }
    cbn [stream_loop]. unfold bind at 1. rewrite (cancel_never _ Hk).
    unfold bind at 1. rewrite Hr.
    unfold bind at 1. rewrite Hdbg.
    fold (extended st chunk).
    unfold bind at 1. rewrite Hdr, Hb2.
    destruct (contains EOT_MARKER q) eqn:Ec.
    + destruct (Heot eq_refl) as [-> Hd0].
      rewrite app_nil_r in Ers. subst rs1.
      exists st2, (emitted t (emitted t0 (set_incoming l' w))). splits.
      * reflexivity.
      * cbn [emitted set_trace set_incoming trace].
        now rewrite !artifact_app, Ha0, Ha, app_nil_r.
      * lia.
      * rewrite Hd0, app_nil_r in Eq. now rewrite Hb2, Eq.
    + destruct (IH l' rs2 st2 (emitted t (emitted t0 (set_incoming l' w))) n fuel)
        as (st' & w' & Hrun & Hart & Htot & Hbuf);
        try assumption; try reflexivity; try lia.
      { now rewrite Hb2. }
      { now rewrite Hb2. }
      { unfold inner_budget. lia. }
      exists st', w'. splits; try assumption.
      * rewrite Hart. cbn [emitted set_trace set_incoming trace].
        rewrite !artifact_app, Ha0, Ha, app_nil_r, Ers, decoded_stream_app.
        now rewrite app_assoc.
      * lia.
Qed.

Lemma delivery_from_start (rs : list data_record) (events : list recv_event)
    (fuel : nat) (w : world) :
  Forall well_formed rs -> Forall eot_free rs ->
  quiet events = true -> data_of events = transport_stream rs ->
  connected w = true -> cancel_in w = None -> incoming w = events ->
  (2 * length (transport_stream rs) + length events < fuel)%nat ->
  exists st w',
    stream_loop fuel fuel interval stream_start w = (Ret st, w') /\
    artifact (trace w') = artifact (trace w) ++ decoded_stream rs /\
    total_written st = blen (decoded_stream rs).
Proof.
  intros Hwf Hef Hq Hd Hc Hk Hin Hf.
  pose proof (inner_budget_start rs) as Hb.
  assert (Hw : (weight events < fuel)%nat) by (unfold weight; rewrite Hd; lia).
  destruct (stream_delivery (weight events) events rs stream_start w fuel fuel)
    as (st & w' & Hrun & Ha & Ht & _); try assumption; try reflexivity; try lia.
  exists st, w'. splits; assumption.
Qed.

(** What [progress_ok] says of the values. *)
Lemma progress_ok_values (t : list event) : forall written count,
  0 <= count ->
  progress_ok interval written count t ->
  Forall (fun v => interval * count < v /\ exists k, 0 < k /\ v = k * interval)
         (progress_of t) /\
  StronglySorted Z.lt (progress_of t).
Proof.
  induction t as [|e t IH]; intros written count Hc Hok.
  - cbn. splits; constructor.
  - destruct e; cbn [progress_ok progress_of] in *; try (now apply (IH written)).
    + destruct Hok as (Hv & Hle & Hok).
      destruct (IH written (count + 1) ltac:(lia) Hok) as (H1 & H2).
      splits.
      * constructor.
        -- split; [lia|]. exists (count + 1). split; lia.
        -- eapply Forall_impl; [|exact H1]. cbn. intros v [Hlt Hk]. split; [lia|exact Hk].
      * constructor; [exact H2|].
        eapply Forall_impl; [|exact H1]. cbn. intros v [Hlt _]. lia.
    + now apply (IH (written + blen payload)).
Qed.

End PositiveInterval.

(** ** Exits of the streaming loop *)

Lemma progress_loop_no_raise (fuel : nat) : forall interval total last w e w',
  progress_loop fuel interval total last w <> (Raise e, w').
Proof.
  induction fuel as [|fuel IH]; intros interval total last w e w';
    cbn [progress_loop]; destruct (total >=? last + interval); try discriminate.
  unfold bind, _emit_progress. rewrite emit_emitted. apply IH.
Qed.

Lemma drain_loop_exit (n fuel : nat) : forall interval st w r w',
  drain_loop n fuel interval st w = (r, w') ->
  (forall e, r <> Raise e) /\
  (forall st', r = Ret st' -> data_rec_search (buffer st') = None).
Proof.
  induction fuel as [|fuel IH]; intros interval st w r w' Hrun;
    cbn [drain_loop] in Hrun;
    destruct (data_rec_search (buffer st)) as [[rec rest]|] eqn:Es;
    try (inversion Hrun; subst; split; [discriminate|]; intros st' [= <-]; assumption);
    try (inversion Hrun; subst; split; discriminate).
  unfold bind at 1 in Hrun. rewrite emit_emitted in Hrun.
  unfold bind at 1 in Hrun.
  destruct (progress_loop n interval (total_written st + blen (payload_of rec))
              (last_report st) (emitted [EvWrite (payload_of rec)] w))
    as [[last'|e|] w1] eqn:Ep.
  - now apply IH in Hrun.
  - now apply progress_loop_no_raise in Ep.
  - inversion Hrun; subst; split; discriminate.
Qed.

Lemma stream_loop_exit (n fuel : nat) : forall interval st w r w',
  stream_loop n fuel interval st w = (r, w') ->
  (forall st', r = Ret st' ->
     contains EOT_MARKER (buffer st') = true /\
     data_rec_search (buffer st') = None) /\
  (forall e, r = Raise e -> e = CancelledByUser \/ io_error e).
Proof.
  induction fuel as [|fuel IH]; intros interval st w r w' Hrun.
  - inversion Hrun; subst. split; discriminate.
  - cbn [stream_loop] in Hrun.
    destruct (cancel_requested_cases w) as (c & w0 & Hcr & _).
    unfold bind at 1 in Hrun. rewrite Hcr in Hrun.
    destruct c.
    { inversion Hrun; subst. split; [discriminate|]. intros e [= <-]. now left. }
    destruct (read_chunk_cases w0) as (r1 & w1 & Hrc & _ & Hne1 & Hio).
    unfold bind at 1 in Hrun. rewrite Hrc in Hrun.
    destruct r1 as [chunk|e|]; [| |congruence].
    2:{ inversion Hrun; subst. split; [discriminate|]. intros e' [= <-].
        right. now apply Hio. }
    destruct (debug_copy chunk w1) as (td & Hdbg & _).
    unfold bind at 1 in Hrun. rewrite Hdbg in Hrun.
    unfold bind at 1 in Hrun.
    match type of Hrun with
    | context [drain_loop n n interval ?s ?x] =>
        destruct (drain_loop n n interval s x) as [[st2|e|] w2] eqn:Ed
    end.
    + destruct (drain_loop_exit _ _ _ _ _ _ _ Ed) as [_ Hd].
      specialize (Hd st2 eq_refl).
      destruct (contains EOT_MARKER (buffer st2)) eqn:Ec.
      * inversion Hrun; subst. split; [|discriminate].
        intros st' [= <-]. now split.
      * now apply IH in Hrun.
    + destruct (drain_loop_exit _ _ _ _ _ _ _ Ed) as [Hd _]. now destruct (Hd e).
    + inversion Hrun; subst. split; discriminate.
Qed.

(** With the peer gone, nothing to decode and no marker, the loop spins. *)
Lemma stream_loop_closed (n fuel : nat) : forall interval st w,
  connected w = true -> incoming w = [] -> cancel_in w = None ->
  data_rec_search (buffer st) = None ->
  contains EOT_MARKER (buffer st) = false ->
  stream_loop n fuel interval st w = (OutOfFuel, w).
Proof.
  induction fuel as [|fuel IH]; intros interval st w Hc Hi Hk Hs He; [reflexivity|].
  cbn [stream_loop]. unfold bind at 1. rewrite (cancel_never _ Hk).
  unfold bind at 1. unfold read_chunk, try_except, recv. rewrite Hc, Hi.
  unfold bind at 1. cbn [truthy ret].
  unfold bind at 1.
  assert (Hd : drain_loop n n interval st w = (Ret st, w)).
  { destruct n; cbn [drain_loop]; now rewrite Hs. }
  rewrite Hd, He. now apply IH.
Qed.


(** ** A progress interval that is not positive *)

Lemma progress_of_values (vs : list Z) : progress_of (map EvProgress vs) = vs.
Proof. induction vs as [|v vs IH]; [reflexivity|]. cbn. now rewrite IH. Qed.

Lemma artifact_values (vs : list Z) : artifact (map EvProgress vs) = [].
Proof. induction vs as [|v vs IH]; [reflexivity|exact IH]. Qed.

(** The loop of the notifications does not end: it emits the multiples of
    the interval one after the other. *)
Lemma progress_loop_runs_away (fuel : nat) : forall interval total last w,
  interval <= 0 -> last <= total ->
  progress_loop fuel interval total last w =
  (OutOfFuel,
   emitted (map EvProgress
              (map (fun k => last + interval * Z.of_nat (S k)) (seq 0 fuel))) w).
Proof.
  induction fuel as [|fuel IH]; intros interval total last w Hi Hl;
    cbn [progress_loop];
    replace (total >=? last + interval) with true
      by (symmetry; apply Z.geb_le; lia).
  - cbn. now rewrite emitted_nil.
  - unfold bind, _emit_progress. rewrite emit_emitted.
    rewrite (IH interval total (last + interval)) by lia.
    rewrite emitted_app. f_equal. f_equal.
    cbn [seq map app]. f_equal; [f_equal; lia|].
    rewrite <- seq_shift, !map_map. apply map_ext. intros k. f_equal. lia.
Qed.

Lemma multiples_not_increasing (interval : Z) (n : nat) :
  interval <= 0 ->
  ~ StronglySorted Z.lt
      (map (fun k => interval * Z.of_nat (S k)) (seq 0 (S (S n)))).
Proof.
  intros Hi H. cbn [seq map] in H.
  inversion H as [|? ? _ Hall]; subst.
  inversion Hall as [|? ? Hlt _]; subst. lia.
Qed.

(** ** The claims *)

(** C1, as amended: for every stream of well-formed records whose payloads
    do not hold the end-of-transfer marker, followed by that marker, and for
    every way the transport delivers it (reads of any size, timeouts in
    between), with a positive progress interval and no cancellation, the
    streaming loop ends normally, the output artifact is the concatenation
    of the decoded payloads in arrival order, each ended by CRLF, and
    [total_written] is the length of the artifact. *)
Theorem records_written_in_order :
  forall (rs : list data_record) (events : list recv_event) (interval : Z)
         (fuel : nat) (w : world),
  Forall well_formed rs -> Forall eot_free rs ->
  quiet events = true -> data_of events = transport_stream rs ->
  0 < interval ->
  connected w = true -> cancel_in w = None -> incoming w = events ->
  artifact (trace w) = [] ->
  (2 * length (transport_stream rs) + length events < fuel)%nat ->
  exists st w',
    stream_loop fuel fuel interval stream_start w = (Ret st, w') /\
    artifact (trace w') = decoded_stream rs /\
    total_written st = blen (artifact (trace w')).
Proof.
  intros rs events interval fuel w Hwf Hef Hq Hd Hi Hc Hk Hin Ha Hf.
  destruct (delivery_from_start interval Hi rs events fuel w)
    as (st & w' & Hrun & Hart & Ht); try assumption.
  exists st, w'. rewrite Hart, Ha. cbn [app]. now splits.
Qed.

Lemma records_written_in_order_witness :
  exists st w',
    stream_loop 64 64 5 stream_start (streaming sample_delivery) = (Ret st, w') /\
    artifact (trace w') = decoded_stream sample_records /\
    total_written st = blen (artifact (trace w')).
Proof.
  apply (records_written_in_order sample_records sample_delivery 5 64
           (streaming sample_delivery));
    try reflexivity; try (repeat constructor; fail); try (vm_compute; lia).
Defined.

(** C1 as stated fails: a payload may hold the bytes of the end-of-transfer
    marker, and a read that ends after them and before the carriage return
    ends the loop with nothing written. *)
Lemma marker_in_payload_counterexample :
  well_formed marker_record /\
  quiet marker_split = true /\
  data_of marker_split = transport_stream [marker_record] /\
  ~ (exists fuel st w',
       stream_loop fuel fuel DEFAULT_PROGRESS_INTERVAL stream_start
         (streaming marker_split) = (Ret st, w') /\
       artifact (trace w') = decoded_stream [marker_record]).
Proof.
  splits; try reflexivity.
  intros (fuel & st & w' & Hrun & Ha).
  destruct fuel as [|fuel]; [discriminate|].
  vm_compute in Hrun. inversion Hrun; subst. discriminate.
Qed.

(** C2, as amended: on the scenario's stream the second record starts with
    the bytes 05 02 45, which is not the record marker, so the loop writes
    the first payload only: the artifact is hello CR LF and [total_written]
    is 7. *)
Theorem hello_world_scenario :
  forall k : nat,
  exists st w',
    stream_loop (3 + k) (3 + k) DEFAULT_PROGRESS_INTERVAL stream_start
      (streaming hello_world_events) = (Ret st, w') /\
    artifact (trace w') = lit "hello" ++ [CR; LF] /\
    total_written st = 7 /\
    buffer st = world_record ++ EOT_MARKER.
Proof.
  intros k. eexists. eexists. cbn [Nat.add]. vm_compute. splits; reflexivity.
Qed.

(** C2 as stated fails: no run of the loop on the scenario's stream writes
    hello CR LF world CR LF, nor ends with 12 bytes written. *)
Lemma hello_world_counterexample :
  ~ (exists fuel st w',
       stream_loop fuel fuel DEFAULT_PROGRESS_INTERVAL stream_start
         (streaming hello_world_events) = (Ret st, w') /\
       (artifact (trace w') = lit "hello" ++ [CR; LF] ++ lit "world" ++ [CR; LF] \/
        total_written st = 12)).
Proof.
  intros (fuel & st & w' & Hrun & Ha).
  destruct fuel as [|[|[|fuel]]]; try discriminate.
  vm_compute in Hrun. inversion Hrun; subst. destruct Ha; discriminate.
Qed.

(** With the record marker on both records the scenario gives both lines,
    14 bytes in all. *)
Example hello_world_both_marked :
  exists st w',
    stream_loop 4 4 DEFAULT_PROGRESS_INTERVAL stream_start
      (streaming [RecvData hello_record;
                  RecvData (REC_MARKER ++ lit "world" ++ [CR]);
                  RecvData EOT_MARKER]) = (Ret st, w') /\
    artifact (trace w') = lit "hello" ++ [CR; LF] ++ lit "world" ++ [CR; LF] /\
    total_written st = 14.
Proof. eexists. eexists. vm_compute. splits; reflexivity. Qed.

(** C3, as amended: for every stream of well-formed records whose payloads
    do not hold the end-of-transfer marker, and every split point, the loop
    fed the two parts in two reads writes the same artifact as the loop fed
    the whole stream at once, the decoded records. *)
Theorem split_delivery_same_output :
  forall (rs : list data_record) (k : nat) (interval : Z) (fuel : nat) (w : world),
  Forall well_formed rs -> Forall eot_free rs ->
  0 < interval ->
  connected w = true -> cancel_in w = None ->
  (2 * length (transport_stream rs) + 2 < fuel)%nat ->
  exists st1 w1 st2 w2,
    stream_loop fuel fuel interval stream_start
      (set_incoming [RecvData (firstn k (transport_stream rs));
                     RecvData (skipn k (transport_stream rs))] w) = (Ret st2, w2) /\
    stream_loop fuel fuel interval stream_start
      (set_incoming [RecvData (transport_stream rs)] w) = (Ret st1, w1) /\
    artifact (trace w2) = artifact (trace w1) /\
    artifact (trace w1) = artifact (trace w) ++ decoded_stream rs.
Proof.
  intros rs k interval fuel w Hwf Hef Hi Hc Hk Hf.
  destruct (delivery_from_start interval Hi rs
              [RecvData (firstn k (transport_stream rs));
               RecvData (skipn k (transport_stream rs))] fuel
              (set_incoming [RecvData (firstn k (transport_stream rs));
                             RecvData (skipn k (transport_stream rs))] w))
    as (st2 & w2 & Hrun2 & Ha2 & _); try assumption; try reflexivity.
  { cbn [data_of flat_map]. now rewrite app_nil_r, firstn_skipn. }
  destruct (delivery_from_start interval Hi rs [RecvData (transport_stream rs)] fuel
              (set_incoming [RecvData (transport_stream rs)] w))
    as (st1 & w1 & Hrun1 & Ha1 & _); try assumption; try reflexivity.
  { cbn [data_of flat_map]. now rewrite app_nil_r. }
  { cbn [length]. lia. }
  exists st1, w1, st2, w2. splits; try assumption.
  now rewrite Ha2, Ha1.
Qed.

Lemma split_delivery_same_output_witness :
  exists st1 w1 st2 w2,
    stream_loop 64 64 5 stream_start
      (set_incoming [RecvData (firstn 5 (transport_stream sample_records));
                     RecvData (skipn 5 (transport_stream sample_records))]
         (streaming [])) = (Ret st2, w2) /\
    stream_loop 64 64 5 stream_start
      (set_incoming [RecvData (transport_stream sample_records)] (streaming []))
      = (Ret st1, w1) /\
    artifact (trace w2) = artifact (trace w1) /\
    artifact (trace w1) = artifact (trace (streaming [])) ++ decoded_stream sample_records.
Proof.
  apply (split_delivery_same_output sample_records 5 5 64 (streaming []));
    try reflexivity; try (repeat constructor; fail); try (vm_compute; lia).
Defined.

(** C3 as stated fails: split after the marker bytes of its payload,
    [marker_record]'s stream leaves an empty artifact; delivered whole, it
    leaves the payload; and no amount of fuel makes the two runs agree. *)
Lemma split_after_marker_counterexample :
  well_formed marker_record /\
  data_of marker_split = data_of marker_whole /\
  (exists st1 w1 st2 w2,
     stream_loop 4 4 DEFAULT_PROGRESS_INTERVAL stream_start (streaming marker_split)
       = (Ret st2, w2) /\
     stream_loop 4 4 DEFAULT_PROGRESS_INTERVAL stream_start (streaming marker_whole)
       = (Ret st1, w1) /\
     artifact (trace w2) = [] /\
     artifact (trace w1) = EOT_MARKER ++ [CR; LF]) /\
  ~ (exists fuel st1 w1 st2 w2,
       stream_loop fuel fuel DEFAULT_PROGRESS_INTERVAL stream_start
         (streaming marker_split) = (Ret st2, w2) /\
       stream_loop fuel fuel DEFAULT_PROGRESS_INTERVAL stream_start
         (streaming marker_whole) = (Ret st1, w1) /\
       artifact (trace w2) = artifact (trace w1)).
Proof.
  split; [reflexivity|]. split; [reflexivity|]. split.
  - eexists. eexists. eexists. eexists. vm_compute. splits; reflexivity.
  - intros (fuel & st1 & w1 & st2 & w2 & H2 & H1 & Ha).
    destruct fuel as [|[|[|fuel]]]; vm_compute in H1, H2; try discriminate;
      inversion H1; inversion H2; subst; vm_compute in Ha; discriminate.
Qed.

(** C4: whenever the wait for the header or the busy text returns a buffer
    that holds the busy text (before the header marker or anywhere else),
    [run] raises the busy failure and reports it, once; it has created the
    output artifact and has written no byte to it. *)
Theorem busy_aborts_with_empty_artifact :
  forall (fuel : nat) (cfg : config) (w wp w0 w1 : world) (p : plan) (buf : bytes),
  prepare cfg w = (Ret p, wp) ->
  connect_phase cfg wp = (Ret tt, w0) ->
  wait_header fuel cfg p (opened p w0) = (Ret buf, w1) ->
  contains BUSY_TEXT buf = true ->
  exists w2 t,
    run fuel cfg w = (Raise BackupInProgress, w2) /\
    trace w2 = trace w ++ t /\
    In (EvOpen (out_path p)) t /\
    artifact t = [] /\
    errors_of t = [BackupInProgress].
Proof.
  intros fuel cfg w wp w0 w1 p buf Hp Hc Hw Hb.
  assert (Hs : (b <- wait_header fuel cfg p ;; after_header fuel cfg p b) (opened p w0)
               = (Raise BackupInProgress, emitted [EvStatus StBusy] w1)).
  { unfold bind at 1. rewrite Hw. unfold after_header, SAVELOAD_IN_PROGRESS.
    rewrite compile_literal, Hb.
    unfold bind, _emit_status, raise. now rewrite emit_emitted. }
  rewrite (run_session _ _ _ _ _ _ _ _ Hp Hc Hs).
  destruct (prepare_world _ _ _ _ Hp) as [-> _].
  destruct (connect_phase_returns _ _ _ Hc) as (tc & Htc & Hac & Hec).
  destruct (wait_header_trace _ _ _ _ _ _ Hw)
    as (login & d1 & d2 & d3 & _ & Htw & H1 & H2 & H3 & _).
  eexists. eexists. split; [reflexivity|].
  cbn [aborted emitted set_connected set_trace trace]. rewrite Htw.
  cbn [opened emitted set_trace trace]. rewrite Htc.
  rewrite <- !app_assoc. split; [reflexivity|].
  splits.
  - apply in_or_app. right. cbn. auto.
  - rewrite !artifact_app, Hac, (debug_only_artifact _ H1),
      (debug_only_artifact _ H2), (debug_only_artifact _ H3). reflexivity.
  - rewrite !errors_of_app, Hec, (debug_only_errors _ H1),
      (debug_only_errors _ H2), (debug_only_errors _ H3). reflexivity.
Qed.

Lemma busy_aborts_with_empty_artifact_witness :
  contains BUSY_TEXT (lit "SAVE/LOAD in progress") = true /\
  exists w2,
    run 8 sample_config (fresh [] busy_session) = (Raise BackupInProgress, w2) /\
    artifact (trace w2) = [] /\
    errors_of (trace w2) = [BackupInProgress].
Proof.
  split; [reflexivity|].
  edestruct (busy_aborts_with_empty_artifact 8 sample_config (fresh [] busy_session))
    as (w2 & t & Hrun & Ht & _ & Ha & He); [vm_compute; reflexivity ..|].
  exists w2. rewrite Ht. cbn [fresh trace app]. now splits.
Defined.




(** C6: in the streaming loop a read that times out gives the empty chunk,
    as does a zero-length read; an iteration with an empty chunk, a buffer
    without a complete record and without the end-of-transfer marker goes
    on to the next iteration with the state unchanged; with the connection
    closed this never ends; the loop returns only with the marker in the
    drained buffer, and raises only on cancellation or on an error of the
    transport. *)
Theorem streaming_read_tolerance :
  forall (n fuel : nat) (interval : Z) (st : stream_state) (w : world),
  (forall l, connected w = true -> incoming w = RecvTimeout :: l ->
     read_chunk w = (Ret [], set_incoming l w)) /\
  (forall w1, recv 4096 w = (Ret [], w1) -> read_chunk w = (Ret [], w1)) /\
  (forall w0 w1,
     cancel_requested w = (Ret false, w0) -> read_chunk w0 = (Ret [], w1) ->
     data_rec_search (buffer st) = None ->
     contains EOT_MARKER (buffer st) = false ->
     stream_loop n (S fuel) interval st w = stream_loop n fuel interval st w1) /\
  (connected w = true -> incoming w = [] -> cancel_in w = None ->
     data_rec_search (buffer st) = None ->
     contains EOT_MARKER (buffer st) = false ->
     stream_loop n fuel interval st w = (OutOfFuel, w)) /\
  (forall st' w', stream_loop n fuel interval st w = (Ret st', w') ->
     contains EOT_MARKER (buffer st') = true /\
     data_rec_search (buffer st') = None) /\
  (forall e w', stream_loop n fuel interval st w = (Raise e, w') ->
     e = CancelledByUser \/ io_error e).
Proof.
  intros n fuel interval st w. splits.
  - intros l Hc Hi. unfold read_chunk, try_except, recv. now rewrite Hc, Hi.
  - intros w1 H. unfold read_chunk, try_except. now rewrite H.
  - intros w0 w1 Hc Hr Hs He. cbn [stream_loop].
    unfold bind at 1. rewrite Hc. unfold bind at 1. rewrite Hr.
    unfold bind at 1. cbn [truthy ret]. unfold bind at 1.
    assert (Hd : drain_loop n n interval st w1 = (Ret st, w1))
      by (destruct n; cbn [drain_loop]; now rewrite Hs).
    now rewrite Hd, He.
  - apply stream_loop_closed.
  - intros st' w' H. now apply (stream_loop_exit _ _ _ _ _ _ _ H).
  - intros e w' H. now apply (stream_loop_exit _ _ _ _ _ _ _ H).
Qed.

Lemma streaming_read_tolerance_witness :
  read_chunk (streaming [RecvTimeout; RecvData EOT_MARKER]) =
    (Ret [], streaming [RecvData EOT_MARKER]) /\
  stream_loop 4 3 5 stream_start (streaming [RecvTimeout; RecvData EOT_MARKER]) =
    stream_loop 4 2 5 stream_start (streaming [RecvData EOT_MARKER]) /\
  stream_loop 4 9 5 stream_start (streaming []) = (OutOfFuel, streaming []).
Proof.
  destruct (streaming_read_tolerance 4 2 5 stream_start
              (streaming [RecvTimeout; RecvData EOT_MARKER]))
    as (H1 & _ & H3 & _).
  destruct (streaming_read_tolerance 4 9 5 stream_start (streaming []))
    as (_ & _ & _ & H4 & _).
  split; [apply H1; reflexivity|].
  split; [apply (H3 _ _ eq_refl); reflexivity|].
  apply H4; reflexivity.
Defined.

(** C7, as amended: along every run of the streaming loop, whatever the
    interval, each progress notification carries the next multiple of the
    interval and is emitted when at least that many bytes are written, so
    none exceeds the bytes written in the end, which are the loop's
    [total_written]; with a positive interval the notifications are strictly
    increasing positive multiples of it, and when the run ends (by return
    or by a failure) their number is the quotient of the bytes written by
    the interval. *)
Theorem progress_notifications :
  forall (n fuel : nat) (interval : Z) (w w' : world) (r : outcome stream_state),
  stream_loop n fuel interval stream_start w = (r, w') ->
  exists t,
    trace w' = trace w ++ t /\
    progress_ok interval 0 0 t /\
    Forall (fun v => v <= blen (artifact t)) (progress_of t) /\
    (forall st, r = Ret st -> total_written st = blen (artifact t)) /\
    (0 < interval ->
     StronglySorted Z.lt (progress_of t) /\
     Forall (fun v => exists k, 0 < k /\ v = k * interval) (progress_of t) /\
     (r <> OutOfFuel ->
      Z.of_nat (length (progress_of t)) = blen (artifact t) / interval)).
Proof.
  intros n fuel interval w w' r Hrun.
  destruct (stream_loop_inv interval n fuel stream_start w r w' 0)
    as (t & Ht & Hok & Hfin & Hret);
    [cbn; lia | cbn; lia | assumption |].
  cbn [stream_start total_written last_report] in *.
  exists t. splits; try assumption.
  - apply (progress_ok_bounded interval t 0 0 Hok).
  - intros Hi.
    destruct (progress_ok_values interval Hi t 0 0 ltac:(lia) Hok) as (H1 & H2).
    splits; try assumption.
    + eapply Forall_impl; [|exact H1]. cbn. now intros v [_ Hk].
    + intros Hr. specialize (Hfin Hr ltac:(lia)). fold (plen t).
      apply (Z.div_unique_pos _ _ _ (blen (artifact t) - interval * plen t)); lia.
Qed.

Lemma progress_notifications_witness :
  exists t,
    trace (snd (stream_loop 64 64 5 stream_start (streaming sample_delivery))) =
      trace (streaming sample_delivery) ++ t /\
    progress_of t = [5; 10] /\ blen (artifact t) = 14 /\
    StronglySorted Z.lt (progress_of t) /\
    Z.of_nat (length (progress_of t)) = blen (artifact t) / 5.
Proof.
  destruct (progress_notifications 64 64 5 (streaming sample_delivery)
              (snd (stream_loop 64 64 5 stream_start (streaming sample_delivery)))
              (fst (stream_loop 64 64 5 stream_start (streaming sample_delivery))))
    as (t & Ht & _ & _ & _ & Hpos); [apply surjective_pairing|].
  destruct (Hpos ltac:(lia)) as (Hs & _ & Hn).
  exists t. split; [exact Ht|].
  split; [vm_compute in Ht; subst t; reflexivity|].
  split; [vm_compute in Ht; subst t; reflexivity|].
  split; [exact Hs|]. apply Hn. vm_compute. discriminate.
Defined.

(** C7 as stated fails: it is said of every run, and the progress interval
    may be zero or negative.  Then the first record that is written starts
    a loop of notifications that does not end: the run never returns, and
    the values it emits are the multiples of the interval by 1, 2, 3, ...,
    which do not increase and are not positive multiples. *)
Lemma nonpositive_interval_counterexample :
  progress_of
    (trace (snd (stream_loop 3 1 (-5) stream_start (streaming hello_world_events)))) =
    [-5; -10; -15] /\
  progress_of
    (trace (snd (stream_loop 3 1 0 stream_start (streaming hello_world_events)))) =
    [0; 0; 0] /\
  (forall (n fuel : nat) (interval : Z),
     interval <= 0 ->
     exists w',
       stream_loop (S (S n)) (S fuel) interval stream_start
         (streaming hello_world_events) = (OutOfFuel, w') /\
       artifact (trace w') = lit "hello" ++ [CR; LF] /\
       progress_of (trace w') =
         map (fun k => interval * Z.of_nat (S k)) (seq 0 (S (S n))) /\
       ~ StronglySorted Z.lt (progress_of (trace w'))).
Proof.
  split; [reflexivity|]. split; [reflexivity|].
  intros n fuel interval Hi.
  set (w1 := emitted [EvDebug hello_record]
               (streaming [RecvData world_record; RecvData EOT_MARKER])).
  set (vs := map (fun k => 0 + interval * Z.of_nat (S k)) (seq 0 (S (S n)))).
  assert (Hd : drain_loop (S (S n)) (S (S n)) interval
                 (extended stream_start hello_record) w1 =
               (OutOfFuel,
                emitted (EvWrite (lit "hello" ++ [CR; LF]) :: map EvProgress vs) w1)).
  { cbn [drain_loop].
    change (data_rec_search (buffer (extended stream_start hello_record)))
      with (Some (hello_record, @nil byte)).
    change (payload_of hello_record) with (lit "hello" ++ [CR; LF]).
    unfold bind at 1. rewrite emit_emitted. unfold bind at 1.
    rewrite progress_loop_runs_away; [|exact Hi|cbn; lia].
    now rewrite emitted_app. }
  exists (emitted (EvWrite (lit "hello" ++ [CR; LF]) :: map EvProgress vs) w1).
  assert (Hv : vs = map (fun k => interval * Z.of_nat (S k)) (seq 0 (S (S n))))
    by (apply map_ext; intros k; lia).
  split; [|split; [|split]].
  - cbn [stream_loop].
    erewrite bind_ret by (apply cancel_never; reflexivity). cbv iota.
    erewrite bind_ret
      by exact (eq_refl : read_chunk (streaming hello_world_events) =
                          (Ret hello_record,
                           streaming [RecvData world_record; RecvData EOT_MARKER])).
    fold (extended stream_start hello_record).
    erewrite bind_ret
      by exact (eq_refl : (if truthy hello_record
                           then emit (EvDebug hello_record) else ret tt)
                            (streaming [RecvData world_record; RecvData EOT_MARKER]) =
                          (Ret tt, w1)).
    unfold bind at 1. now rewrite Hd.
  - cbn [emitted set_trace trace w1 streaming app artifact].
    now rewrite artifact_values, app_nil_r.
  - cbn [emitted set_trace trace w1 streaming app progress_of].
    now rewrite progress_of_values.
  - cbn [emitted set_trace trace w1 streaming app progress_of].
    rewrite progress_of_values, Hv. now apply multiples_not_increasing.
Qed.




(** C9, as amended: the command is the verb SAVE or SAVE/Full, a space,
    the sanitized base name and CRLF, with no CRLF after the verb; it is
    the second thing the session sends, after the login line. *)
Theorem save_command_bytes :
  forall (cfg : config) (w : world),
  exists p,
    prepare cfg w = (Ret p, w) /\
    cmd p = (if full cfg then lit "SAVE/Full" else lit "SAVE") ++ lit " " ++
            map byte_of (sanitize (base_name cfg)) ++ [CR; LF] /\
    forallb safe_char (sanitize (base_name cfg)) = true /\
    forall fuel w0 buf w1,
      wait_header fuel cfg p w0 = (Ret buf, w1) ->
      exists login, sent_of (trace w1) = sent_of (trace w0) ++ [login; cmd p].
Proof.
  intros cfg w. destruct (prepare_ok cfg w) as (p & Hp & _ & _ & _ & Hcmd).
  exists p. splits; try assumption.
  - rewrite Hcmd. now destruct (full cfg).
  - apply sanitize_safe.
  - intros fuel w0 buf w1 H.
    apply wait_header_trace in H as (login & d1 & d2 & d3 & _ & Ht & H1 & H2 & H3 & _).
    exists login. rewrite Ht, !sent_of_app.
    rewrite (debug_only_sent _ H1), (debug_only_sent _ H2), (debug_only_sent _ H3).
    reflexivity.
Qed.

Lemma save_command_bytes_witness :
  exists p,
    prepare sample_config (streaming sample_session) =
      (Ret p, streaming sample_session) /\
    cmd p = lit "SAVE my_prog" ++ [CR; LF] /\
    sent_of (trace (snd (wait_header 8 sample_config p (streaming sample_session)))) =
      [lit "as" ++ [CR; LF]; cmd p].
Proof.
  destruct (save_command_bytes sample_config (streaming sample_session))
    as (p & Hp & Hcmd & _ & Hsent).
  exists p. split; [exact Hp|]. split; [rewrite Hcmd; reflexivity|].
  vm_compute in Hp. injection Hp as <-.
  edestruct (Hsent 8%nat (streaming sample_session)) as (login & Hl);
    [vm_compute; reflexivity|].
  vm_compute. reflexivity.
Defined.

(** C9 as stated fails: the command of [sample_config] is SAVE, a space,
    the name and CRLF; the wording with a CRLF after the verb gives other
    bytes. *)
Lemma save_command_counterexample :
  exists p w',
    prepare sample_config (fresh [] []) = (Ret p, w') /\
    cmd p = lit "SAVE my_prog" ++ [CR; LF] /\
    cmd p <> worded_command (full sample_config)
               (map byte_of (sanitize (base_name sample_config))).
Proof.
  eexists. eexists. split; [vm_compute; reflexivity|].
  split; [reflexivity|]. vm_compute. discriminate.
Qed.



(** * Further properties of the client *)

(** ** Names, paths and the command *)

Lemma byte_of_to_N (c : N) : (c < 256)%N -> Byte.to_N (byte_of c) = c.
Proof.
  intros H. unfold byte_of. destruct (Byte.of_N c) as [b|] eqn:E.
  - now apply Byte.to_of_N.
  - apply Byte.of_N_None_iff in E. lia.
Qed.

Lemma safe_char_not_newline (c : N) :
  safe_char c = true -> is_newline (byte_of c) = false.
Proof.
  intros H. pose proof (safe_char_ascii c H) as Hlt.
  pose proof (byte_of_to_N c ltac:(lia)) as Hn.
  unfold is_newline. apply orb_false_iff. split.
  - destruct (Byte.eqb (byte_of c) CR) eqn:E; [|reflexivity].
    apply byte_eqb_eq in E. rewrite E in Hn. cbn in Hn. subst c. discriminate.
  - destruct (Byte.eqb (byte_of c) LF) eqn:E; [|reflexivity].
    apply byte_eqb_eq in E. rewrite E in Hn. cbn in Hn. subst c. discriminate.
Qed.

Lemma safe_bytes_not_newline (s : pystr) :
  forallb safe_char s = true ->
  forallb (fun c => negb (is_newline c)) (map byte_of s) = true.
Proof.
  induction s as [|c s IH]; [reflexivity|].
  cbn [forallb map]. intros H. apply andb_true_iff in H as [Hc Hs].
  now rewrite (safe_char_not_newline c Hc), IH.
Qed.

Lemma sanitize_fixes_safe (s : pystr) : forallb safe_char s = true -> sanitize s = s.
Proof.
  unfold sanitize. induction s as [|c s IH]; [reflexivity|].
  cbn [forallb map]. intros H. apply andb_true_iff in H as [Hc Hs].
  now rewrite Hc, IH.
Qed.

(** X1: sanitizing a base name keeps its length, keeps every character of
    the class [A-Za-z0-9_.-] where it is and puts an underscore in the place
    of every other one; the result holds characters of the class only, and
    sanitizing it again changes nothing. *)
Theorem sanitize_replaces_in_place :
  forall s : pystr,
  length (sanitize s) = length s /\
  (forall i c, nth_error s i = Some c ->
     nth_error (sanitize s) i = Some (if safe_char c then c else 95%N)) /\
  forallb safe_char (sanitize s) = true /\
  sanitize (sanitize s) = sanitize s /\
  (forallb safe_char s = true -> sanitize s = s).
Proof.
  intros s. splits.
  - unfold sanitize. apply length_map.
  - intros i c H. unfold sanitize.
    now rewrite (map_nth_error (fun c => if safe_char c then c else 95%N) _ _ H).
  - apply sanitize_safe.
  - apply sanitize_fixes_safe, sanitize_safe.
  - apply sanitize_fixes_safe.
Qed.

Lemma sanitize_replaces_in_place_witness :
  sanitize (text "my prog/1") = text "my_prog_1" /\
  sanitize (text "my_prog.v2") = text "my_prog.v2".
Proof.
  destruct (sanitize_replaces_in_place (text "my_prog.v2")) as (_ & _ & _ & _ & H).
  split; [reflexivity|]. apply H. reflexivity.
Defined.

(** X2: whatever the base name and whether or not the backup is full, the
    output path is the sanitized name followed by [.as], and the debug path
    is [debug_], the sanitized name, an underscore, the time stamp and
    [.log]; the output path holds characters of the class [A-Za-z0-9_.-]
    only, hence no path separator, and so does the debug path when the time
    stamp does. *)
Theorem paths_are_plain_names :
  forall (cfg : config) (w : world),
  exists p,
    prepare cfg w = (Ret p, w) /\
    out_path p = sanitize (base_name cfg) ++ text ".as" /\
    debug_path p =
      text "debug_" ++ sanitize (base_name cfg) ++ text "_" ++ clock w ++ text ".log" /\
    forallb safe_char (out_path p) = true /\
    (forallb safe_char (clock w) = true -> forallb safe_char (debug_path p) = true).
Proof.
  intros cfg w. unfold prepare, now, bind, encode_str.
  rewrite (encode_save_text _ _ (sanitize_ascii _)).
  eexists. split; [reflexivity|]. cbn [out_path debug_path].
  splits; try reflexivity.
  - now rewrite forallb_app, sanitize_safe.
  - intros H. now rewrite !forallb_app, sanitize_safe, H.
Qed.

Lemma paths_are_plain_names_witness :
  exists p,
    prepare sample_config (fresh [] []) = (Ret p, fresh [] []) /\
    out_path p = text "my_prog.as" /\
    debug_path p = text "debug_my_prog_20240101_000000.log" /\
    forallb safe_char (debug_path p) = true.
Proof.
  destruct (paths_are_plain_names sample_config (fresh [] []))
    as (p & Hp & Ho & Hd & _ & Hs).
  exists p. split; [exact Hp|]. split; [rewrite Ho; reflexivity|].
  split; [rewrite Hd; reflexivity|]. apply Hs. reflexivity.
Defined.

(** X3: the command [run] sends is one line: its last two bytes are CR and
    LF and no byte before them is a CR or an LF, whatever the base name. *)
Theorem command_is_one_line :
  forall (cfg : config) (w wp : world) (p : plan),
  prepare cfg w = (Ret p, wp) ->
  exists line,
    cmd p = line ++ [CR; LF] /\
    forallb (fun c => negb (is_newline c)) line = true.
Proof.
  intros cfg w wp p H. destruct (prepare_world _ _ _ _ H) as (_ & _ & _ & Hc).
  exists (lit "SAVE" ++ (if full cfg then lit "/Full" else []) ++ lit " " ++
          map byte_of (sanitize (base_name cfg))).
  split.
  - rewrite Hc, <- !app_assoc. reflexivity.
  - rewrite !forallb_app, (safe_bytes_not_newline _ (sanitize_safe _)).
    now destruct (full cfg).
Qed.

Lemma command_is_one_line_witness :
  exists line,
    cmd {| safe_name := text "a_b"; ext := text "as"; out_path := text "a_b.as";
           debug_path := text "debug_a_b_20240101_000000.log";
           cmd := lit "SAVE/Full a_b" ++ [CR; LF] |} = line ++ [CR; LF] /\
    forallb (fun c => negb (is_newline c)) line = true.
Proof.
  apply (command_is_one_line
           {| ip := text "h"; base_name := [97; 13; 98]%N; port := 23;
              username := text "as"; full := true; progress_interval := 1;
              socket_timeout := 5; recv_timeout := 10; connect_retries := 1;
              retry_delay := 1 |}
           (fresh [] []) (fresh [] [])).
  reflexivity.
Defined.

(** ** What the patterns match *)

Lemma starts_with_iff (p b : bytes) :
  starts_with p b = true <-> exists t, b = p ++ t.
Proof.
  split.
  - revert b; induction p as [|x p IH]; intros b H.
    + now exists b.
    + destruct b as [|y b]; [discriminate|].
      cbn [starts_with] in H. apply andb_true_iff in H as [Hx Hp].
      apply byte_eqb_eq in Hx. subst y.
      destruct (IH b Hp) as (t & ->). now exists t.
  - intros (t & ->). apply starts_with_app.
Qed.

Lemma contains_iff (p b : bytes) :
  contains p b = true <-> exists pre post, b = pre ++ p ++ post.
Proof.
  split.
  - induction b as [|y b IH]; cbn [contains]; intros H.
    + rewrite orb_false_r in H. apply starts_with_iff in H as (t & Ht).
      now exists [], t.
    + apply orb_true_iff in H as [H|H].
      * apply starts_with_iff in H as (t & Ht). now exists [], t.
      * destruct (IH H) as (pre & post & ->). now exists (y :: pre), post.
  - intros (pre & post & ->). induction pre as [|y pre IH].
    + cbn [app]. pose proof (starts_with_app p post) as H.
      destruct (p ++ post); cbn [contains]; now rewrite H.
    + cbn [app contains]. rewrite IH. apply orb_true_r.
Qed.

Lemma search_iff (r : regex) (b : bytes) :
  is_some (re_search r b) = true <->
  exists pre s, b = pre ++ s /\ is_some (re_match r s) = true.
Proof.
  split.
  - induction b as [|y b IH]; cbn [re_search]; intros H.
    + destruct (re_match r []) eqn:E; [|discriminate].
      exists [], []. now rewrite E.
    + destruct (re_match r (y :: b)) eqn:E.
      * exists [], (y :: b). now rewrite E.
      * destruct (IH H) as (pre & s & -> & Hs). now exists (y :: pre), s.
  - intros (pre & s & -> & Hs). induction pre as [|y pre IH].
    + cbn [app]. destruct (re_match r s) eqn:E; [|discriminate].
      destruct s; cbn [re_search]; now rewrite E.
    + cbn [app re_search]. destruct (re_match r (y :: pre ++ s)); [reflexivity|exact IH].
Qed.

Lemma literal_then (p : bytes) (r : regex) (b : bytes) :
  re_match (literal p ++ r) b =
  if starts_with p b then
    match re_match r (skipn (length p) b) with
    | Some (m, rest) => Some (p ++ m, rest)
    | None => None
    end
  else None.
Proof.
  revert b; induction p as [|x p IH]; intros b.
  - cbn [literal map app starts_with length skipn].
    now destruct (re_match r b) as [[m rest]|].
  - cbn [literal map app re_match]. fold (literal p).
    destruct b as [|y t]; [reflexivity|].
    cbn [eat starts_with length skipn]. rewrite IH.
    destruct (Byte.eqb x y) eqn:E; [|reflexivity].
    apply byte_eqb_eq in E. subst y. cbn [andb].
    destruct (starts_with p t); [|reflexivity].
    now destruct (re_match r (skipn (length p) t)) as [[m rest]|].
Qed.

Lemma skipn_prefix {A} (p t : list A) : skipn (length p) (p ++ t) = t.
Proof. induction p as [|x p IH]; [reflexivity|exact IH]. Qed.

Lemma aux_here (s : bytes) :
  is_some (re_match (literal (lit "AUX") ++ [Any Digit]) s) = true <->
  exists d post, s = lit "AUX" ++ d :: post /\ is_digit d = true.
Proof.
  rewrite literal_then. split.
  - destruct (starts_with (lit "AUX") s) eqn:E; [|discriminate].
    apply starts_with_iff in E as (t & ->). rewrite skipn_prefix.
    destruct t as [|d post]; [discriminate|].
    cbn [re_match eat in_charset]. destruct (is_digit d) eqn:Ed; [|discriminate].
    intros _. now exists d, post.
  - intros (d & post & -> & Hd). rewrite starts_with_app, skipn_prefix.
    cbn [re_match eat in_charset]. now rewrite Hd.
Qed.

(** X4: what the three waits of the handshake wait for.  The login wait
    ends on a buffer that holds the bytes [login:]; the AUX wait on one
    that holds [AUX] followed by an ASCII digit; the header wait on one
    that holds the busy text or the header bytes themselves, the dots of
    the file name standing for dots only. *)
Theorem handshake_patterns :
  forall b : bytes,
  (LOGIN_PROMPT b = true <-> exists pre post, b = pre ++ lit "login:" ++ post) /\
  (AUX_PROMPT b = true <->
   exists pre d post, b = pre ++ lit "AUX" ++ d :: post /\ is_digit d = true) /\
  (forall name e : bytes,
     combined (header_text name e) b = true <->
     (exists pre post, b = pre ++ BUSY_TEXT ++ post) \/
     (exists pre post,
        b = pre ++ (START_HEADER ++ name ++ lit "." ++ e ++ [x17]) ++ post)).
Proof.
  intros b. splits.
  - unfold LOGIN_PROMPT. rewrite compile_literal. apply contains_iff.
  - unfold AUX_PROMPT, compile. cbn [existsb]. rewrite orb_false_r, search_iff.
    split.
    + intros (pre & s & -> & Hs). apply aux_here in Hs as (d & post & -> & Hd).
      now exists pre, d, post.
    + intros (pre & d & post & -> & Hd). exists pre, (lit "AUX" ++ d :: post).
      split; [reflexivity|]. apply aux_here. now exists d, post.
  - intros name e. rewrite combined_contains, orb_true_iff, !contains_iff.
    reflexivity.
Qed.

Lemma handshake_patterns_witness :
  LOGIN_PROMPT (lit "Kawasaki login: ") = true /\
  AUX_PROMPT (lit ">AUX1") = true /\
  AUX_PROMPT (lit ">AUXx") = false /\
  combined (header_text (lit "a.b") (lit "as"))
    (START_HEADER ++ lit "a.b.as" ++ [x17]) = true /\
  combined (header_text (lit "a.b") (lit "as"))
    (START_HEADER ++ lit "axb.as" ++ [x17]) = false.
Proof.
  destruct (handshake_patterns (lit "Kawasaki login: ")) as (H1 & _).
  destruct (handshake_patterns (lit ">AUX1")) as (_ & H2 & _).
  destruct (handshake_patterns (START_HEADER ++ lit "a.b.as" ++ [x17])) as (_ & _ & H3).
  split; [apply H1; now exists (lit "Kawasaki "), (lit " ")|].
  split; [apply H2; now exists (lit ">"), x31, []|].
  split; [reflexivity|].
  split; [apply H3; right; now exists [], []|reflexivity].
Defined.

(** ** What the record pattern finds *)

Lemma match_run_inv (b run rest : bytes) :
  match_run b = Some (run, rest) ->
  b = run ++ CR :: rest /\ line_body run.
Proof.
  unfold line_body. revert run rest; induction b as [|c b IH]; intros run rest;
    [discriminate|].
  cbn [match_run]. destruct (is_newline c) eqn:En.
  - destruct (Byte.eqb c CR) eqn:Ec; [|discriminate].
    apply byte_eqb_eq in Ec. subst c. intros [= <- <-]. now split.
  - destruct (match_run b) as [[r1 r2]|]; [|discriminate].
    intros [= <- <-]. destruct (IH r1 r2 eq_refl) as [-> Hr].
    split; [reflexivity|]. cbn [forallb]. now rewrite En, Hr.
Qed.

Lemma match_marked_inv (b m rest : bytes) :
  match_marked b = Some (m, rest) ->
  exists run, line_body run /\ m = REC_MARKER ++ run ++ [CR] /\
              b = REC_MARKER ++ run ++ CR :: rest.
Proof.
  unfold match_marked. destruct (starts_with REC_MARKER b) eqn:E; [|discriminate].
  apply starts_with_iff in E as (t & ->).
  change (skipn 3 (REC_MARKER ++ t)) with t.
  destruct (match_run t) as [[run r2]|] eqn:Em; [|discriminate].
  intros [= <- <-]. apply match_run_inv in Em as [-> Hr]. now exists run.
Qed.

Lemma match_here_inv (b rec rest : bytes) :
  match_here b = Some (rec, rest) ->
  exists r, well_formed r /\ rec = frame r /\ b = frame r ++ rest.
Proof.
  assert (plain : forall b, match_marked b = Some (rec, rest) ->
            exists r, well_formed r /\ rec = frame r /\ b = frame r ++ rest).
  { intros b' H. apply match_marked_inv in H as (run & Hr & -> & ->).
    exists {| escaped := false; body := run |}. splits; auto.
    rewrite frame_app. reflexivity. }
  unfold match_here. destruct b as [|c t]; [apply plain|].
  destruct (Byte.eqb c ESC) eqn:E; [|apply plain].
  destruct (match_marked t) as [[m r2]|] eqn:Em; [|apply plain].
  apply byte_eqb_eq in E. subst c. intros [= <- <-].
  apply match_marked_inv in Em as (run & Hr & -> & ->).
  exists {| escaped := true; body := run |}. splits; auto.
  rewrite frame_app. reflexivity.
Qed.

Lemma search_inv (b rec rest : bytes) :
  data_rec_search b = Some (rec, rest) ->
  exists junk r, well_formed r /\ rec = frame r /\ b = junk ++ frame r ++ rest.
Proof.
  rewrite search_agrees. induction b as [|c b IH]; cbn [leftmost_record].
  - destruct (match_here []) as [[m r2]|] eqn:E; [|discriminate].
    intros [= <- <-]. apply match_here_inv in E as (r & H1 & H2 & H3).
    now exists [], r.
  - destruct (match_here (c :: b)) as [[m r2]|] eqn:E.
    + intros [= <- <-]. apply match_here_inv in E as (r & H1 & H2 & H3).
      now exists [], r.
    + intros H. destruct (IH H) as (junk & r & H1 & H2 & ->).
      now exists (c :: junk), r.
Qed.

Lemma search_some (junk : bytes) (r : data_record) (rest : bytes) :
  well_formed r -> data_rec_search (junk ++ frame r ++ rest) <> None.
Proof.
  intros H. rewrite search_agrees. induction junk as [|c junk IH].
  - cbn [app]. now rewrite (leftmost_frame r rest H).
  - cbn [app leftmost_record]. now destruct (match_here (c :: junk ++ frame r ++ rest)).
Qed.

(** X5: a search of the record pattern succeeds exactly on a buffer that
    holds a frame: an optional escape byte, the record marker, bytes that
    are no CR and no LF, and a CR.  What it finds is such a frame; the bytes
    in front of the frame are passed over, the bytes after it are what is
    left in the buffer, and the payload taken from the frame is its body
    followed by CR and LF. *)
Theorem record_search_finds_frames :
  forall b : bytes,
  (forall rec rest, data_rec_search b = Some (rec, rest) ->
     exists junk r,
       well_formed r /\ rec = frame r /\ b = junk ++ frame r ++ rest /\
       payload_of rec = body r ++ [CR; LF]) /\
  (forall junk r rest,
     well_formed r -> b = junk ++ frame r ++ rest -> data_rec_search b <> None).
Proof.
  intros b. split.
  - intros rec rest H. apply search_inv in H as (junk & r & Hw & -> & Hb).
    exists junk, r. splits; auto. apply payload_of_frame.
  - intros junk r rest Hw ->. now apply search_some.
Qed.

Lemma record_search_finds_frames_witness :
  data_rec_search (lit "noise" ++ hello_record ++ lit "tail") <> None /\
  exists junk r,
    well_formed r /\
    lit "noise" ++ hello_record ++ lit "tail" = junk ++ frame r ++ lit "tail" /\
    payload_of hello_record = body r ++ [CR; LF].
Proof.
  destruct (record_search_finds_frames (lit "noise" ++ hello_record ++ lit "tail"))
    as [H1 H2].
  split.
  - apply (H2 (lit "noise") {| escaped := false; body := lit "hello" |} (lit "tail"));
      reflexivity.
  - destruct (H1 hello_record (lit "tail") eq_refl) as (junk & r & Hw & _ & Hb & Hp).
    now exists junk, r.
Defined.

(** ** Projections of a trace *)

Lemma debug_of_app (t1 t2 : list event) :
  debug_of (t1 ++ t2) = debug_of t1 ++ debug_of t2.
Proof.
  induction t1 as [|e t1 IH]; [reflexivity|].
  destruct e; cbn [app debug_of]; try exact IH. now rewrite IH, app_assoc.
Qed.

Lemma completions_of_app (t1 t2 : list event) :
  completions_of (t1 ++ t2) = completions_of t1 ++ completions_of t2.
Proof.
  induction t1 as [|e t1 IH]; [reflexivity|].
  destruct e; cbn [app completions_of]; try exact IH. now rewrite IH.
Qed.

Lemma control_of_app (t1 t2 : list event) :
  control_of (t1 ++ t2) = control_of t1 ++ control_of t2.
Proof. apply filter_app. Qed.

Lemma status_of_app (t1 t2 : list event) :
  status_of (t1 ++ t2) = status_of t1 ++ status_of t2.
Proof.
  induction t1 as [|e t1 IH]; [reflexivity|].
  destruct e; cbn [app status_of]; try exact IH. now rewrite IH.
Qed.

Lemma debug_only_debug_of (d : list event) :
  debug_only d -> artifact d = [] /\ control_of d = [] /\ completions_of d = [] /\
                  progress_of d = [].
Proof.
  induction 1 as [|e d He Hd IH]; [now splits|].
  destruct e; try contradiction. exact IH.
Qed.

(** A stretch of trace made of data events only. *)
Lemma data_events_silent (t : list event) :
  Forall (fun e => is_data_event e = true) t ->
  control_of t = [] /\ errors_of t = [] /\ sent_of t = [] /\
  completions_of t = [] /\ status_of t = [].
Proof.
  induction 1 as [|e t He Ht IH]; [now splits|].
  destruct e; try discriminate; exact IH.
Qed.

Lemma debug_only_data (d : list event) :
  debug_only d -> Forall (fun e => is_data_event e = true) d.
Proof.
  induction 1 as [|e d He Hd IH]; constructor; [|exact IH].
  destruct e; try contradiction. reflexivity.
Qed.

(** ** One read of the transport *)

Lemma recv_facts (n : nat) (w : world) :
  exists r w1,
    recv n w = (r, w1) /\ trace w1 = trace w /\ connected w1 = connected w /\
    cancel_in w1 = cancel_in w /\ r <> OutOfFuel /\
    data_of (incoming w) =
      match r with Ret c => c | _ => [] end ++ data_of (incoming w1).
Proof.
  unfold recv. destruct (connected w) eqn:Ec.
  - destruct (incoming w) as [|[c| |errno] l] eqn:Ei.
    + exists (Ret []), w. splits; try reflexivity; try discriminate; try assumption.
      cbn [app]. symmetry. exact (f_equal data_of Ei).
    + destruct (length c <=? n)%nat.
      * eexists; eexists; splits; try reflexivity; try discriminate; assumption.
      * eexists; eexists; splits; try reflexivity; try discriminate; try assumption.
        cbn [set_incoming incoming data_of flat_map].
        now rewrite app_assoc, firstn_skipn.
    + eexists; eexists; splits; try reflexivity; try discriminate; assumption.
    + eexists; eexists; splits; try reflexivity; try discriminate; assumption.
  - eexists; eexists; splits; try reflexivity; try discriminate; assumption.
Qed.

Lemma truthy_false (c : bytes) : truthy c = false -> c = [].
Proof. now destruct c. Qed.

(** ** Every wait returns what it has read *)

Lemma recv_until_loop_facts (fuel : nat) : forall pat buf w r w',
  recv_until_loop fuel pat buf w = (r, w') ->
  exists d,
    trace w' = trace w ++ d /\ debug_only d /\
    connected w' = connected w /\ cancel_in w' = cancel_in w /\
    data_of (incoming w) = debug_of d ++ data_of (incoming w') /\
    (forall b, r = Ret b -> b = buf ++ debug_of d).
Proof.
  induction fuel as [|fuel IH]; intros pat buf w r w' Hrun;
    cbn [recv_until_loop] in Hrun; destruct (pat buf).
  - inversion Hrun; subst. exists []. rewrite !app_nil_r. splits; auto.
    + constructor.
    + intros b [= <-]. reflexivity.
  - inversion Hrun; subst. exists []. rewrite !app_nil_r. splits; auto.
    + constructor.
    + discriminate.
  - inversion Hrun; subst. exists []. rewrite !app_nil_r. splits; auto.
    + constructor.
    + intros b [= <-]. reflexivity.
  - destruct (recv_facts 1024 w) as (r1 & w1 & Hr & Ht & Hc & Hk & Hne & Hd).
    unfold bind at 1 in Hrun. rewrite Hr in Hrun.
    destruct r1 as [chunk|e|]; [| |congruence].
    + destruct (truthy chunk) eqn:Etr.
      * unfold bind at 1 in Hrun. rewrite emit_emitted in Hrun.
        apply IH in Hrun as (d & Hd' & Hdo & Hco & Hko & Hda & Hb).
        exists (EvDebug chunk :: d). splits.
        -- rewrite Hd'. cbn [emitted set_trace trace]. now rewrite Ht, <- app_assoc.
        -- constructor; [exact I|exact Hdo].
        -- rewrite Hco. cbn. exact Hc.
        -- rewrite Hko. cbn. exact Hk.
        -- rewrite Hd. cbn [debug_of]. cbn [emitted set_trace incoming] in Hda.
           now rewrite Hda, app_assoc.
        -- intros b Hr'. rewrite (Hb b Hr'). cbn [debug_of]. now rewrite app_assoc.
      * inversion Hrun; subst. apply truthy_false in Etr. subst chunk.
        exists []. rewrite !app_nil_r. splits; auto.
        -- constructor.
        -- intros b [= <-]. reflexivity.
    + inversion Hrun; subst. exists []. rewrite !app_nil_r. splits; auto.
      * constructor.
      * discriminate.
Qed.

(** X6: [_recv_until] returns exactly the bytes it has taken from the
    transport, in order, and the debug capture receives the same bytes: what
    arrives in the same read after the awaited text is part of the returned
    buffer and is no longer in the transport. *)
Theorem wait_returns_what_it_read :
  forall (fuel : nat) (pat : pattern) (timeout : Q) (status : option status_msg)
         (w w' : world) (buf : bytes),
  _recv_until fuel pat timeout status w = (Ret buf, w') ->
  data_of (incoming w) = buf ++ data_of (incoming w') /\
  exists t, trace w' = trace w ++ t /\ debug_of t = buf /\ artifact t = [].
Proof.
  intros fuel pat timeout status w w' buf H. unfold _recv_until in H.
  apply bind_ret_inv in H as (u1 & wa & Ha & H).
  apply bind_ret_inv in H as (u2 & wb & Hb & H).
  apply settimeout_ret_inv in Hb as [_ ->].
  apply recv_until_loop_facts in H as (d & Hd & Hdo & _ & _ & Hda & Hr).
  specialize (Hr buf eq_refl). cbn [app] in Hr.
  assert (Hw : exists s, wa = emitted s w /\ debug_of s = [] /\ artifact s = []).
  { destruct status.
    - apply emit_ret_inv in Ha. subst wa. now eexists.
    - inversion Ha; subst. exists []. now rewrite emitted_nil. }
  destruct Hw as (s & -> & Hs & Has).
  cbn [emitted set_trace incoming trace] in Hda, Hd. split.
  - now rewrite Hr.
  - exists (s ++ [EvSetTimeout timeout] ++ d). splits.
    + rewrite Hd. now rewrite <- !app_assoc.
    + rewrite !debug_of_app, Hs. cbn. now rewrite Hr.
    + rewrite !artifact_app, Has. cbn. now apply debug_only_artifact.
Qed.

Lemma wait_returns_what_it_read_witness :
  lit "login: " ++ hello_record =
    lit "login: " ++
    data_of (incoming (snd (_recv_until 4 LOGIN_PROMPT 10 None
                              (streaming [RecvData (lit "login: ");
                                          RecvData hello_record])))) /\
  exists t,
    trace (snd (_recv_until 4 LOGIN_PROMPT 10 None
                  (streaming [RecvData (lit "login: "); RecvData hello_record]))) =
      [] ++ t /\
    debug_of t = lit "login: " /\ artifact t = [].
Proof.
  apply (wait_returns_what_it_read 4 LOGIN_PROMPT 10 None
           (streaming [RecvData (lit "login: "); RecvData hello_record])).
  vm_compute. reflexivity.
Defined.





(** ** What the streaming loop adds to the trace, on any input *)

Lemma output_events_data (t : list event) :
  Forall (fun e => is_output_event e = true) t ->
  Forall (fun e => is_data_event e = true) t /\ debug_of t = [].
Proof.
  induction 1 as [|e t He Ht [IH1 IH2]]; [now split|].
  destruct e; try discriminate; (split; [constructor; [reflexivity|exact IH1]|exact IH2]).
Qed.

Lemma progress_loop_facts (fuel : nat) : forall interval total last w r w',
  progress_loop fuel interval total last w = (r, w') ->
  exists t, w' = emitted t w /\ Forall (fun e => is_output_event e = true) t /\
            artifact t = [].
Proof.
  induction fuel as [|fuel IH]; intros interval total last w r w' Hrun;
    cbn [progress_loop] in Hrun; destruct (total >=? last + interval);
    try (inversion Hrun; subst; exists []; rewrite emitted_nil; now splits).
  unfold bind, _emit_progress in Hrun. rewrite emit_emitted in Hrun.
  apply IH in Hrun as (t & -> & Ht & Ha).
  exists (EvProgress (last + interval) :: t). rewrite emitted_app.
  splits; auto.
Qed.

Lemma drain_loop_facts (n fuel : nat) : forall interval st w r w',
  drain_loop n fuel interval st w = (r, w') ->
  exists t rs,
    w' = emitted t w /\ Forall (fun e => is_output_event e = true) t /\
    Forall well_formed rs /\ artifact t = decoded_stream rs.
Proof.
  induction fuel as [|fuel IH]; intros interval st w r w' Hrun;
    cbn [drain_loop] in Hrun;
    destruct (data_rec_search (buffer st)) as [[rec rest]|] eqn:Es;
    try (inversion Hrun; subst; exists [], []; rewrite emitted_nil; now splits).
  apply search_inv in Es as (junk & rc & Hwf & -> & _).
  rewrite payload_of_frame in Hrun.
  unfold bind at 1 in Hrun. rewrite emit_emitted in Hrun.
  unfold bind at 1 in Hrun.
  destruct (progress_loop n interval (total_written st + blen (decoded rc))
              (last_report st) (emitted [EvWrite (decoded rc)] w))
    as [r1 w1] eqn:Ep.
  apply progress_loop_facts in Ep as (t1 & -> & Ht1 & Ha1).
  destruct r1 as [last'|e|].
  - apply IH in Hrun as (t2 & rs & -> & Ht2 & Hrs & Ha2).
    exists (EvWrite (decoded rc) :: t1 ++ t2), (rc :: rs).
    rewrite !emitted_app. splits; auto.
    + constructor; [reflexivity|]. now apply Forall_app.
    + cbn [app artifact]. now rewrite artifact_app, Ha1, Ha2, decoded_stream_cons.
  - inversion Hrun; subst. exists (EvWrite (decoded rc) :: t1), [rc].
    rewrite emitted_app. splits; auto.
    cbn [app artifact]. rewrite Ha1, decoded_stream_cons. reflexivity.
  - inversion Hrun; subst. exists (EvWrite (decoded rc) :: t1), [rc].
    rewrite emitted_app. splits; auto.
    cbn [app artifact]. rewrite Ha1, decoded_stream_cons. reflexivity.
Qed.

Lemma cancel_requested_facts (w : world) :
  exists c w0,
    cancel_requested w = (Ret c, w0) /\ trace w0 = trace w /\
    connected w0 = connected w /\ incoming w0 = incoming w /\
    (cancel_in w = Some O -> c = true /\ w0 = w).
Proof.
  unfold cancel_requested. destruct (cancel_in w) as [[|k]|];
    eexists; eexists; splits; try reflexivity; try discriminate.
  now intros _.
Qed.

Lemma read_chunk_facts (w : world) :
  exists r w1,
    read_chunk w = (r, w1) /\ trace w1 = trace w /\ connected w1 = connected w /\
    cancel_in w1 = cancel_in w /\ r <> OutOfFuel /\
    data_of (incoming w) =
      match r with Ret c => c | _ => [] end ++ data_of (incoming w1).
Proof.
  destruct (recv_facts 4096 w) as (r & w1 & Hr & Ht & Hc & Hk & Hne & Hd).
  unfold read_chunk, try_except. rewrite Hr.
  destruct r as [c|e|]; [| |congruence].
  - exists (Ret c), w1. now splits.
  - destruct (is_timeout e); eexists; eexists; splits; try reflexivity;
      try discriminate; assumption.
Qed.

Lemma debug_copy_facts (chunk : bytes) (w : world) :
  exists t,
    (if truthy chunk then emit (EvDebug chunk) else ret tt) w = (Ret tt, emitted t w) /\
    artifact t = [] /\ Forall (fun e => is_data_event e = true) t /\
    debug_of t = chunk.
Proof.
  destruct chunk; cbn [truthy].
  - exists []. rewrite emitted_nil. now splits.
  - exists [EvDebug (b :: chunk)]. rewrite emit_emitted. splits; auto.
    cbn. now rewrite app_nil_r.
Qed.

Lemma stream_loop_facts (n fuel : nat) : forall interval st w r w',
  stream_loop n fuel interval st w = (r, w') ->
  exists t rs,
    trace w' = trace w ++ t /\ Forall (fun e => is_data_event e = true) t /\
    data_of (incoming w) = debug_of t ++ data_of (incoming w') /\
    Forall well_formed rs /\ artifact t = decoded_stream rs /\
    connected w' = connected w /\
    (cancel_in w = Some O -> cancel_in w' = Some O /\ forall st', r <> Ret st').
Proof.
  induction fuel as [|fuel IH]; intros interval st w r w' Hrun.
  - inversion Hrun; subst. exists [], []. rewrite app_nil_r.
    splits; auto. intros H. split; [exact H|discriminate].
  - cbn [stream_loop] in Hrun.
    destruct (cancel_requested_facts w) as (c & w0 & Hcr & Ht0 & Hc0 & Hi0 & Hk0).
    unfold bind at 1 in Hrun. rewrite Hcr in Hrun.
    destruct c.
    { inversion Hrun; subst. exists [], []. rewrite app_nil_r, Ht0, Hi0.
      splits; auto. intros H. destruct (Hk0 H) as [_ ->]. split; [exact H|discriminate]. }
    assert (Hnot : cancel_in w = Some O -> False)
      by (intros H; now destruct (Hk0 H)).
    destruct (read_chunk_facts w0) as (r1 & w1 & Hrc & Ht1 & Hc1 & Hk1 & Hne1 & Hd1).
    unfold bind at 1 in Hrun. rewrite Hrc in Hrun.
    destruct r1 as [chunk|e|]; [| |congruence].
    2:{ inversion Hrun; subst. exists [], []. rewrite app_nil_r, Ht1, Ht0.
        splits; auto.
        - now rewrite <- Hi0, Hd1.
        - congruence.
        - intros H. now destruct (Hnot H). }
    destruct (debug_copy_facts chunk w1) as (td & Hdbg & Had & Htd & Hdd).
    unfold bind at 1 in Hrun. rewrite Hdbg in Hrun.
    fold (extended st chunk) in Hrun.
    unfold bind at 1 in Hrun.
    destruct (drain_loop n n interval (extended st chunk) (emitted td w1))
      as [r2 w2] eqn:Ed.
    apply drain_loop_facts in Ed as (t2 & rs2 & -> & Ht2 & Hrs2 & Ha2).
    destruct (output_events_data _ Ht2) as [Hda2 Hdb2].
    assert (Hhere :
      trace (emitted t2 (emitted td w1)) = trace w ++ (td ++ t2) /\
      data_of (incoming w) =
        debug_of (td ++ t2) ++ data_of (incoming (emitted t2 (emitted td w1))) /\
      artifact (td ++ t2) = decoded_stream rs2 /\
      connected (emitted t2 (emitted td w1)) = connected w).
    { cbn [emitted set_trace trace incoming connected]. splits.
      - rewrite Ht1, Ht0. now rewrite app_assoc.
      - rewrite debug_of_app, Hdd, Hdb2, app_nil_r. now rewrite <- Hi0, Hd1.
      - now rewrite artifact_app, Had.
      - congruence. }
    destruct Hhere as (Hh1 & Hh2 & Hh3 & Hh4).
    assert (Hall : Forall (fun e => is_data_event e = true) (td ++ t2))
      by (now apply Forall_app).
    destruct r2 as [st2|e|].
    + destruct (contains EOT_MARKER (buffer st2)).
      * inversion Hrun; subst. exists (td ++ t2), rs2. splits; auto.
        intros H. now destruct (Hnot H).
      * apply IH in Hrun as (t3 & rs3 & Ht3 & Hall3 & Hd3 & Hrs3 & Ha3 & Hc3 & _).
        exists ((td ++ t2) ++ t3), (rs2 ++ rs3). splits.
        -- rewrite Ht3, Hh1. now rewrite !app_assoc.
        -- now apply Forall_app.
        -- rewrite Hh2, Hd3, (debug_of_app (td ++ t2)). now rewrite !app_assoc.
        -- now apply Forall_app.
        -- now rewrite artifact_app, Hh3, Ha3, decoded_stream_app.
        -- congruence.
        -- intros H. now destruct (Hnot H).
    + inversion Hrun; subst. exists (td ++ t2), rs2. splits; auto.
      intros H. now destruct (Hnot H).
    + inversion Hrun; subst. exists (td ++ t2), rs2. splits; auto.
      intros H. now destruct (Hnot H).
Qed.

(** ** Relations kept by every step of [run] *)

Section Kept.

Variable R : world -> world -> Prop.
Hypothesis R_refl : forall w, R w w.
Hypothesis R_trans : forall w1 w2 w3, R w1 w2 -> R w2 w3 -> R w1 w3.

Lemma keeps_ret {A} (a : A) : keeps R (ret a).
Proof. intros w r w' [= <- <-]. apply R_refl. Qed.

Lemma keeps_raise {A} (e : failure) : keeps R (@raise A e).
Proof. intros w r w' [= <- <-]. apply R_refl. Qed.

Lemma keeps_bind {A B} (m : M A) (k : A -> M B) :
  keeps R m -> (forall a, keeps R (k a)) -> keeps R (bind m k).
Proof.
  intros Hm Hk w r w' H. unfold bind in H.
  destruct (m w) as [[a|e|] w1] eqn:E.
  - eapply R_trans; [exact (Hm _ _ _ E)|exact (Hk a _ _ _ H)].
  - inversion H; subst. exact (Hm _ _ _ E).
  - inversion H; subst. exact (Hm _ _ _ E).
Qed.

Lemma keeps_try_except {A} (m : M A) (h : failure -> M A) :
  keeps R m -> (forall e, keeps R (h e)) -> keeps R (try_except m h).
Proof.
  intros Hm Hh w r w' H. unfold try_except in H.
  destruct (m w) as [[a|e|] w1] eqn:E.
  - inversion H; subst. exact (Hm _ _ _ E).
  - eapply R_trans; [exact (Hm _ _ _ E)|exact (Hh e _ _ _ H)].
  - inversion H; subst. exact (Hm _ _ _ E).
Qed.

Lemma keeps_finally {A} (m : M A) (f : M unit) :
  keeps R m -> keeps R f -> keeps R (finally m f).
Proof.
  intros Hm Hf w r w' H. unfold finally in H.
  destruct (m w) as [[a|e|] w1] eqn:E; inversion H; subst;
    try (eapply R_trans; [exact (Hm _ _ _ E)|];
         exact (Hf w1 (fst (f w1)) (snd (f w1)) (surjective_pairing _))).
  exact (Hm _ _ _ E).
Qed.

Lemma keeps_encode_str (s : pystr) : keeps R (encode_str s).
Proof. unfold encode_str. destruct (encode s); [apply keeps_ret|apply keeps_raise]. Qed.

Lemma keeps_prepare (cfg : config) : keeps R (prepare cfg).
Proof.
  intros w r w' H. destruct (prepare_ok cfg w) as (p & Hp & _).
  rewrite Hp in H. inversion H; subst. apply R_refl.
Qed.

Lemma keeps_check_seconds (t : Q) : keeps R (check_seconds t).
Proof.
  intros w r w' H.
  destruct (check_seconds_cases t w) as [[_ Hc]|(_ & e & _ & Hc)];
    rewrite Hc in H; inversion H; subst; apply R_refl.
Qed.

Hypothesis keeps_status : forall m, keeps R (_emit_status m).
Hypothesis keeps_timer_set : forall t, keeps R (emit (EvSetTimeout t)).
Hypothesis keeps_sendall : forall data, keeps R (sendall data).
Hypothesis keeps_slept : forall d, keeps R (emit (EvSleep d)).
Hypothesis keeps_open : forall path, keeps R (emit (EvOpen path)).
Hypothesis keeps_close_files : keeps R (emit EvCloseFiles).
Hypothesis keeps_error : forall e, keeps R (_emit_error e).
Hypothesis keeps_complete : forall o d, keeps R (_emit_complete o d).
Hypothesis keeps_cleanup : keeps R cleanup.
Hypothesis keeps_connect : forall host prt, keeps R (connect host prt).
Hypothesis keeps_wait : forall fuel pat buf, keeps R (recv_until_loop fuel pat buf).
Hypothesis keeps_stream :
  forall n fuel interval st, keeps R (stream_loop n fuel interval st).

Lemma keeps_settimeout (t : Q) : keeps R (settimeout t).
Proof.
  unfold settimeout.
  apply keeps_bind; [apply keeps_check_seconds|intros _; apply keeps_timer_set].
Qed.

Lemma keeps_sleep (d : Q) : keeps R (sleep d).
Proof.
  unfold sleep.
  apply keeps_bind; [apply keeps_check_seconds|intros _; apply keeps_slept].
Qed.

Lemma keeps_connect_loop (cfg : config) (attempts : list Z) :
  keeps R (connect_loop cfg attempts).
Proof.
  induction attempts as [|a attempts IH]; cbn [connect_loop]; [apply keeps_ret|].
  apply keeps_try_except.
  - apply keeps_bind; [apply keeps_status|intros _; apply keeps_connect].
  - intros e. destruct (a <? connect_retries cfg).
    + apply keeps_bind; [apply keeps_status|intros _].
      apply keeps_bind; [apply keeps_sleep|intros _; exact IH].
    + apply keeps_bind; [apply keeps_error|intros _; apply keeps_raise].
Qed.

Lemma keeps_connect_phase (cfg : config) : keeps R (connect_phase cfg).
Proof.
  unfold connect_phase.
  apply keeps_bind; [apply keeps_settimeout|intros _; apply keeps_connect_loop].
Qed.

Lemma keeps_recv_until (fuel : nat) (pat : pattern) (timeout : Q)
    (status : option status_msg) :
  keeps R (_recv_until fuel pat timeout status).
Proof.
  unfold _recv_until.
  apply keeps_bind; [destruct status; [apply keeps_status|apply keeps_ret]|intros _].
  apply keeps_bind; [apply keeps_settimeout|intros _; apply keeps_wait].
Qed.

Lemma keeps_wait_header (fuel : nat) (cfg : config) (p : plan) :
  keeps R (wait_header fuel cfg p).
Proof.
  unfold wait_header, _send_and_wait, _wait_for.
  apply keeps_bind; [apply keeps_encode_str|intros login].
  apply keeps_bind; [|intros _].
  { apply keeps_bind; [apply keeps_status|intros _].
    apply keeps_bind; [apply keeps_sendall|intros _; apply keeps_recv_until]. }
  apply keeps_bind; [|intros _].
  { apply keeps_bind; [apply keeps_status|intros _; apply keeps_recv_until]. }
  apply keeps_bind; [apply keeps_status|intros _].
  apply keeps_bind; [apply keeps_sendall|intros _].
  apply keeps_bind; [apply keeps_encode_str|intros name].
  apply keeps_bind; [apply keeps_encode_str|intros e].
  apply keeps_recv_until.
Qed.

Lemma keeps_after_header (fuel : nat) (cfg : config) (p : plan) (buf : bytes) :
  keeps R (after_header fuel cfg p buf).
Proof.
  unfold after_header. destruct (SAVELOAD_IN_PROGRESS buf).
  - apply keeps_bind; [apply keeps_status|intros _; apply keeps_raise].
  - apply keeps_bind; [apply keeps_status|intros _].
    apply keeps_bind; [apply keeps_sendall|intros _].
    apply keeps_bind; [apply keeps_sleep|intros _].
    apply keeps_bind; [apply keeps_sendall|intros _].
    apply keeps_bind; [apply keeps_status|intros _].
    apply keeps_bind; [apply keeps_stream|intros _].
    apply keeps_bind; [apply keeps_status|intros _].
    apply keeps_bind; [apply keeps_complete|intros _; apply keeps_ret].
Qed.

Lemma keeps_session (fuel : nat) (cfg : config) (p : plan) :
  keeps R (session fuel cfg p).
Proof.
  unfold session, with_files.
  apply keeps_bind; [apply keeps_status|intros _].
  apply keeps_bind; [apply keeps_open|intros _].
  apply keeps_bind; [apply keeps_open|intros _].
  apply keeps_finally; [|apply keeps_close_files].
  apply keeps_bind; [apply keeps_wait_header|intro; apply keeps_after_header].
Qed.

Lemma keeps_run (fuel : nat) (cfg : config) : keeps R (run fuel cfg).
Proof.
  unfold run.
  apply keeps_bind; [apply keeps_prepare|intros p].
  apply keeps_bind; [apply keeps_connect_phase|intros _].
  apply keeps_finally; [|apply keeps_cleanup].
  apply keeps_try_except; [apply keeps_session|].
  intros e. apply keeps_bind; [apply keeps_error|intros _; apply keeps_raise].
Qed.

End Kept.

(** A relation that every control event keeps is kept by [run] once the
    connection attempts and the two reading loops keep it. *)
Section KeptByControl.

Variable R : world -> world -> Prop.
Hypothesis R_refl : forall w, R w w.
Hypothesis R_trans : forall w1 w2 w3, R w1 w2 -> R w2 w3 -> R w1 w3.
Hypothesis keeps_emit : forall e, is_data_event e = false -> keeps R (emit e).
Hypothesis keeps_connect : forall host prt, keeps R (connect host prt).
Hypothesis keeps_disconnect : forall w, R w (set_connected false w).
Hypothesis keeps_wait : forall fuel pat buf, keeps R (recv_until_loop fuel pat buf).
Hypothesis keeps_stream :
  forall n fuel interval st, keeps R (stream_loop n fuel interval st).

Lemma control_keeps_sendall (data : bytes) : keeps R (sendall data).
Proof.
  intros w r w' H. unfold sendall in H. destruct (connected w).
  - now apply (keeps_emit (EvSend data) eq_refl w r w').
  - inversion H; subst. apply R_refl.
Qed.

Lemma control_keeps_cleanup : keeps R cleanup.
Proof.
  unfold cleanup.
  apply (keeps_bind R R_trans); [now apply keeps_emit|intros _].
  apply (keeps_bind R R_trans); [now apply keeps_emit|intros _].
  intros w r w' [= <- <-]. apply keeps_disconnect.
Qed.

Lemma control_keeps_run (fuel : nat) (cfg : config) (w : world) :
  R w (snd (run fuel cfg w)).
Proof.
  apply (keeps_run R R_refl R_trans
           (fun m => keeps_emit (EvStatus m) eq_refl)
           (fun t => keeps_emit (EvSetTimeout t) eq_refl)
           control_keeps_sendall
           (fun d => keeps_emit (EvSleep d) eq_refl)
           (fun path => keeps_emit (EvOpen path) eq_refl)
           (keeps_emit EvCloseFiles eq_refl)
           (fun e => keeps_emit (EvError e) eq_refl)
           (fun o d => keeps_emit (EvComplete o d) eq_refl)
           control_keeps_cleanup keeps_connect keeps_wait keeps_stream
           fuel cfg w (fst (run fuel cfg w))).
  apply surjective_pairing.
Qed.

End KeptByControl.

(** ** The three relations *)

Lemma captured_refl (w : world) : captured w w.
Proof. exists []. now rewrite app_nil_r. Qed.

Lemma captured_trans (w1 w2 w3 : world) :
  captured w1 w2 -> captured w2 w3 -> captured w1 w3.
Proof.
  intros (t1 & H1 & D1) (t2 & H2 & D2). exists (t1 ++ t2). split.
  - now rewrite H2, H1, app_assoc.
  - now rewrite D1, D2, debug_of_app, app_assoc.
Qed.

Lemma captured_emit (e : event) : is_data_event e = false -> keeps captured (emit e).
Proof.
  intros He w r w' H. rewrite emit_emitted in H. inversion H; subst.
  exists [e]. split; [reflexivity|]. now destruct e.
Qed.

Lemma captured_connect (host : pystr) (prt : Z) : keeps captured (connect host prt).
Proof.
  intros w r w' H. unfold connect in H. exists [EvConnect host prt].
  destruct (connect_failures w); inversion H; subst; now split.
Qed.

Lemma captured_disconnect (w : world) : captured w (set_connected false w).
Proof. exists []. now rewrite app_nil_r. Qed.

Lemma captured_wait (fuel : nat) (pat : pattern) (buf : bytes) :
  keeps captured (recv_until_loop fuel pat buf).
Proof.
  intros w r w' H. apply recv_until_loop_facts in H as (d & Hd & _ & _ & _ & Hda & _).
  now exists d.
Qed.

Lemma captured_stream (n fuel : nat) (interval : Z) (st : stream_state) :
  keeps captured (stream_loop n fuel interval st).
Proof.
  intros w r w' H. apply stream_loop_facts in H as (t & rs & Ht & _ & Hd & _).
  now exists t.
Qed.

Lemma lined_refl (w : world) : lined w w.
Proof. exists [], []. rewrite app_nil_r. now splits. Qed.

Lemma lined_trans (w1 w2 w3 : world) : lined w1 w2 -> lined w2 w3 -> lined w1 w3.
Proof.
  intros (t1 & r1 & H1 & W1 & A1) (t2 & r2 & H2 & W2 & A2).
  exists (t1 ++ t2), (r1 ++ r2). splits.
  - now rewrite H2, H1, app_assoc.
  - now apply Forall_app.
  - now rewrite artifact_app, A1, A2, decoded_stream_app.
Qed.

Lemma lined_emit (e : event) : is_data_event e = false -> keeps lined (emit e).
Proof.
  intros He w r w' H. rewrite emit_emitted in H. inversion H; subst.
  exists [e], []. splits; auto. now destruct e.
Qed.

Lemma lined_connect (host : pystr) (prt : Z) : keeps lined (connect host prt).
Proof.
  intros w r w' H. unfold connect in H. exists [EvConnect host prt], [].
  destruct (connect_failures w); inversion H; subst; now splits.
Qed.

Lemma lined_wait (fuel : nat) (pat : pattern) (buf : bytes) :
  keeps lined (recv_until_loop fuel pat buf).
Proof.
  intros w r w' H. apply recv_until_loop_facts in H as (d & Hd & Hdo & _).
  exists d, []. splits; auto. now apply debug_only_artifact.
Qed.

Lemma lined_stream (n fuel : nat) (interval : Z) (st : stream_state) :
  keeps lined (stream_loop n fuel interval st).
Proof.
  intros w r w' H. apply stream_loop_facts in H as (t & rs & Ht & _ & _ & Hrs & Ha & _).
  now exists t, rs.
Qed.

Lemma still_cancelled_refl (w : world) : still_cancelled w w.
Proof. intros H. split; [exact H|]. exists []. now rewrite app_nil_r. Qed.

Lemma still_cancelled_trans (w1 w2 w3 : world) :
  still_cancelled w1 w2 -> still_cancelled w2 w3 -> still_cancelled w1 w3.
Proof.
  intros H12 H23 H1. destruct (H12 H1) as (H2 & t1 & Ht1 & A1).
  destruct (H23 H2) as (H3 & t2 & Ht2 & A2). split; [exact H3|].
  exists (t1 ++ t2). split.
  - now rewrite Ht2, Ht1, app_assoc.
  - now rewrite artifact_app, A1, A2.
Qed.

Lemma still_cancelled_emit (e : event) :
  is_data_event e = false -> keeps still_cancelled (emit e).
Proof.
  intros He w r w' H. rewrite emit_emitted in H. inversion H; subst.
  intros Hc. split; [exact Hc|]. exists [e]. split; [reflexivity|]. now destruct e.
Qed.

Lemma still_cancelled_connect (host : pystr) (prt : Z) :
  keeps still_cancelled (connect host prt).
Proof.
  intros w r w' H. unfold connect in H. intros Hc.
  destruct (connect_failures w); inversion H; subst;
    (split; [exact Hc|]; now exists [EvConnect host prt]).
Qed.

Lemma still_cancelled_disconnect (w : world) :
  still_cancelled w (set_connected false w).
Proof. intros Hc. split; [exact Hc|]. exists []. now rewrite app_nil_r. Qed.

Lemma still_cancelled_wait (fuel : nat) (pat : pattern) (buf : bytes) :
  keeps still_cancelled (recv_until_loop fuel pat buf).
Proof.
  intros w r w' H. apply recv_until_loop_facts in H as (d & Hd & Hdo & _ & Hk & _).
  intros Hc. split; [congruence|]. exists d. split; [exact Hd|].
  now apply debug_only_artifact.
Qed.

(** With the flag set the streaming loop stops at its first poll. *)
Lemma stream_cancelled (n fuel : nat) (interval : Z) (st : stream_state)
    (w w' : world) (r : outcome stream_state) :
  cancel_in w = Some O ->
  stream_loop n fuel interval st w = (r, w') ->
  w' = w /\ forall st', r <> Ret st'.
Proof.
  intros Hc H. destruct fuel as [|fuel].
  - inversion H; subst. split; [reflexivity|discriminate].
  - cbn [stream_loop] in H. unfold bind at 1, cancel_requested in H.
    rewrite Hc in H. inversion H; subst. split; [reflexivity|discriminate].
Qed.

Lemma still_cancelled_stream (n fuel : nat) (interval : Z) (st : stream_state) :
  keeps still_cancelled (stream_loop n fuel interval st).
Proof.
  intros w r w' H Hc. destruct (stream_cancelled _ _ _ _ _ _ _ Hc H) as [-> _].
  now apply still_cancelled_refl.
Qed.

Lemma still_cancelled_sendall (data : bytes) : keeps still_cancelled (sendall data).
Proof.
  apply (control_keeps_sendall still_cancelled still_cancelled_refl
           still_cancelled_emit).
Qed.

(** X7: the debug capture of a run is complete and holds nothing else:
    however [run] ends, and whatever the peer sends, the bytes the transport
    held are those copied to the capture, in order, followed by those [run]
    has left unread. *)
Theorem debug_capture_is_complete :
  forall (fuel : nat) (cfg : config) (w : world),
  exists t,
    trace (snd (run fuel cfg w)) = trace w ++ t /\
    data_of (incoming w) = debug_of t ++ data_of (incoming (snd (run fuel cfg w))).
Proof.
  intros fuel cfg w.
  exact (control_keeps_run captured captured_refl captured_trans captured_emit
           captured_connect captured_disconnect captured_wait captured_stream
           fuel cfg w).
Qed.

(** X8: whatever bytes the peer sends and however [run] ends, what [run]
    writes to the output artifact is a sequence of decoded records: each
    the bytes of a payload, none of them a CR or an LF, followed by CR and
    LF. *)
Theorem artifact_is_decoded_records :
  forall (fuel : nat) (cfg : config) (w : world),
  exists t rs,
    trace (snd (run fuel cfg w)) = trace w ++ t /\
    Forall well_formed rs /\
    artifact t = decoded_stream rs.
Proof.
  intros fuel cfg w.
  exact (control_keeps_run lined lined_refl lined_trans lined_emit
           lined_connect (fun w => lined_refl _) lined_wait lined_stream
           fuel cfg w).
Qed.

(** ** How [run] ends *)

Lemma bind_cases {A B} (m : M A) (k : A -> M B) (w w' : world) (r : outcome B) :
  bind m k w = (r, w') ->
  (exists a w1, m w = (Ret a, w1) /\ k a w1 = (r, w')) \/
  (exists e, m w = (Raise e, w') /\ r = Raise e) \/
  (m w = (OutOfFuel, w') /\ r = OutOfFuel).
Proof.
  unfold bind. destruct (m w) as [[a|e|] w1]; intros H.
  - left. now exists a, w1.
  - inversion H; subst. right. left. now exists e.
  - inversion H; subst. right. now right.
Qed.

Lemma connect_events_idle (t : list event) :
  Forall (fun e => is_connect_event e = true) t ->
  completions_of t = [] /\ sent_of t = [] /\ artifact t = [] /\ debug_of t = [] /\
  existsb is_file_or_close t = false.
Proof.
  induction 1 as [|e t He Ht IH]; [now splits|].
  destruct e; try discriminate; exact IH.
Qed.

Lemma talk_events_quiet (t : list event) :
  Forall (fun e => is_talk_event e = true) t ->
  errors_of t = [] /\ completions_of t = [] /\ existsb is_file_or_close t = false.
Proof.
  induction 1 as [|e t He Ht IH]; [now splits|].
  destruct e; try discriminate; exact IH.
Qed.

Lemma data_events_talk (t : list event) :
  Forall (fun e => is_data_event e = true) t ->
  Forall (fun e => is_talk_event e = true) t.
Proof.
  apply Forall_impl. intros e H. now destruct e.
Qed.

Lemma connect_loop_facts (cfg : config) (attempts : list Z) : forall w r w',
  connect_loop cfg attempts w = (r, w') ->
  exists t,
    trace w' = trace w ++ t /\ Forall (fun e => is_connect_event e = true) t /\
    match r with
    | Ret _ => errors_of t = []
    | Raise e => let_out cfg e t /\ connected w' = connected w
    | OutOfFuel => False
    end.
Proof.
  induction attempts as [|a attempts IH]; intros w r w' Hrun; cbn [connect_loop] in Hrun.
  - inversion Hrun; subst. exists []. rewrite app_nil_r. now splits.
  - unfold try_except at 1, bind at 1, _emit_status at 1 in Hrun.
    rewrite emit_emitted in Hrun.
    unfold connect in Hrun. cbn [emitted set_trace connect_failures trace] in Hrun.
    destruct (connect_failures w) as [|e fs].
    + inversion Hrun; subst. eexists. split; [cbn; now rewrite <- app_assoc|].
      split; [repeat constructor|reflexivity].
    + destruct (a <? connect_retries cfg).
      * unfold bind at 1, _emit_status at 1 in Hrun. rewrite emit_emitted in Hrun.
        unfold bind at 1 in Hrun.
        match type of Hrun with
        | context [sleep ?d ?x] =>
            destruct (sleep_cases d x) as [[_ Hs]|(Hv & e' & He' & Hs)];
              rewrite Hs in Hrun
        end.
        -- apply IH in Hrun as (t & Ht & Hall & Hr).
           exists ([EvStatus (StConnecting (ip cfg) (port cfg) a);
                    EvConnect (ip cfg) (port cfg);
                    EvStatus (StRetrying (retry_delay cfg));
                    EvSleep (retry_delay cfg)] ++ t).
           splits.
           ++ rewrite Ht. cbn. now rewrite <- !app_assoc.
           ++ apply Forall_app. split; [repeat constructor|exact Hall].
           ++ destruct r as [u|e'|]; cbn [app errors_of]; auto.
        -- inversion Hrun; subst.
           exists [EvStatus (StConnecting (ip cfg) (port cfg) a);
                   EvConnect (ip cfg) (port cfg);
                   EvStatus (StRetrying (retry_delay cfg))].
           split; [cbn; now rewrite <- !app_assoc|].
           split; [repeat constructor|].
           split; [|reflexivity]. right. split; [reflexivity|]. split; [exact He'|].
           now right.
      * unfold bind, _emit_error, raise in Hrun. rewrite emit_emitted in Hrun.
        inversion Hrun; subst.
        exists [EvStatus (StConnecting (ip cfg) (port cfg) a);
                EvConnect (ip cfg) (port cfg); EvError e].
        split; [cbn; now rewrite <- !app_assoc|].
        split; [repeat constructor|].
        split; [now left|reflexivity].
Qed.

Lemma connect_phase_facts (cfg : config) (w w' : world) (r : outcome unit) :
  connect_phase cfg w = (r, w') ->
  exists t,
    trace w' = trace w ++ t /\ Forall (fun e => is_connect_event e = true) t /\
    match r with
    | Ret _ => errors_of t = []
    | Raise e => let_out cfg e t /\ connected w' = connected w
    | OutOfFuel => False
    end.
Proof.
  unfold connect_phase, bind. intros H.
  destruct (settimeout_cases (socket_timeout cfg) w)
    as [[_ Hs]|(Hv & e & He & Hs)]; rewrite Hs in H.
  - apply connect_loop_facts in H as (t & Ht & Hall & Hr).
    exists (EvSetTimeout (socket_timeout cfg) :: t). splits.
    + rewrite Ht. cbn. now rewrite <- app_assoc.
    + now constructor.
    + destruct r; cbn [errors_of]; auto.
  - inversion H; subst. exists []. rewrite app_nil_r.
    split; [reflexivity|]. split; [constructor|].
    split; [|reflexivity]. right. split; [reflexivity|]. split; [exact He|].
    now left.
Qed.

(** The exchange with the device up to the header keeps to its events. *)
Lemma talks_refl (w : world) : talks w w.
Proof. exists []. rewrite app_nil_r. now split. Qed.

Lemma talks_trans (w1 w2 w3 : world) : talks w1 w2 -> talks w2 w3 -> talks w1 w3.
Proof.
  intros (t1 & H1 & A1) (t2 & H2 & A2). exists (t1 ++ t2). split.
  - now rewrite H2, H1, app_assoc.
  - now apply Forall_app.
Qed.

Lemma talks_emit (e : event) : is_talk_event e = true -> keeps talks (emit e).
Proof.
  intros He w r w' H. rewrite emit_emitted in H. inversion H; subst.
  exists [e]. split; [reflexivity|]. now constructor.
Qed.

Lemma talks_sendall (data : bytes) : keeps talks (sendall data).
Proof.
  intros w r w' H. unfold sendall in H. destruct (connected w).
  - now apply (talks_emit (EvSend data) eq_refl w r w').
  - inversion H; subst. apply talks_refl.
Qed.

Lemma talks_wait (fuel : nat) (pat : pattern) (buf : bytes) :
  keeps talks (recv_until_loop fuel pat buf).
Proof.
  intros w r w' H. apply recv_until_loop_facts in H as (d & Hd & Hdo & _).
  exists d. split; [exact Hd|]. now apply data_events_talk, debug_only_data.
Qed.

Lemma talks_wait_header (fuel : nat) (cfg : config) (p : plan) :
  keeps talks (wait_header fuel cfg p).
Proof.
  apply (keeps_wait_header talks talks_refl talks_trans
           (fun m => talks_emit (EvStatus m) eq_refl)
           (fun t => talks_emit (EvSetTimeout t) eq_refl)
           talks_sendall talks_wait).
Qed.

(** What follows the header: the events, and how it ends. *)
Lemma after_header_facts (fuel : nat) (cfg : config) (p : plan) (buf : bytes)
    (w w' : world) (r : outcome (pystr * pystr)) :
  after_header fuel cfg p buf w = (r, w') ->
  exists t,
    trace w' = trace w ++ t /\ errors_of t = [] /\
    existsb is_file_or_close t = false /\
    match r with
    | Ret out =>
        out = (out_path p, debug_path p) /\
        control_of t = handshake_events ++
          [EvStatus StComplete; EvComplete (out_path p) (debug_path p)] /\
        completions_of t = [out]
    | _ => completions_of t = []
    end.
Proof.
  unfold after_header, _emit_status, _emit_complete, raise. intros H.
  destruct (SAVELOAD_IN_PROGRESS buf).
  { unfold bind in H. rewrite emit_emitted in H. inversion H; subst.
    exists [EvStatus StBusy]. now splits. }
  unfold bind at 1 in H. rewrite emit_emitted in H.
  unfold bind at 1, sendall in H. cbn [emitted set_trace connected trace] in H.
  destruct (connected w) eqn:Ec.
  2:{ inversion H; subst. exists [EvStatus StHandshake]. now splits. }
  unfold bind at 1 in H. rewrite sleep_pause in H.
  unfold bind at 1 in H. cbn [emitted set_trace connected trace] in H. rewrite Ec in H.
  unfold bind at 1 in H. rewrite emit_emitted in H.
  unfold bind at 1 in H.
  match type of H with
  | context [stream_loop fuel fuel ?i ?s ?x] =>
      destruct (stream_loop fuel fuel i s x) as [rs ws] eqn:Es
  end.
  apply stream_loop_facts in Es as (t & rcs & Ht & Hall & _).
  cbn [emitted set_trace trace] in Ht. rewrite <- !app_assoc in Ht. cbn [app] in Ht.
  destruct (data_events_silent _ Hall) as (Hc & He & Hs & Hk & _).
  destruct (talk_events_quiet _ (data_events_talk _ Hall)) as (_ & _ & Hf).
  destruct rs as [st|e|].
  - unfold bind at 1 in H. rewrite emit_emitted in H.
    unfold bind at 1 in H. rewrite emit_emitted in H.
    inversion H; subst.
    exists (handshake_events ++ t ++
            [EvStatus StComplete; EvComplete (out_path p) (debug_path p)]).
    cbn [emitted set_trace trace]. rewrite Ht. splits.
    + unfold handshake_events. cbn [app]. now rewrite <- !app_assoc.
    + now rewrite !errors_of_app, He.
    + now rewrite !existsb_app, Hf.
    + reflexivity.
    + now rewrite !control_of_app, Hc.
    + now rewrite !completions_of_app, Hk.
  - inversion H; subst. exists (handshake_events ++ t). splits.
    + rewrite Ht. reflexivity.
    + now rewrite errors_of_app, He.
    + now rewrite existsb_app, Hf.
    + now rewrite completions_of_app, Hk.
  - inversion H; subst. exists (handshake_events ++ t). splits.
    + rewrite Ht. reflexivity.
    + now rewrite errors_of_app, He.
    + now rewrite existsb_app, Hf.
    + now rewrite completions_of_app, Hk.
Qed.

(** The body of the session: the waits and what follows. *)
Lemma body_facts (fuel : nat) (cfg : config) (p : plan) (w w' : world)
    (r : outcome (pystr * pystr)) :
  (buf <- wait_header fuel cfg p ;; after_header fuel cfg p buf) w = (r, w') ->
  exists t,
    trace w' = trace w ++ t /\ errors_of t = [] /\
    existsb is_file_or_close t = false /\
    match r with
    | Ret out =>
        out = (out_path p, debug_path p) /\ completions_of t = [out] /\
        exists login,
          encode (username cfg ++ text CRLF) = Some login /\
          control_of t =
            login_events cfg login ++ aux_events cfg ++ save_events cfg p ++
            handshake_events ++
            [EvStatus StComplete; EvComplete (out_path p) (debug_path p)]
    | _ => completions_of t = []
    end.
Proof.
  intros H. apply bind_cases in H as [(buf & w1 & Hw & Ha)|[(e & Hw & ->)|[Hw ->]]].
  - apply after_header_facts in Ha as (t2 & Ht2 & He2 & Hf2 & Hr2).
    destruct (talks_wait_header _ _ _ _ _ _ Hw) as (t1 & Ht1 & Hall1).
    destruct (talk_events_quiet _ Hall1) as (He1 & Hk1 & Hf1).
    exists (t1 ++ t2). splits.
    + now rewrite Ht2, Ht1, app_assoc.
    + now rewrite errors_of_app, He1, He2.
    + now rewrite existsb_app, Hf1, Hf2.
    + destruct r as [out|e|].
      * destruct Hr2 as (Ho & Hc2 & Hk2). splits; auto.
        -- now rewrite completions_of_app, Hk1, Hk2.
        -- apply wait_header_trace in Hw
             as (login & d1 & d2 & d3 & Hl & Htw & H1 & H2 & H3 & _).
           exists login. split; [exact Hl|].
           rewrite Htw in Ht1. apply app_inv_head in Ht1. subst t1.
           destruct (debug_only_debug_of _ H1) as (_ & C1 & _).
           destruct (debug_only_debug_of _ H2) as (_ & C2 & _).
           destruct (debug_only_debug_of _ H3) as (_ & C3 & _).
           rewrite !control_of_app, C1, C2, C3, Hc2.
           cbn [app]. rewrite !app_nil_r. now rewrite <- !app_assoc.
      * now rewrite completions_of_app, Hk1, Hr2.
      * now rewrite completions_of_app, Hk1, Hr2.
  - destruct (talks_wait_header _ _ _ _ _ _ Hw) as (t1 & Ht1 & Hall1).
    destruct (talk_events_quiet _ Hall1) as (He1 & Hk1 & Hf1). now exists t1.
  - destruct (talks_wait_header _ _ _ _ _ _ Hw) as (t1 & Ht1 & Hall1).
    destruct (talk_events_quiet _ Hall1) as (He1 & Hk1 & Hf1). now exists t1.
Qed.

(** [run], phase by phase. *)
Lemma run_cases (fuel : nat) (cfg : config) (w w' : world)
    (r : outcome (pystr * pystr)) :
  run fuel cfg w = (r, w') ->
  exists p,
    prepare cfg w = (Ret p, w) /\
    ((exists e, connect_phase cfg w = (Raise e, w') /\ r = Raise e) \/
     (exists w0 rs w1,
        connect_phase cfg w = (Ret tt, w0) /\
        (buf <- wait_header fuel cfg p ;; after_header fuel cfg p buf) (opened p w0)
          = (rs, w1) /\
        (r, w') = match rs with
                  | Ret a => (Ret a, completed w1)
                  | Raise e => (Raise e, aborted e w1)
                  | OutOfFuel => (OutOfFuel, w1)
                  end)).
Proof.
  intros H. destruct (prepare_ok cfg w) as (p & Hp & _). exists p.
  split; [exact Hp|].
  destruct (connect_phase cfg w) as [[[]|e|] w0] eqn:Hc.
  - right.
    destruct ((buf <- wait_header fuel cfg p ;; after_header fuel cfg p buf)
                (opened p w0)) as [rs w1] eqn:Hs.
    exists w0, rs, w1. splits; auto.
    now rewrite <- H, (run_session _ _ _ _ _ _ _ _ Hp Hc Hs).
  - left. exists e. unfold run in H. unfold bind at 1 in H. rewrite Hp in H.
    unfold bind at 1 in H. rewrite Hc in H. inversion H; subst. now split.
  - now apply connect_phase_facts in Hc as (t & _ & _ & []).
Qed.

(** X9: a run tells its end at most once.  When [run] returns, the error
    channel has received nothing and the completion channel exactly the
    pair of paths [run] returns.  When it raises, the completion channel has
    received nothing, and the error channel has received exactly the failure
    raised, once, with one exception: the failure of the timer that refuses
    [socket_timeout] (line 147) or [retry_delay] (line 160) is raised from
    outside the [try] statement and is not reported; no file has been opened
    then and the socket is neither shut down nor closed.  While [run] has
    not ended, neither channel has received anything. *)
Theorem run_reports_its_end :
  forall (fuel : nat) (cfg : config) (w w' : world) (r : outcome (pystr * pystr)),
  run fuel cfg w = (r, w') ->
  exists t,
    trace w' = trace w ++ t /\
    match r with
    | Ret out => errors_of t = [] /\ completions_of t = [out]
    | Raise e =>
        completions_of t = [] /\
        (errors_of t = [e] \/
         (errors_of t = [] /\ timer_error e /\
          existsb is_file_or_close t = false /\
          (valid_seconds (socket_timeout cfg) = false \/
           valid_seconds (retry_delay cfg) = false)))
    | OutOfFuel => errors_of t = [] /\ completions_of t = []
    end.
Proof.
  intros fuel cfg w w' r H.
  apply run_cases in H
    as (p & Hp & [(e & Hc & ->)|(w0 & rs & w1 & Hc & Hs & Hr)]).
  - apply connect_phase_facts in Hc as (t & Ht & Hall & He & _).
    destruct (connect_events_idle _ Hall) as (Hk & _ & _ & _ & Hf).
    exists t. split; [exact Ht|]. split; [exact Hk|].
    destruct He as [He|(He & Hte & Hv)]; [now left|right]. now splits.
  - apply connect_phase_facts in Hc as (tc & Htc & Hallc & Hec).
    destruct (connect_events_idle _ Hallc) as (Hkc & _).
    apply body_facts in Hs as (t & Ht & He & _ & Hk).
    cbn [opened emitted set_trace trace] in Ht.
    destruct rs as [out|e|]; inversion Hr; subst.
    + destruct Hk as (_ & Hk & _).
      exists (tc ++ [EvStatus StConnected; EvOpen (out_path p); EvOpen (debug_path p)]
                 ++ t ++ [EvCloseFiles; EvShutdown; EvClose]).
      cbn [completed emitted set_connected set_trace trace]. rewrite Ht, Htc. split.
      * now rewrite <- !app_assoc.
      * rewrite !errors_of_app, !completions_of_app, Hec, He, Hkc, Hk. now split.
    + exists (tc ++ [EvStatus StConnected; EvOpen (out_path p); EvOpen (debug_path p)]
                 ++ t ++ [EvCloseFiles; EvError e; EvShutdown; EvClose]).
      cbn [aborted emitted set_connected set_trace trace]. rewrite Ht, Htc. split.
      * now rewrite <- !app_assoc.
      * rewrite !errors_of_app, !completions_of_app, Hec, He, Hkc, Hk.
        split; [reflexivity|now left].
    + exists (tc ++ [EvStatus StConnected; EvOpen (out_path p); EvOpen (debug_path p)]
                 ++ t).
      rewrite Ht, Htc. split.
      * now rewrite <- !app_assoc.
      * rewrite !errors_of_app, !completions_of_app, Hec, He, Hkc, Hk. now split.
Qed.

Lemma run_reports_its_end_witness :
  (exists t,
     trace (snd (run 8 sample_config (fresh [] sample_session))) =
       trace (fresh [] sample_session) ++ t /\
     errors_of t = [] /\
     completions_of t =
       [(text "my_prog.as", text "debug_my_prog_20240101_000000.log")]) /\
  (exists t,
     trace (snd (run 8 sample_config (fresh [] silent_session))) =
       trace (fresh [] silent_session) ++ t /\
     completions_of t = [] /\ errors_of t = [SocketTimeout]) /\
  (exists t,
     trace (snd (run 8 negative_delay_config (fresh [SocketTimeout] sample_session))) =
       trace (fresh [SocketTimeout] sample_session) ++ t /\
     completions_of t = [] /\ errors_of t = []).
Proof.
  split; [|split].
  - destruct (run_reports_its_end 8 sample_config (fresh [] sample_session)
                (snd (run 8 sample_config (fresh [] sample_session)))
                (Ret (text "my_prog.as", text "debug_my_prog_20240101_000000.log")))
      as (t & Ht & He & Hk); [vm_compute; reflexivity|].
    exists t. split; [exact Ht|]. split; [exact He|exact Hk].
  - destruct (run_reports_its_end 8 sample_config (fresh [] silent_session)
                (snd (run 8 sample_config (fresh [] silent_session)))
                (Raise SocketTimeout))
      as (t & Ht & Hk & [He|(_ & [Hte|Hte] & _)]);
      [vm_compute; reflexivity| | |]; try discriminate.
    exists t. split; [exact Ht|]. split; [exact Hk|exact He].
  - destruct (run_reports_its_end 8 negative_delay_config
                (fresh [SocketTimeout] sample_session)
                (snd (run 8 negative_delay_config
                        (fresh [SocketTimeout] sample_session)))
                (Raise ValueError))
      as (t & Ht & Hk & He); [vm_compute; reflexivity|].
    exists t. split; [exact Ht|]. split; [exact Hk|].
    vm_compute in Ht. apply (app_inv_head []) in Ht. subst t. reflexivity.
Defined.

(** X10: when the connection phase raises, because the last attempt has
    failed or because the timer refuses [socket_timeout] or [retry_delay],
    [run] raises the same failure from outside its [try] statement: it has
    sent nothing, has opened no file, and has neither shut down nor closed
    the socket.  The failure of a last attempt has been reported once; the
    refusal of the timer has not been reported; so with numbers of seconds
    that the timer accepts the failure raised is the one reported. *)
Theorem failed_connection_leaves_nothing :
  forall (fuel : nat) (cfg : config) (w w1 : world) (e : failure),
  connect_phase cfg w = (Raise e, w1) ->
  run fuel cfg w = (Raise e, w1) /\
  connected w1 = connected w /\
  exists t,
    trace w1 = trace w ++ t /\ sent_of t = [] /\
    existsb is_file_or_close t = false /\
    let_out cfg e t /\
    (valid_seconds (socket_timeout cfg) = true ->
     valid_seconds (retry_delay cfg) = true -> errors_of t = [e]).
Proof.
  intros fuel cfg w w1 e Hc. destruct (prepare_ok cfg w) as (p & Hp & _).
  split.
  - unfold run. unfold bind at 1. rewrite Hp. unfold bind at 1. now rewrite Hc.
  - apply connect_phase_facts in Hc as (t & Ht & Hall & He & Hcon).
    destruct (connect_events_idle _ Hall) as (_ & Hs & _ & _ & Hf).
    split; [exact Hcon|]. exists t. splits; auto.
    intros Hv Hd. destruct He as [He|(_ & _ & [Hn|Hn])]; [exact He| |]; congruence.
Qed.

Lemma failed_connection_leaves_nothing_witness :
  run 8 sample_config (fresh [SocketTimeout; SocketTimeout; TransportError 111] []) =
    (Raise (TransportError 111),
     snd (connect_phase sample_config
            (fresh [SocketTimeout; SocketTimeout; TransportError 111] []))) /\
  exists t,
    trace (snd (connect_phase sample_config
                  (fresh [SocketTimeout; SocketTimeout; TransportError 111] []))) =
      trace (fresh [SocketTimeout; SocketTimeout; TransportError 111] []) ++ t /\
    errors_of t = [TransportError 111] /\ sent_of t = [] /\
    existsb is_file_or_close t = false.
Proof.
  destruct (failed_connection_leaves_nothing 8 sample_config
              (fresh [SocketTimeout; SocketTimeout; TransportError 111] [])
              (snd (connect_phase sample_config
                      (fresh [SocketTimeout; SocketTimeout; TransportError 111] [])))
              (TransportError 111))
    as (Hrun & _ & t & Ht & Hs & Hf & _ & He); [vm_compute; reflexivity|].
  split; [exact Hrun|]. exists t. split; [exact Ht|].
  split; [exact (He eq_refl eq_refl)|]. split; [exact Hs|exact Hf].
Defined.

(** X11: once the connection is made, a run that ends, by return or by a
    failure, has opened its two files first, closes them once, and then
    shuts down and closes the socket; nothing in between opens or closes
    anything, and the socket is left disconnected. *)
Theorem session_end_closes_files_and_socket :
  forall (fuel : nat) (cfg : config) (w wp w0 w' : world) (p : plan)
         (r : outcome (pystr * pystr)),
  prepare cfg w = (Ret p, wp) ->
  connect_phase cfg wp = (Ret tt, w0) ->
  run fuel cfg w = (r, w') ->
  r <> OutOfFuel ->
  connected w' = false /\
  exists t,
    trace w' =
      trace w0 ++
      [EvStatus StConnected; EvOpen (out_path p); EvOpen (debug_path p)] ++ t ++
      [EvCloseFiles] ++
      match r with Raise e => [EvError e] | _ => [] end ++
      [EvShutdown; EvClose] /\
    existsb is_file_or_close t = false.
Proof.
  intros fuel cfg w wp w0 w' p r Hp Hc Hrun Hne.
  destruct ((buf <- wait_header fuel cfg p ;; after_header fuel cfg p buf)
              (opened p w0)) as [rs w1] eqn:Hs.
  rewrite (run_session _ _ _ _ _ _ _ _ Hp Hc Hs) in Hrun.
  apply body_facts in Hs as (t & Ht & _ & Hf & _).
  cbn [opened emitted set_trace trace] in Ht.
  destruct rs as [out|e|]; inversion Hrun; subst; [| |congruence].
  - split; [reflexivity|]. exists t. split; [|exact Hf].
    cbn [completed emitted set_connected set_trace trace]. rewrite Ht.
    now rewrite <- !app_assoc.
  - split; [reflexivity|]. exists t. split; [|exact Hf].
    cbn [aborted emitted set_connected set_trace trace]. rewrite Ht.
    now rewrite <- !app_assoc.
Qed.

Lemma session_end_closes_files_and_socket_witness :
  connected (snd (run 8 sample_config (fresh [] busy_session))) = false /\
  errors_of (trace (snd (run 8 sample_config (fresh [] busy_session)))) =
    [BackupInProgress].
Proof.
  destruct (session_end_closes_files_and_socket 8 sample_config
              (fresh [] busy_session) (fresh [] busy_session)
              (snd (connect_phase sample_config (fresh [] busy_session)))
              (snd (run 8 sample_config (fresh [] busy_session)))
              {| safe_name := text "my_prog"; ext := text "as";
                 out_path := text "my_prog.as";
                 debug_path := text "debug_my_prog_20240101_000000.log";
                 cmd := lit "SAVE my_prog" ++ [CR; LF] |}
              (Raise BackupInProgress))
    as (Hc & t & Ht & Hf);
    [vm_compute; reflexivity | vm_compute; reflexivity | vm_compute; reflexivity
    | discriminate |].
  split; [exact Hc|]. vm_compute. reflexivity.
Defined.

Lemma sent_of_control (t : list event) : sent_of (control_of t) = sent_of t.
Proof.
  induction t as [|e t IH]; [reflexivity|].
  destruct e; cbn [control_of filter is_data_event negb sent_of];
    fold (control_of t); now rewrite ?IH.
Qed.

(** X12: the control events of a run that returns are always the same, in
    the same order: the announcement of the connection, the two files
    opened, the login line sent, the timer set to [recv_timeout] for each of
    the three waits, the command sent, the acknowledgement and the secondary
    header sent with a sleep between them, the completion, the files closed
    and the socket shut down and closed.  So a successful run sends exactly
    four messages, and returns the two paths. *)
Theorem successful_run_events :
  forall (fuel : nat) (cfg : config) (w wp w0 w' : world) (p : plan)
         (out : pystr * pystr),
  prepare cfg w = (Ret p, wp) ->
  connect_phase cfg wp = (Ret tt, w0) ->
  run fuel cfg w = (Ret out, w') ->
  out = (out_path p, debug_path p) /\
  exists login t,
    encode (username cfg ++ text CRLF) = Some login /\
    trace w' = trace w0 ++ t /\
    control_of t = session_events cfg p login /\
    sent_of t = [login; cmd p; ACK_BYTE; SECOND_HEADER].
Proof.
  intros fuel cfg w wp w0 w' p out Hp Hc Hrun.
  destruct ((buf <- wait_header fuel cfg p ;; after_header fuel cfg p buf)
              (opened p w0)) as [rs w1] eqn:Hs.
  rewrite (run_session _ _ _ _ _ _ _ _ Hp Hc Hs) in Hrun.
  apply body_facts in Hs as (t & Ht & _ & _ & Hr).
  cbn [opened emitted set_trace trace] in Ht.
  destruct rs as [out'|e|]; inversion Hrun; subst.
  destruct Hr as (Ho & _ & login & Hl & Hctl). split; [exact Ho|].
  exists login,
    ([EvStatus StConnected; EvOpen (out_path p); EvOpen (debug_path p)] ++ t ++
     [EvCloseFiles; EvShutdown; EvClose]).
  assert (Hall : control_of
            ([EvStatus StConnected; EvOpen (out_path p); EvOpen (debug_path p)] ++ t ++
             [EvCloseFiles; EvShutdown; EvClose]) = session_events cfg p login).
  { rewrite !control_of_app, Hctl. unfold session_events.
    cbn [control_of filter is_data_event negb]. now rewrite <- !app_assoc. }
  splits; auto.
  - cbn [completed emitted set_connected set_trace trace]. rewrite Ht.
    now rewrite <- !app_assoc.
  - rewrite <- sent_of_control, Hall. reflexivity.
Qed.

Lemma successful_run_events_witness :
  exists login t,
    encode (username sample_config ++ text CRLF) = Some login /\
    trace (snd (run 8 sample_config (fresh [] sample_session))) =
      trace (snd (connect_phase sample_config (fresh [] sample_session))) ++ t /\
    sent_of t =
      [login; lit "SAVE my_prog" ++ [CR; LF]; ACK_BYTE; SECOND_HEADER].
Proof.
  destruct (successful_run_events 8 sample_config
              (fresh [] sample_session) (fresh [] sample_session)
              (snd (connect_phase sample_config (fresh [] sample_session)))
              (snd (run 8 sample_config (fresh [] sample_session)))
              {| safe_name := text "my_prog"; ext := text "as";
                 out_path := text "my_prog.as";
                 debug_path := text "debug_my_prog_20240101_000000.log";
                 cmd := lit "SAVE my_prog" ++ [CR; LF] |}
              (text "my_prog.as", text "debug_my_prog_20240101_000000.log"))
    as (_ & login & t & Hl & Ht & _ & Hs);
    [vm_compute; reflexivity | vm_compute; reflexivity | vm_compute; reflexivity |].
  exists login, t. split; [exact Hl|]. split; [exact Ht|exact Hs].
Defined.



(** ** Cancellation *)

Lemma still_cancelled_connect_phase (cfg : config) :
  keeps still_cancelled (connect_phase cfg).
Proof.
  apply (keeps_connect_phase still_cancelled still_cancelled_refl
           still_cancelled_trans
           (fun m => still_cancelled_emit (EvStatus m) eq_refl)
           (fun t => still_cancelled_emit (EvSetTimeout t) eq_refl)
           (fun d => still_cancelled_emit (EvSleep d) eq_refl)
           (fun e => still_cancelled_emit (EvError e) eq_refl)
           still_cancelled_connect).
Qed.

Lemma still_cancelled_wait_header (fuel : nat) (cfg : config) (p : plan) :
  keeps still_cancelled (wait_header fuel cfg p).
Proof.
  apply (keeps_wait_header still_cancelled still_cancelled_refl
           still_cancelled_trans
           (fun m => still_cancelled_emit (EvStatus m) eq_refl)
           (fun t => still_cancelled_emit (EvSetTimeout t) eq_refl)
           still_cancelled_sendall still_cancelled_wait).
Qed.

(** With the flag set, what follows the header never returns. *)
Lemma after_header_cancelled (fuel : nat) (cfg : config) (p : plan) (buf : bytes)
    (w w' : world) (r : outcome (pystr * pystr)) :
  cancel_in w = Some O ->
  after_header fuel cfg p buf w = (r, w') ->
  forall out, r <> Ret out.
Proof.
  unfold after_header, _emit_status, _emit_complete, raise. intros Hc H.
  destruct (SAVELOAD_IN_PROGRESS buf).
  { unfold bind in H. rewrite emit_emitted in H. inversion H; subst. discriminate. }
  unfold bind at 1 in H. rewrite emit_emitted in H.
  unfold bind at 1, sendall in H. cbn [emitted set_trace connected trace] in H.
  destruct (connected w) eqn:Ec; [|inversion H; subst; discriminate].
  unfold bind at 1 in H. rewrite sleep_pause in H.
  unfold bind at 1 in H. cbn [emitted set_trace connected trace] in H. rewrite Ec in H.
  unfold bind at 1 in H. rewrite emit_emitted in H.
  unfold bind at 1 in H.
  match type of H with
  | context [stream_loop fuel fuel ?i ?s ?x] =>
      destruct (stream_loop fuel fuel i s x) as [rs ws] eqn:Es
  end.
  apply stream_cancelled in Es as [_ Hn]; [|exact Hc].
  destruct rs as [st|e|]; [now destruct (Hn st)| |]; inversion H; subst; discriminate.
Qed.

(** X14: the cancellation flag is never cleared by [run].  Once it is set,
    every run of the client leaves it set, writes nothing to the artifact
    and never returns normally, whatever the device does. *)
Theorem cancelled_client_never_completes :
  forall (fuel : nat) (cfg : config) (w : world),
  cancel_in w = Some O ->
  cancel_in (snd (run fuel cfg w)) = Some O /\
  (forall out, fst (run fuel cfg w) <> Ret out) /\
  exists t, trace (snd (run fuel cfg w)) = trace w ++ t /\ artifact t = [].
Proof.
  intros fuel cfg w Hc.
  destruct (control_keeps_run still_cancelled still_cancelled_refl
              still_cancelled_trans still_cancelled_emit still_cancelled_connect
              still_cancelled_disconnect still_cancelled_wait still_cancelled_stream
              fuel cfg w Hc) as (Hk & t & Ht & Ha).
  split; [exact Hk|]. split; [|now exists t].
  intros out Hr.
  destruct (run fuel cfg w) as [r w'] eqn:Hrun. cbn [fst] in Hr. subst r.
  apply run_cases in Hrun
    as (p & Hp & [(e & _ & He)|(w0 & rs & w1 & Hcp & Hs & Hr)]); [discriminate|].
  destruct rs as [out'|e|]; inversion Hr; subst.
  apply bind_ret_inv in Hs as (buf & w2 & Hw & Hah).
  destruct (still_cancelled_connect_phase cfg _ _ _ Hcp Hc) as (Hc0 & _).
  assert (Hco : cancel_in (opened p w0) = Some O) by exact Hc0.
  destruct (still_cancelled_wait_header fuel cfg p _ _ _ Hw Hco) as (Hc2 & _).
  now apply (after_header_cancelled _ _ _ _ _ _ _ Hc2 Hah out').
Qed.

Lemma cancelled_client_never_completes_witness :
  cancel_in (snd (run 8 sample_config (cancelled (fresh [] sample_session)))) = Some O /\
  fst (run 8 sample_config (cancelled (fresh [] sample_session))) =
    Raise CancelledByUser /\
  artifact (trace (snd (run 8 sample_config (cancelled (fresh [] sample_session))))) = [].
Proof.
  destruct (cancelled_client_never_completes 8 sample_config
              (cancelled (fresh [] sample_session)) eq_refl) as (Hk & _ & _).
  split; [exact Hk|]. split; vm_compute; reflexivity.
Defined.

(** X15: the flag is polled in the streaming loop only.  With the flag set
    before [run] starts, and a device that answers the handshake, [run]
    still logs in, sends the command, the acknowledgement and the secondary
    header, and raises the cancellation at the first iteration of the
    streaming loop, before it reads anything more. *)
Theorem cancellation_waits_for_streaming :
  forall (fuel : nat) (cfg : config) (w wp w0 w1 : world) (p : plan) (buf : bytes),
  cancel_in w = Some O ->
  prepare cfg w = (Ret p, wp) ->
  connect_phase cfg wp = (Ret tt, w0) ->
  wait_header (S fuel) cfg p (opened p w0) = (Ret buf, w1) ->
  contains BUSY_TEXT buf = false ->
  run (S fuel) cfg w =
    (Raise CancelledByUser, aborted CancelledByUser (emitted handshake_events w1)) /\
  incoming (aborted CancelledByUser (emitted handshake_events w1)) = incoming w1 /\
  exists login,
    sent_of (trace (aborted CancelledByUser (emitted handshake_events w1))) =
    sent_of (trace w0) ++ [login; cmd p; ACK_BYTE; SECOND_HEADER].
Proof.
  intros fuel cfg w wp w0 w1 p buf Hc Hp Hcp Hw Hb.
  destruct (prepare_world _ _ _ _ Hp) as (-> & _).
  destruct (still_cancelled_connect_phase cfg _ _ _ Hcp Hc) as (Hc0 & _).
  assert (Hco : cancel_in (opened p w0) = Some O) by exact Hc0.
  destruct (still_cancelled_wait_header _ cfg p _ _ _ Hw Hco) as (Hc1 & _).
  destruct (wait_header_trace _ _ _ _ _ _ Hw)
    as (login & d1 & d2 & d3 & _ & Htw & H1 & H2 & H3 & _ & Hcon).
  assert (Hs : (b <- wait_header (S fuel) cfg p ;; after_header (S fuel) cfg p b)
                 (opened p w0) =
               (Raise CancelledByUser, emitted handshake_events w1)).
  { erewrite bind_ret by exact Hw.
    unfold after_header, SAVELOAD_IN_PROGRESS. rewrite compile_literal, Hb.
    unfold _emit_status.
    erewrite bind_ret by apply emit_emitted.
    erewrite bind_ret by (now apply sendall_connected).
    erewrite bind_ret by apply sleep_pause.
    erewrite bind_ret by (now apply sendall_connected).
    erewrite bind_ret by apply emit_emitted.
    unfold bind at 1. cbn [stream_loop]. unfold bind at 1, cancel_requested.
    cbn [emitted set_trace cancel_in]. rewrite Hc1.
    unfold raise. now rewrite !emitted_app. }
  rewrite (run_session _ _ _ _ _ _ _ _ Hp Hcp Hs).
  split; [reflexivity|]. split; [reflexivity|].
  exists login. cbn [aborted emitted set_connected set_trace trace].
  rewrite Htw. cbn [opened emitted set_trace trace].
  rewrite !sent_of_app, (debug_only_sent _ H1), (debug_only_sent _ H2),
    (debug_only_sent _ H3). cbn. now rewrite !app_nil_r, <- !app_assoc.
Qed.

Lemma cancellation_waits_for_streaming_witness :
  exists w',
    run 8 sample_config (cancelled (fresh [] sample_session)) =
      (Raise CancelledByUser, w') /\
    incoming w' = [RecvData hello_record; RecvTimeout; RecvData EOT_MARKER] /\
    sent_of (trace w') =
      [lit "as" ++ [CR; LF]; lit "SAVE my_prog" ++ [CR; LF]; ACK_BYTE; SECOND_HEADER].
Proof.
  destruct (cancellation_waits_for_streaming 7 sample_config
              (cancelled (fresh [] sample_session)) (cancelled (fresh [] sample_session))
              (snd (connect_phase sample_config (cancelled (fresh [] sample_session))))
              (snd (wait_header 8 sample_config
                      {| safe_name := text "my_prog"; ext := text "as";
                         out_path := text "my_prog.as";
                         debug_path := text "debug_my_prog_20240101_000000.log";
                         cmd := lit "SAVE my_prog" ++ [CR; LF] |}
                      (opened
                         {| safe_name := text "my_prog"; ext := text "as";
                            out_path := text "my_prog.as";
                            debug_path := text "debug_my_prog_20240101_000000.log";
                            cmd := lit "SAVE my_prog" ++ [CR; LF] |}
                         (snd (connect_phase sample_config
                                 (cancelled (fresh [] sample_session)))))))
              {| safe_name := text "my_prog"; ext := text "as";
                 out_path := text "my_prog.as";
                 debug_path := text "debug_my_prog_20240101_000000.log";
                 cmd := lit "SAVE my_prog" ++ [CR; LF] |}
              (START_HEADER ++ lit "my_prog.as" ++ [x17]))
    as (Hrun & Hin & login & Hs);
    [reflexivity | vm_compute; reflexivity | vm_compute; reflexivity
    | vm_compute; reflexivity | vm_compute; reflexivity |].
  eexists. split; [exact Hrun|]. split; vm_compute; reflexivity.
Defined.



(** ** A progress interval that is not positive *)

Lemma progress_loop_spins (fuel : nat) : forall interval total last w,
  interval <= 0 -> last <= total ->
  exists t,
    progress_loop fuel interval total last w = (OutOfFuel, emitted t w) /\
    length (progress_of t) = fuel /\ artifact t = [].
Proof.
  induction fuel as [|fuel IH]; intros interval total last w Hi Hl;
    cbn [progress_loop];
    replace (total >=? last + interval) with true
      by (symmetry; apply Z.geb_le; lia).
  - exists []. now rewrite emitted_nil.
  - unfold bind, _emit_progress. rewrite emit_emitted.
    destruct (IH interval total (last + interval)
                (emitted [EvProgress (last + interval)] w) Hi ltac:(lia))
      as (t & Ht & Hn & Ha).
    rewrite Ht. exists (EvProgress (last + interval) :: t).
    rewrite emitted_app. splits; auto. cbn [progress_of length]. now rewrite Hn.
Qed.

(** X17: with a progress interval that is zero or negative, the loop that
    emits the progress notifications never ends: as soon as the buffer holds
    a complete record, the record is written and the decoding does not
    return, however much fuel it is given, and the notifications made grow
    with the fuel. *)
Theorem nonpositive_interval_never_ends :
  forall (n fuel : nat) (interval : Z) (st : stream_state) (w : world)
         (rec rest : bytes),
  interval <= 0 ->
  last_report st <= total_written st ->
  data_rec_search (buffer st) = Some (rec, rest) ->
  exists t,
    drain_loop n (S fuel) interval st w = (OutOfFuel, emitted t w) /\
    artifact t = payload_of rec /\
    length (progress_of t) = n.
Proof.
  intros n fuel interval st w rec rest Hi Hl Hs.
  cbn [drain_loop]. rewrite Hs.
  unfold bind at 1. rewrite emit_emitted. unfold bind at 1.
  destruct (progress_loop_spins n interval
              (total_written st + blen (payload_of rec)) (last_report st)
              (emitted [EvWrite (payload_of rec)] w) Hi)
    as (t & Ht & Hn & Ha).
  { pose proof (blen_nonneg (payload_of rec)). lia. }
  rewrite Ht. exists (EvWrite (payload_of rec) :: t).
  rewrite emitted_app. splits; auto.
  cbn [artifact]. now rewrite Ha, app_nil_r.
Qed.

Lemma nonpositive_interval_never_ends_witness :
  (exists t,
     drain_loop 50 1 0
       {| total_written := 0; last_report := 0; buffer := hello_record |}
       (streaming []) = (OutOfFuel, emitted t (streaming [])) /\
     artifact t = lit "hello" ++ [CR; LF] /\
     length (progress_of t) = 50%nat) /\
  fst (run 50 zero_interval_config (fresh [] sample_session)) = OutOfFuel.
Proof.
  split.
  - apply (nonpositive_interval_never_ends 50 0 0
             {| total_written := 0; last_report := 0; buffer := hello_record |}
             (streaming []) hello_record []); [lia|cbn; lia|reflexivity].
  - vm_compute. reflexivity.
Defined.

(** ** A device that answers *)

Lemma wait_header_answered (fuel : nat) (cfg : config) (p : plan) (w : world)
    (login name e a b h : bytes) (l : list recv_event) :
  valid_seconds (recv_timeout cfg) = true ->
  connected w = true ->
  incoming w = RecvData a :: RecvData b :: RecvData h :: l ->
  encode (username cfg ++ text CRLF) = Some login ->
  encode (safe_name p) = Some name -> encode (ext p) = Some e ->
  (length a <= 1024)%nat -> LOGIN_PROMPT a = true ->
  (length b <= 1024)%nat -> AUX_PROMPT b = true ->
  (length h <= 1024)%nat -> combined (header_text name e) h = true ->
  wait_header (S fuel) cfg p w =
  (Ret h,
   emitted (login_events cfg login ++ [EvDebug a] ++ aux_events cfg ++ [EvDebug b] ++
            save_events cfg p ++ [EvDebug h]) (set_incoming l w)).
Proof.
  intros Hv Hc Hi Hl Hn He La Pa Lb Pb Lh Ph.
  unfold wait_header, _send_and_wait, _wait_for, _emit_status.
  erewrite bind_ret by (apply encode_str_some; exact Hl).
  erewrite bind_ret.
  2:{ erewrite bind_ret by apply emit_emitted.
      erewrite bind_ret by (apply sendall_connected; exact Hc).
      apply (recv_until_answered fuel LOGIN_PROMPT _ None _ a
               (RecvData b :: RecvData h :: l));
        [exact Hv|exact Hc|exact Hi|exact La|reflexivity|exact Pa]. }
  erewrite bind_ret.
  2:{ erewrite bind_ret by apply emit_emitted.
      apply (recv_until_answered fuel AUX_PROMPT _ None _ b (RecvData h :: l));
        [exact Hv|exact Hc|reflexivity|exact Lb|reflexivity|exact Pb]. }
  erewrite bind_ret by apply emit_emitted.
  erewrite bind_ret by (apply sendall_connected; exact Hc).
  erewrite bind_ret by (apply encode_str_some; exact Hn).
  erewrite bind_ret by (apply encode_str_some; exact He).
  rewrite (recv_until_answered fuel _ _ (Some StWaitingHeader) _ h l);
    [|exact Hv|exact Hc|reflexivity|exact Lh|apply combined_nothing|exact Ph].
  repeat (rewrite ?set_incoming_emitted, ?set_incoming_twice, ?emitted_app).
  unfold login_events, aux_events, save_events. cbn [app]. reflexivity.
Qed.

(** X18: [run] from end to end.  [socket_timeout] and [recv_timeout] are
    numbers of seconds that the timer accepts; the connection succeeds at
    the first attempt; the device answers the login line with a read that holds the
    login prompt, then one that holds the AUX prompt, then one that holds
    the header of the sanitized name and not the busy text; it then sends
    well-formed records whose payloads do not hold the end-of-transfer
    marker, and the marker, in reads of any size with any timeouts in
    between.  Then, with a positive progress interval and no cancellation,
    [run] returns the two paths, and what this run wrote to the output
    artifact is the payloads in order, each followed by CR and LF; bytes
    that the read of the header brings after the header are not among
    them. *)
Theorem backup_of_an_answering_device :
  forall (fuel : nat) (cfg : config) (w : world) (login a b h : bytes)
         (rs : list data_record) (events : list recv_event),
  valid_seconds (socket_timeout cfg) = true ->
  valid_seconds (recv_timeout cfg) = true ->
  connect_failures w = [] -> cancel_in w = None ->
  1 <= connect_retries cfg -> 0 < progress_interval cfg ->
  encode (username cfg ++ text CRLF) = Some login ->
  incoming w = RecvData a :: RecvData b :: RecvData h :: events ->
  (length a <= 1024)%nat -> LOGIN_PROMPT a = true ->
  (length b <= 1024)%nat -> AUX_PROMPT b = true ->
  (length h <= 1024)%nat ->
  contains (header_text (map byte_of (sanitize (base_name cfg))) (lit "as")) h = true ->
  contains BUSY_TEXT h = false ->
  Forall well_formed rs -> Forall eot_free rs ->
  quiet events = true -> data_of events = transport_stream rs ->
  (2 * length (transport_stream rs) + length events < fuel)%nat ->
  exists p w',
    prepare cfg w = (Ret p, w) /\
    run fuel cfg w = (Ret (out_path p, debug_path p), w') /\
    artifact (trace w') = artifact (trace w) ++ decoded_stream rs /\
    sent_of (trace w') =
      sent_of (trace w) ++ [login; cmd p; ACK_BYTE; SECOND_HEADER] /\
    errors_of (trace w') = errors_of (trace w).
Proof.
  intros fuel cfg w login a b h rs events Hvs Hvr Hcf Hk Hn Hi Hl Hin La Pa Lb Pb Lh
    Ph Hb Hwf Hef Hq Hd Hf.
  destruct fuel as [|fuel]; [lia|].
  destruct (prepare_ok cfg w) as (p & Hp & Hname & Hext & _).
  assert (Hc : connect_phase cfg w =
               (Ret tt,
                attempted [] true
                  (EvSetTimeout (socket_timeout cfg) :: attempt_events cfg 1) w)).
  { unfold connect_phase. erewrite bind_ret by (apply settimeout_valid; exact Hvs).
    rewrite (connect_loop_succeeds cfg [] 1); [|now left|exact Hcf|cbn [length]; lia].
    cbn [length Z.of_nat]. rewrite Z.add_0_r, (py_range_empty 1 1) by lia.
    cbn [flat_map app]. now rewrite attempted_emitted. }
  set (w0 := attempted [] true
               (EvSetTimeout (socket_timeout cfg) :: attempt_events cfg 1) w) in *.
  pose (hs := login_events cfg login ++ [EvDebug a] ++ aux_events cfg ++ [EvDebug b] ++
              save_events cfg p ++ [EvDebug h]).
  assert (Hw : wait_header (S fuel) cfg p (opened p w0) =
               (Ret h, emitted hs (set_incoming events (opened p w0)))).
  { apply (wait_header_answered fuel cfg p _ login
             (map byte_of (sanitize (base_name cfg))) (lit "as")); auto.
    - rewrite Hname. apply encode_ascii, sanitize_ascii.
    - rewrite Hext. reflexivity.
    - rewrite combined_contains, Ph. apply orb_true_r. }
  set (w1 := emitted hs (set_incoming events (opened p w0))) in *.
  destruct (delivery_from_start (progress_interval cfg) Hi rs events (S fuel)
              (emitted handshake_events w1))
    as (st & w2 & Hst & Ha2 & _); auto.
  assert (Hs : (buf <- wait_header (S fuel) cfg p ;; after_header (S fuel) cfg p buf)
                 (opened p w0) =
               (Ret (out_path p, debug_path p),
                emitted [EvStatus StComplete; EvComplete (out_path p) (debug_path p)]
                  w2)).
  { erewrite bind_ret by exact Hw.
    unfold after_header, SAVELOAD_IN_PROGRESS. rewrite compile_literal, Hb.
    unfold _emit_status, _emit_complete.
    erewrite bind_ret by apply emit_emitted.
    erewrite bind_ret by (now apply sendall_connected).
    erewrite bind_ret by apply sleep_pause.
    erewrite bind_ret by (now apply sendall_connected).
    erewrite bind_ret by apply emit_emitted.
    rewrite !emitted_app. change ([EvStatus StHandshake] ++ [EvSend ACK_BYTE] ++
      [EvSleep (1 # 20)%Q] ++ [EvSend SECOND_HEADER] ++ [EvStatus StReceiving])
      with handshake_events.
    erewrite bind_ret by exact Hst.
    erewrite bind_ret by apply emit_emitted.
    erewrite bind_ret by apply emit_emitted.
    now rewrite emitted_app. }
  exists p. eexists. split; [exact Hp|].
  rewrite (run_session _ _ _ _ _ _ _ _ Hp Hc Hs). split; [reflexivity|].
  destruct (stream_loop_facts _ _ _ _ _ _ _ Hst)
    as (t & rcs & Ht & Hall & _).
  destruct (data_events_silent _ Hall) as (_ & He & Hsn & _).
  cbn [completed emitted set_connected set_trace trace]. splits.
  - rewrite !artifact_app, Ha2. cbn [artifact app]. rewrite !app_nil_r.
    f_equal. unfold w1, hs, w0, opened, attempted, emitted, set_incoming, set_trace.
    cbn [trace]. rewrite !artifact_app. cbn. now rewrite !app_nil_r.
  - rewrite !sent_of_app, Ht, sent_of_app, Hsn. cbn [sent_of app]. rewrite !app_nil_r.
    unfold w1, hs, w0, opened, attempted, emitted, set_incoming, set_trace.
    cbn [trace]. rewrite !sent_of_app. cbn. now rewrite !app_nil_r, <- !app_assoc.
  - rewrite !errors_of_app, Ht, errors_of_app, He. cbn [errors_of app].
    rewrite !app_nil_r.
    unfold w1, hs, w0, opened, attempted, emitted, set_incoming, set_trace.
    cbn [trace]. rewrite !errors_of_app. cbn. now rewrite !app_nil_r.
Qed.

Lemma backup_of_an_answering_device_witness :
  exists p w',
    prepare sample_config (fresh [] eager_session) = (Ret p, fresh [] eager_session) /\
    run 64 sample_config (fresh [] eager_session) =
      (Ret (out_path p, debug_path p), w') /\
    artifact (trace w') = lit "hello" ++ [CR; LF] ++ lit "world" ++ [CR; LF].
Proof.
  destruct (backup_of_an_answering_device 64 sample_config (fresh [] eager_session)
              (lit "as" ++ [CR; LF]) (lit "login:") (lit ">AUX1")
              (START_HEADER ++ lit "my_prog.as" ++ [x17] ++
               REC_MARKER ++ lit "first" ++ [CR])
              sample_records [RecvData (transport_stream sample_records)])
    as (p & w' & Hp & Hrun & Ha & _);
    try reflexivity; try (cbn; lia); try (repeat constructor; fail);
    try (vm_compute; lia).
  exists p, w'. split; [exact Hp|]. split; [exact Hrun|]. rewrite Ha. reflexivity.
Defined.

(** X19: a client built with the defaults of the constructor makes a single
    connection attempt, on port 23 with a socket timeout of 5 seconds: when
    that attempt fails, [run] reports the failure and raises it, without a
    retry status, a sleep or a second attempt. *)
Theorem default_client_tries_once :
  forall (fuel : nat) (host name : pystr) (w : world) (e : failure)
         (fs : list failure),
  connect_failures w = e :: fs ->
  exists w',
    run fuel (default_config host name) w = (Raise e, w') /\
    connect_failures w' = fs /\
    trace w' =
      trace w ++
      [EvSetTimeout 5; EvStatus (StConnecting host 23 1); EvConnect host 23;
       EvError e].
Proof.
  intros fuel host name w e fs Hf.
  destruct (prepare_ok (default_config host name) w) as (p & Hp & _).
  assert (Hc : connect_phase (default_config host name) w =
               (Raise e,
                attempted fs (connected w)
                  [EvSetTimeout 5; EvStatus (StConnecting host 23 1);
                   EvConnect host 23; EvError e] w)).
  { unfold connect_phase. erewrite bind_ret by (now apply settimeout_valid).
    rewrite (connect_loop_gives_up (default_config host name) [] 1 _ e fs);
      [|now left|exact Hf|reflexivity].
    cbn [default_config connect_retries]. rewrite (py_range_empty 1 1) by lia.
    cbn [flat_map app]. now rewrite attempted_emitted. }
  eexists. split.
  - unfold run. unfold bind at 1. rewrite Hp. unfold bind at 1. rewrite Hc.
    reflexivity.
  - split; reflexivity.
Qed.

Lemma default_client_tries_once_witness :
  exists w',
    run 8 (default_config (text "10.0.0.1") (text "prog"))
      (fresh [TransportError 111] sample_session) = (Raise (TransportError 111), w') /\
    connects (trace w') = 1%nat /\
    retry_statuses (trace w') = 0%nat.
Proof.
  destruct (default_client_tries_once 8 (text "10.0.0.1") (text "prog")
              (fresh [TransportError 111] sample_session) (TransportError 111) [])
    as (w' & Hrun & _ & Ht); [reflexivity|].
  exists w'. split; [exact Hrun|]. rewrite Ht. split; reflexivity.
Defined.

(** ** A transfer that is interrupted *)

Lemma poll_passes (w : world) (k : nat) :
  cancel_in w = None \/ (exists c, cancel_in w = Some c /\ (S k <= c)%nat) ->
  exists w0,
    cancel_requested w = (Ret false, w0) /\ trace w0 = trace w /\
    connected w0 = connected w /\ incoming w0 = incoming w /\
    cancel_in w0 = polls_left 1 (cancel_in w).
Proof.
  unfold cancel_requested. intros [H|(c & H & Hc)]; rewrite H.
  - exists w. now splits.
  - destruct c as [|c]; [lia|]. eexists. splits; try reflexivity.
    cbn. now rewrite Nat.sub_0_r.
Qed.

Lemma read_chunk_small (w : world) (e : recv_event) (l : list recv_event) :
  connected w = true -> incoming w = e :: l -> quiet [e] = true -> small_read e ->
  read_chunk w = (Ret (data_of [e]), set_incoming l w).
Proof.
  intros Hc Hi Hq Hs. unfold read_chunk, try_except, recv. rewrite Hc, Hi.
  destruct e as [c| |errno]; [| |discriminate].
  - cbn in Hs. apply Nat.leb_le in Hs. rewrite Hs. cbn. now rewrite app_nil_r.
  - reflexivity.
Qed.

Lemma polls_left_add (j k : nat) (c : option nat) :
  polls_left k (polls_left j c) = polls_left (j + k) c.
Proof. destruct c; cbn; [f_equal; lia|reflexivity]. Qed.

Section Interrupted.

Variable interval : Z.
Hypothesis interval_pos : 0 < interval.

(** The streaming loop over the reads that come before the interruption:
    it goes through one iteration a read, writes the records these reads
    complete, and is then where it was, with less fuel. *)
Lemma stream_prefix (n : nat) (tail : list recv_event) (d : bytes) :
  forall pre rs st w,
  quiet pre = true -> Forall small_read pre ->
  Forall well_formed rs -> Forall eot_free rs ->
  buffer st ++ data_of pre ++ d = transport_stream rs -> d <> [] ->
  no_cr (buffer st) = true ->
  last_report st <= total_written st ->
  (inner_budget st rs <= n)%nat ->
  connected w = true -> incoming w = pre ++ tail ->
  cancel_in w = None \/ (exists c, cancel_in w = Some c /\ (length pre <= c)%nat) ->
  exists st' w' t rs1 rs2,
    (forall f, stream_loop n (length pre + f) interval st w =
               stream_loop n f interval st' w') /\
    rs = rs1 ++ rs2 /\
    buffer st ++ data_of pre = concat (map frame rs1) ++ buffer st' /\
    no_cr (buffer st') = true /\
    trace w' = trace w ++ t /\ artifact t = decoded_stream rs1 /\
    connected w' = true /\ incoming w' = tail /\
    cancel_in w' = polls_left (length pre) (cancel_in w).
Proof.
  induction pre as [|e pre IH];
    intros rs st w Hq Hsm Hwf Hef Hs Hd Hnc Hl Hn Hc Hin Hk.
  - exists st, w, [], [], rs. splits; auto.
    + cbn. now rewrite app_nil_r.
    + now rewrite app_nil_r.
    + destruct (cancel_in w); cbn; [f_equal; lia|reflexivity].
  - cbn [quiet forallb] in Hq. apply andb_true_iff in Hq as [Hqe Hq].
    inversion Hsm as [|? ? Hse Hsm']; subst.
    destruct (poll_passes w (length pre)) as (w0 & Hp & Ht0 & Hc0 & Hi0 & Hk0).
    { destruct Hk as [Hk|(c & Hk & Hle)]; [now left|right].
      exists c. split; [exact Hk|exact Hle]. }
    assert (Hr : read_chunk w0 = (Ret (data_of [e]), set_incoming (pre ++ tail) w0)).
    { apply read_chunk_small; try assumption.
      - congruence.
      - now rewrite Hi0, Hin.
      - cbn [quiet forallb]. now rewrite Hqe. }
    set (chunk := data_of [e]) in *.
    assert (Hde : data_of (e :: pre) = chunk ++ data_of pre).
    { unfold chunk, data_of. cbn [flat_map]. now rewrite app_nil_r. }
    set (w1 := set_incoming (pre ++ tail) w0) in *.
    destruct (debug_copy_facts chunk w1) as (td & Hdbg & Had & _ & _).
    destruct (extended_fields st chunk) as (Eb & Et & El).
    rewrite Hde, <- app_assoc, app_assoc in Hs.
    destruct (split_prefix rs _ _ Hwf Hef Hs)
      as (rs1 & rs2 & q & Ers & Ep & Eq & Hq0 & Heot).
    assert (Hwf12 : Forall well_formed rs1 /\ Forall well_formed rs2)
      by (rewrite Ers in Hwf; now apply Forall_app in Hwf).
    assert (Hef2 : Forall eot_free rs2)
      by (rewrite Ers in Hef; now apply Forall_app in Hef).
    destruct Hwf12 as [Hwf1 Hwf2].
    pose proof (blen_nonneg (decoded_stream rs1)) as Hd1.
    pose proof (blen_nonneg (decoded_stream rs2)) as Hd2.
    assert (Hdec : blen (decoded_stream rs) =
                   blen (decoded_stream rs1) + blen (decoded_stream rs2))
      by (now rewrite Ers, decoded_stream_app, blen_app).
    assert (Hlen : (length rs = length rs1 + length rs2)%nat)
      by (now rewrite Ers, length_app).
    unfold inner_budget in Hn.
    destruct (drain_frames interval interval_pos rs1 n n (extended st chunk)
                (emitted td w1) q)
      as (st2 & t2 & Hdr & Hb2 & Ht2 & Hl2 & Ha2); try assumption; try lia.
    { now rewrite Eb. }
    assert (Hq2 : contains EOT_MARKER q = false).
    { destruct (contains EOT_MARKER q) eqn:E; [|reflexivity].
      destruct (Heot eq_refl) as [_ Hnil].
      apply app_eq_nil in Hnil as [_ Hnil]. contradiction. }
    destruct (IH rs2 st2 (emitted t2 (emitted td w1)))
      as (st' & w' & t & rs1' & rs2' & Hrun & Ers2 & Hbuf & Hnc' & Htr & Hart &
          Hcon & Hinc & Hkk); try assumption.
    { now rewrite Hb2. }
    { now rewrite Hb2. }
    { lia. }
    { unfold inner_budget. lia. }
    { cbn. congruence. }
    { reflexivity. }
    { cbn [emitted set_trace cancel_in w1 set_incoming]. rewrite Hk0.
      destruct Hk as [Hk|(c & Hk & Hle)]; rewrite Hk; [now left|right].
      cbn in *. exists (c - 1)%nat. split; [reflexivity|lia]. }
    exists st', w', (td ++ t2 ++ t), (rs1 ++ rs1'), rs2'. splits.
    + intros f. cbn [length Nat.add stream_loop].
      unfold bind at 1. rewrite Hp.
      unfold bind at 1. rewrite Hr.
      unfold bind at 1. rewrite Hdbg.
      fold (extended st chunk).
      unfold bind at 1. rewrite Hdr, Hb2, Hq2. apply Hrun.
    + now rewrite Ers, Ers2, app_assoc.
    + rewrite Hde, app_assoc, Ep, map_app, concat_app, <- !app_assoc.
      f_equal. rewrite <- Hb2. exact Hbuf.
    + exact Hnc'.
    + rewrite Htr. cbn [emitted set_trace trace w1 set_incoming]. rewrite Ht0.
      now rewrite <- !app_assoc.
    + now rewrite !artifact_app, Had, Ha2, Hart, decoded_stream_app.
    + exact Hcon.
    + exact Hinc.
    + rewrite Hkk. cbn [emitted set_trace cancel_in w1 set_incoming]. rewrite Hk0.
      rewrite polls_left_add. reflexivity.
Qed.

End Interrupted.

(** X21: a transfer cut short by an error of the socket.  The device
    sends well-formed records whose payloads do not hold the
    end-of-transfer marker; the reads that come first bring a part of that
    stream that stops before its end, each read at most 4096 bytes, with
    timeouts in between and no error; the next read meets an error of the
    socket whose number is not [ETIMEDOUT]; the progress interval is
    positive and nobody cancels.  Then the streaming loop raises that error,
    nothing is read after it, and the output artifact holds exactly the
    records that had arrived complete, decoded and in order: nothing of a
    record that had only partly arrived is written. *)
Theorem transport_error_keeps_complete_records :
  forall (rs : list data_record) (pre rest : list recv_event) (d : bytes)
         (errno interval : Z) (fuel : nat) (w : world),
  Forall well_formed rs -> Forall eot_free rs ->
  quiet pre = true -> Forall small_read pre ->
  data_of pre ++ d = transport_stream rs -> d <> [] ->
  errno <> ETIMEDOUT ->
  0 < interval ->
  connected w = true -> cancel_in w = None ->
  incoming w = pre ++ RecvError errno :: rest ->
  (length (transport_stream rs) + length pre < fuel)%nat ->
  exists w' rs1 rs2 q,
    stream_loop fuel fuel interval stream_start w = (Raise (TransportError errno), w') /\
    rs = rs1 ++ rs2 /\
    data_of pre = concat (map frame rs1) ++ q /\ no_cr q = true /\
    artifact (trace w') = artifact (trace w) ++ decoded_stream rs1 /\
    incoming w' = rest.
Proof.
  intros rs pre rest d errno interval fuel w Hwf Hef Hq Hsm Hs Hd Hno Hi Hc Hk Hin Hf.
  pose proof (inner_budget_start rs) as Hb.
  destruct (stream_prefix interval Hi fuel (RecvError errno :: rest) d pre rs
              stream_start w)
    as (st' & w' & t & rs1 & rs2 & Hrun & Ers & Hbuf & Hnc & Htr & Hart &
        Hcon & Hinc & Hkk); try assumption; try reflexivity; try lia.
  { now left. }
  specialize (Hrun (S (fuel - length pre - 1))).
  replace (length pre + S (fuel - length pre - 1))%nat with fuel in Hrun by lia.
  rewrite Hrun. cbn [stream_loop].
  rewrite Hk in Hkk. cbn in Hkk.
  unfold bind at 1. rewrite (cancel_never _ Hkk).
  unfold bind at 1, read_chunk, try_except, recv. rewrite Hcon, Hinc.
  destruct (os_error_cases errno) as [[He _]|[He ->]]; [contradiction|].
  cbn [is_timeout]. apply Z.eqb_neq in He. rewrite He.
  exists (set_incoming rest w'), rs1, rs2, (buffer st'). splits; auto.
  cbn [set_incoming trace]. now rewrite Htr, artifact_app, Hart.
Qed.

Lemma transport_error_keeps_complete_records_witness :
  exists w' rs1 rs2 q,
    stream_loop 64 64 5 stream_start
      (streaming (interrupted_delivery ++ [RecvError 104])) =
      (Raise (TransportError 104), w') /\
    sample_records = rs1 ++ rs2 /\
    data_of interrupted_delivery = concat (map frame rs1) ++ q /\ no_cr q = true /\
    artifact (trace w') = [] ++ decoded_stream rs1.
Proof.
  destruct (transport_error_keeps_complete_records sample_records
              interrupted_delivery [] (skipn 13 (transport_stream sample_records))
              104 5 64 (streaming (interrupted_delivery ++ [RecvError 104])))
    as (w' & rs1 & rs2 & q & Hrun & Ers & Hd & Hq & Ha & _);
    [repeat constructor | repeat constructor | reflexivity
    | repeat constructor; cbn; lia | reflexivity | discriminate | discriminate | lia
    | reflexivity | reflexivity | reflexivity | vm_compute; lia |].
  exists w', rs1, rs2, q. splits; auto.
Defined.

(** X22: a transfer cut short by a cancellation.  The device sends
    well-formed records whose payloads do not hold the end-of-transfer
    marker; the reads that come first bring a part of that stream that stops
    before its end, each read at most 4096 bytes, with timeouts in between
    and no error; the other thread sets the flag so that the poll after
    these reads is the first to see it; the progress interval is positive.
    Then that poll raises the cancellation before it reads: the reads made
    before are the only ones taken from the transport, and the output
    artifact holds exactly the records they had completed, decoded and in
    order. *)
Theorem cancellation_keeps_complete_records :
  forall (rs : list data_record) (pre tail : list recv_event) (d : bytes)
         (interval : Z) (fuel : nat) (w : world),
  Forall well_formed rs -> Forall eot_free rs ->
  quiet pre = true -> Forall small_read pre ->
  data_of pre ++ d = transport_stream rs -> d <> [] ->
  0 < interval ->
  connected w = true -> cancel_in w = Some (length pre) ->
  incoming w = pre ++ tail ->
  (length (transport_stream rs) + length pre < fuel)%nat ->
  exists w' rs1 rs2 q,
    stream_loop fuel fuel interval stream_start w = (Raise CancelledByUser, w') /\
    rs = rs1 ++ rs2 /\
    data_of pre = concat (map frame rs1) ++ q /\ no_cr q = true /\
    artifact (trace w') = artifact (trace w) ++ decoded_stream rs1 /\
    incoming w' = tail.
Proof.
  intros rs pre tail d interval fuel w Hwf Hef Hq Hsm Hs Hd Hi Hc Hk Hin Hf.
  pose proof (inner_budget_start rs) as Hb.
  destruct (stream_prefix interval Hi fuel tail d pre rs stream_start w)
    as (st' & w' & t & rs1 & rs2 & Hrun & Ers & Hbuf & Hnc & Htr & Hart &
        Hcon & Hinc & Hkk); try assumption; try reflexivity; try lia.
  { right. exists (length pre). now split. }
  specialize (Hrun (S (fuel - length pre - 1))).
  replace (length pre + S (fuel - length pre - 1))%nat with fuel in Hrun by lia.
  rewrite Hrun. cbn [stream_loop].
  rewrite Hk in Hkk. cbn in Hkk. rewrite Nat.sub_diag in Hkk.
  unfold bind at 1, cancel_requested. rewrite Hkk.
  exists w', rs1, rs2, (buffer st'). splits; auto.
  now rewrite Htr, artifact_app, Hart.
Qed.

Lemma cancellation_keeps_complete_records_witness :
  exists w' rs1 rs2 q,
    stream_loop 64 64 5 stream_start
      (set_cancel_in (Some 3%nat)
         (streaming (interrupted_delivery ++ [RecvData EOT_MARKER]))) =
      (Raise CancelledByUser, w') /\
    sample_records = rs1 ++ rs2 /\
    data_of interrupted_delivery = concat (map frame rs1) ++ q /\ no_cr q = true /\
    incoming w' = [RecvData EOT_MARKER].
Proof.
  destruct (cancellation_keeps_complete_records sample_records
              interrupted_delivery [RecvData EOT_MARKER]
              (skipn 13 (transport_stream sample_records)) 5 64
              (set_cancel_in (Some 3%nat)
                 (streaming (interrupted_delivery ++ [RecvData EOT_MARKER]))))
    as (w' & rs1 & rs2 & q & Hrun & Ers & Hd & Hq & _ & Hin);
    [repeat constructor | repeat constructor | reflexivity
    | repeat constructor; cbn; lia | reflexivity | discriminate | lia
    | reflexivity | reflexivity | reflexivity | vm_compute; lia |].
  now exists w', rs1, rs2, q.
Defined.
